(** * ArbFlux: the constant-product math library, the qualifier, the RPC
      failover pool and the opportunity store, embedded from the JavaScript
      sources.

    The JavaScript code computes with [decimal.js] values.  A [Decimal] is
    either a finite decimal number, [Infinity], [-Infinity] or [NaN]; the
    result of every arithmetic operation ([plus], [minus], [times],
    [dividedBy]) is rounded to [precision] significant digits with the
    configured rounding mode, while the constructor, the comparisons and
    [floor]/[ceil] are exact.  The library defaults are precision 20 and
    ROUND_HALF_UP; the repository's test setup file sets precision 20 and
    ROUND_DOWN.  Nothing else in the repository configures the library. *)

From Stdlib Require Import ZArith QArith Qround Qreduction Qabs Qminmax Qpower
  Lia Lqa List Sorted Permutation Bool String DecimalString.
Import ListNotations.

Local Open Scope Z_scope.

(** ** decimal.js *)

Module Decimal.

(** The two rounding modes the repository runs with. *)
Inductive Rounding := ROUND_DOWN | ROUND_HALF_UP.

(** Significant digits kept by every arithmetic operation. *)
Definition precision : Z := 20.

(** [floor (log10 n)] for [n > 0], by repeated division. *)
Fixpoint log10_fuel (fuel : nat) (n : Z) : Z :=
  match fuel with
  | O => 0
  | S f => if n <? 10 then 0 else 1 + log10_fuel f (n / 10)
  end.

Definition log10 (n : Z) : Z := log10_fuel (S (Z.to_nat (Z.log2 n))) n.

(** The decimal exponent [e] of the positive rational [a / d]:
    [10^e <= a / d < 10^(e+1)]. *)
Definition exponent (a d : Z) : Z :=
  let e0 := log10 a - log10 d in
  if 0 <=? e0
  then (if 10 ^ e0 * d <=? a then e0 else e0 - 1)
  else (if d <=? a * 10 ^ (- e0) then e0 else e0 - 1).

(** Rounding of the non-negative rational [a / d] to an integer. *)
Definition round_div (rm : Rounding) (a d : Z) : Z :=
  match rm with
  | ROUND_DOWN => a / d
  | ROUND_HALF_UP => (2 * a + d) / (2 * d)
  end.

(** [r * 10^(-k)] as a rational. *)
Definition scale (r k : Z) : Q :=
  if 0 <=? k then r # Z.to_pos (10 ^ k) else (r * 10 ^ (- k)) # 1.

(** Rounding of a rational to [precision] significant digits: the magnitude
    is rounded, the sign is kept (both modes are symmetric about zero). *)
Definition round_sd (rm : Rounding) (q : Q) : Q :=
  let n := Qnum q in
  let d := Zpos (Qden q) in
  if n =? 0 then 0%Q
  else
    let a := Z.abs n in
    let k := precision - 1 - exponent a d in
    let r := if 0 <=? k then round_div rm (a * 10 ^ k) d
             else round_div rm a (d * 10 ^ (- k)) in
    Qred (scale (Z.sgn n * r) k).

Inductive t :=
| Fin (q : Q)
| Infinity (negative : bool)
| NaN.

(** [new Decimal(n)] for an integer and for a decimal literal
    [c * 10^(-k)]; the constructor does not round. *)
Definition ofZ (n : Z) : t := Fin (n # 1).
Definition lit (c : Z) (k : Z) : t := Fin (Qred (scale c k)).

Definition finalise (rm : Rounding) (q : Q) : t := Fin (round_sd rm q).

Definition isZero (q : Q) : bool := Qnum q =? 0.
Definition isNeg (q : Q) : bool := Qnum q <? 0.

Definition neg (x : t) : t :=
  match x with
  | Fin q => Fin (Qred (- q))
  | Infinity s => Infinity (negb s)
  | NaN => NaN
  end.

Definition plus (rm : Rounding) (x y : t) : t :=
  match x, y with
  | NaN, _ | _, NaN => NaN
  | Infinity s1, Infinity s2 => if Bool.eqb s1 s2 then Infinity s1 else NaN
  | Infinity s, Fin _ | Fin _, Infinity s => Infinity s
  | Fin a, Fin b => finalise rm (a + b)
  end.

Definition minus (rm : Rounding) (x y : t) : t := plus rm x (neg y).

Definition times (rm : Rounding) (x y : t) : t :=
  match x, y with
  | NaN, _ | _, NaN => NaN
  | Infinity s1, Infinity s2 => Infinity (xorb s1 s2)
  | Infinity s, Fin q | Fin q, Infinity s =>
      if isZero q then NaN else Infinity (xorb s (isNeg q))
  | Fin a, Fin b => finalise rm (a * b)
  end.

(** Division by zero does not throw: it yields an infinity, or [NaN] for
    [0 / 0].  (The sign of a zero is not tracked here; decimal.js uses it
    only for the sign of that infinity.) *)
Definition dividedBy (rm : Rounding) (x y : t) : t :=
  match x, y with
  | NaN, _ | _, NaN => NaN
  | Infinity _, Infinity _ => NaN
  | Infinity s, Fin q => Infinity (xorb s (isNeg q))
  | Fin _, Infinity _ => Fin 0
  | Fin a, Fin b =>
      if isZero b then (if isZero a then NaN else Infinity (isNeg a))
      else finalise rm (a / b)
  end.

(** Three-way comparison; [None] when either side is [NaN]. *)
Definition cmp (x y : t) : option comparison :=
  match x, y with
  | NaN, _ | _, NaN => None
  | Infinity s1, Infinity s2 =>
      Some (if Bool.eqb s1 s2 then Eq else if s1 then Lt else Gt)
  | Infinity s, Fin _ => Some (if s then Lt else Gt)
  | Fin _, Infinity s => Some (if s then Gt else Lt)
  | Fin a, Fin b => Some (a ?= b)%Q
  end.

Definition lessThan (x y : t) : bool :=
  match cmp x y with Some Lt => true | _ => false end.
Definition lessThanOrEqualTo (x y : t) : bool :=
  match cmp x y with Some Lt | Some Eq => true | _ => false end.
Definition greaterThan (x y : t) : bool :=
  match cmp x y with Some Gt => true | _ => false end.
Definition greaterThanOrEqualTo (x y : t) : bool :=
  match cmp x y with Some Gt | Some Eq => true | _ => false end.

Definition floor (x : t) : t :=
  match x with Fin q => Fin (Qfloor q # 1) | _ => x end.
Definition ceil (x : t) : t :=
  match x with Fin q => Fin (Qceiling q # 1) | _ => x end.

Definition isNaN (x : t) : bool :=
  match x with NaN => true | _ => false end.

(** The short names of the same methods. *)
Abbreviation add := plus (only parsing).
Abbreviation sub := minus (only parsing).
Abbreviation mul := times (only parsing).
Abbreviation div := dividedBy (only parsing).
Abbreviation lte := lessThanOrEqualTo (only parsing).
Abbreviation gt := greaterThan (only parsing).
Abbreviation gte := greaterThanOrEqualTo (only parsing).

(** [x.isFinite()]. *)
Definition isFinite (x : t) : bool :=
  match x with Fin _ => true | _ => false end.

(** [x.abs()]. *)
Definition abs (x : t) : t :=
  match x with
  | Fin q => Fin (Qred (Qabs q))
  | Infinity _ => Infinity false
  | NaN => NaN
  end.

(** [Decimal.min(x, y)] and [Decimal.max(x, y)]: the first argument is
    kept unless the second is [NaN], which is then the result, or is
    strictly smaller (greater). *)
Definition min (x y : t) : t :=
  if isNaN y then NaN else if greaterThan x y then y else x.
Definition max (x y : t) : t :=
  if isNaN y then NaN else if lessThan x y then y else x.

(** The rounding of a non-negative rational to an integer, as [round_div]
    does it on a fraction. *)
Definition roundQ (rm : Rounding) (x : Q) : Z :=
  match rm with
  | ROUND_DOWN => Qfloor x
  | ROUND_HALF_UP => Qfloor (x + (1 # 2))
  end.

(** One unit in the last of the 20 significant digits, relative to the
    number: [10^-19]. *)
Definition ulp : Q := 1 # 10000000000000000000.

(** What [exponent a d] has to satisfy, written without negative powers. *)
Definition exponent_ok (a d e : Z) : Prop :=
  (0 <= e -> 10 ^ e * d <= a /\ a < 10 ^ (e + 1) * d) /\
  (e < 0 -> d <= a * 10 ^ (- e) /\ a * 10 ^ (- e - 1) < d).

End Decimal.

(** ** Errors thrown by the math library *)

Inductive Error :=
| InvalidAmountIn      (* "Invalid amountIn: ... (must be positive)" *)
| InvalidReserveIn     (* "Invalid reserveIn: ... (must be positive)" *)
| InvalidReserveOut    (* "Invalid reserveOut: ... (must be positive)" *)
| InvalidInput         (* "Invalid input: amounts and reserves must be positive" *)
| InsufficientLiquidity. (* "Insufficient liquidity: amountOut >= reserveOut" *)

Inductive result (A : Type) :=
| Ok (a : A)
| Throw (e : Error).
Arguments Ok {A} a.
Arguments Throw {A} e.

Definition is_invalid_input (e : Error) : bool :=
  match e with
  | InsufficientLiquidity => false
  | _ => true
  end.

(** ** UniswapV2Math *)

Module UniswapV2Math.

Import Decimal.

(** UNISWAP_V2_CONSTANTS, as the unit test of the class pins them. *)
Definition FEE_DENOMINATOR : Z := 1000.
Definition FEE_NUMERATOR : Z := 997.

Record Pool := { reserveIn : Decimal.t; reserveOut : Decimal.t }.

Section WithRounding.

Variable rm : Rounding.

Definition getAmountOut (amountIn reserveIn reserveOut : Decimal.t)
  : result Decimal.t :=
  if lte amountIn (ofZ 0) then Throw InvalidAmountIn
  else if lte reserveIn (ofZ 0) then Throw InvalidReserveIn
  else if lte reserveOut (ofZ 0) then Throw InvalidReserveOut
  else
    let amountInWithFee := mul rm amountIn (ofZ FEE_NUMERATOR) in
    let numerator := mul rm amountInWithFee reserveOut in
    let denominator :=
      add rm (mul rm reserveIn (ofZ FEE_DENOMINATOR)) amountInWithFee in
    let amountOut := floor (div rm numerator denominator) in
    Ok amountOut.

Definition getAmountIn (amountOut reserveIn reserveOut : Decimal.t)
  : result Decimal.t :=
  if lte amountOut (ofZ 0) || lte reserveIn (ofZ 0) || lte reserveOut (ofZ 0)
  then Throw InvalidInput
  else if gte amountOut reserveOut
  then Throw InsufficientLiquidity
  else
    let numerator := mul rm (mul rm reserveIn amountOut) (ofZ FEE_DENOMINATOR) in
    let denominator := mul rm (sub rm reserveOut amountOut) (ofZ FEE_NUMERATOR) in
    let amountIn := add rm (ceil (div rm numerator denominator)) (ofZ 1) in
    Ok amountIn.

(** The body of the [try] block of one probe of [findOptimalTradeSize]:
    both legs and the net profit at [mid]. *)
Definition netProfitAt (poolA poolB : Pool) (gasCost mid : Decimal.t)
  : result Decimal.t :=
  match getAmountOut mid (reserveIn poolA) (reserveOut poolA) with
  | Throw e => Throw e
  | Ok amountOutB =>
      match getAmountOut amountOutB (reserveIn poolB) (reserveOut poolB) with
      | Throw e => Throw e
      | Ok amountOutA => Ok (sub rm (sub rm amountOutA mid) gasCost)
      end
  end.

(** The loop variables of [findOptimalTradeSize]. *)
Record Search := {
  low : Decimal.t;
  high : Decimal.t;
  optimalAmount : Decimal.t;
  maxProfit : Decimal.t
}.

(** [low.add(high).div(2).floor()]. *)
Definition midpoint (s : Search) : Decimal.t :=
  floor (div rm (add rm (low s) (high s)) (ofZ 2)).

(** The loop condition, [high.sub(low).gt(1)]. *)
Definition continues (s : Search) : bool :=
  gt (sub rm (high s) (low s)) (ofZ 1).

(** One iteration of the [while] body. *)
Definition step (poolA poolB : Pool) (gasCost : Decimal.t) (s : Search)
  : Search :=
  let mid := midpoint s in
  if lte mid (ofZ 0)
  then {| low := add rm mid (ofZ 1); high := high s;
          optimalAmount := optimalAmount s; maxProfit := maxProfit s |}
  else
    match netProfitAt poolA poolB gasCost mid with
    | Ok netProfit =>
        let better := gt netProfit (maxProfit s) in
        let maxProfit' := if better then netProfit else maxProfit s in
        let optimalAmount' := if better then mid else optimalAmount s in
        if gt netProfit (ofZ 0)
        then {| low := mid; high := high s;
                optimalAmount := optimalAmount'; maxProfit := maxProfit' |}
        else {| low := low s; high := mid;
                optimalAmount := optimalAmount'; maxProfit := maxProfit' |}
    | Throw _ =>
        {| low := add rm mid (ofZ 1); high := high s;
           optimalAmount := optimalAmount s; maxProfit := maxProfit s |}
    end.

(** The [while] loop; [None] when [fuel] iterations were not enough. *)
Fixpoint search (fuel : nat) (poolA poolB : Pool) (gasCost : Decimal.t)
  (s : Search) : option Search :=
  if continues s then
    match fuel with
    | O => None
    | S fuel' => search fuel' poolA poolB gasCost (step poolA poolB gasCost s)
    end
  else Some s.

(** [low = 1], [high = maxAmount], [optimalAmount = 0], [maxProfit = 0]. *)
Definition initial (maxAmount : Decimal.t) : Search :=
  {| low := ofZ 1; high := maxAmount;
     optimalAmount := ofZ 0; maxProfit := ofZ 0 |}.

(** [findOptimalTradeSize] returns [{ optimalAmount, maxProfit }]; [None]
    when the loop does not end within [fuel] iterations. *)
Definition findOptimalTradeSize (fuel : nat) (poolA poolB : Pool)
  (maxAmount gasCost : Decimal.t) : option (Decimal.t * Decimal.t) :=
  match search fuel poolA poolB gasCost (initial maxAmount) with
  | Some s => Some (optimalAmount s, maxProfit s)
  | None => None
  end.

(** The amounts probed by the loop, in order. *)
Fixpoint probes (fuel : nat) (poolA poolB : Pool) (gasCost : Decimal.t)
  (s : Search) : list Decimal.t :=
  if continues s then
    match fuel with
    | O => []
    | S fuel' =>
        midpoint s :: probes fuel' poolA poolB gasCost (step poolA poolB gasCost s)
    end
  else [].

(** *** Multi-hop quotes *)

(** What [getAmountsOut] and [getAmountsIn] throw: one of their own two
    checks, or the error of a hop, thrown again. *)
Inductive PathError :=
| PathTooShort            (* "Path must contain at least 2 tokens" *)
| ReservesLengthMismatch  (* "Reserves array length must be path length - 1" *)
| HopFailed (e : Error).

Inductive pathResult :=
| Amounts (amounts : list Decimal.t)
| PathThrow (e : PathError).

(** The [for] loop of [getAmountsOut] from hop [i] on: [current] is
    [amounts[i]], [reserves] holds the pairs of the hops still to do, the
    result is [amounts[i+1 ...]]. *)
Fixpoint hopsOut (current : Decimal.t) (reserves : list (Decimal.t * Decimal.t))
  : result (list Decimal.t) :=
  match reserves with
  | [] => Ok []
  | (reserveIn, reserveOut) :: rest =>
      match getAmountOut current reserveIn reserveOut with
      | Throw e => Throw e
      | Ok next =>
          match hopsOut next rest with
          | Throw e => Throw e
          | Ok later => Ok (next :: later)
          end
      end
  end.

(** [getAmountsOut]: [amounts[0]] is the input as given, every further
    amount is the [getAmountOut] of the one before. *)
Definition getAmountsOut (amountIn : Decimal.t) (path : list string)
  (reserves : list (Decimal.t * Decimal.t)) : pathResult :=
  if (List.length path <? 2)%nat then PathThrow PathTooShort
  else if negb (List.length reserves =? List.length path - 1)%nat
  then PathThrow ReservesLengthMismatch
  else
    match hopsOut amountIn reserves with
    | Ok later => Amounts (amountIn :: later)
    | Throw e => PathThrow (HopFailed e)
    end.

(** The [for] loop of [getAmountsIn], which runs from the last hop to the
    first: [current] is [amounts[i]], [later] is [amounts[i+1 ...]] and
    [earlier] holds the pairs of the hops [i-1, ..., 0], in that order. *)
Fixpoint hopsIn (earlier : list (Decimal.t * Decimal.t)) (current : Decimal.t)
  (later : list Decimal.t) : result (list Decimal.t) :=
  match earlier with
  | [] => Ok (current :: later)
  | (reserveIn, reserveOut) :: rest =>
      match getAmountIn current reserveIn reserveOut with
      | Throw e => Throw e
      | Ok previous => hopsIn rest previous (current :: later)
      end
  end.

Definition getAmountsIn (amountOut : Decimal.t) (path : list string)
  (reserves : list (Decimal.t * Decimal.t)) : pathResult :=
  if (List.length path <? 2)%nat then PathThrow PathTooShort
  else if negb (List.length reserves =? List.length path - 1)%nat
  then PathThrow ReservesLengthMismatch
  else
    match hopsIn (rev reserves) amountOut [] with
    | Ok amounts => Amounts amounts
    | Throw e => PathThrow (HopFailed e)
    end.

(** *** Price impact *)

(** [calculatePriceImpact], up to its last step: the Decimal [priceImpact]
    that the function hands to [toNumber()] on return.  The spot price is
    computed before [getAmountOut] validates the inputs. *)
Definition calculatePriceImpact (amountIn reserveIn reserveOut : Decimal.t)
  : result Decimal.t :=
  let spotPrice := div rm reserveOut reserveIn in
  match getAmountOut amountIn reserveIn reserveOut with
  | Throw e => Throw e
  | Ok amountOut =>
      let executionPrice := div rm amountOut amountIn in
      let priceImpact := div rm (sub rm spotPrice executionPrice) spotPrice in
      Ok priceImpact
  end.

(** A pool with integer reserves. *)
Definition pool (rIn rOut : Z) : Pool :=
  {| reserveIn := ofZ rIn; reserveOut := ofZ rOut |}.

(** A probe whose net profit is not strictly positive (a probe that throws
    has no net profit). *)
Definition notProfitable (poolA poolB : Pool) (gasCost m : Decimal.t) : Prop :=
  forall q, netProfitAt poolA poolB gasCost m = Ok q ->
            greaterThan q (ofZ 0) = false.

(** [bestProbed visited o p]: what [{ optimalAmount: o, maxProfit: p }]
    is with respect to the amounts [visited] so far: either nothing probed
    was profitable and both are 0, or [o] is the first probed amount that
    reaches the greatest net profit [p > 0] among the probed ones. *)
Definition bestProbed (poolA poolB : Pool) (gasCost : Decimal.t)
  (visited : list Decimal.t) (o p : Decimal.t) : Prop :=
  (o = ofZ 0 /\ p = ofZ 0 /\ Forall (notProfitable poolA poolB gasCost) visited)
  \/
  (netProfitAt poolA poolB gasCost o = Ok p /\
   greaterThan p (ofZ 0) = true /\
   exists before after,
     visited = before ++ o :: after /\
     Forall (fun m => forall q, netProfitAt poolA poolB gasCost m = Ok q ->
                                greaterThanOrEqualTo q p = false) before /\
     Forall (fun m => forall q, netProfitAt poolA poolB gasCost m = Ok q ->
                                greaterThan q p = false) after).

End WithRounding.

End UniswapV2Math.

(** ** Helpers shared by the services *)

(** [Date.now()] and other integers inside template strings. *)
Definition string_of_Z (n : Z) : string :=
  DecimalString.NilZero.string_of_int (Z.to_int n).

(** [new Decimal(x)] for a JavaScript number [x] that is a finite decimal
    (option values, literals). *)
Definition ofNumber (x : Q) : Decimal.t := Decimal.Fin (Qred x).

(** ** A JavaScript [Map] with string keys

    The entries in insertion order; [set] on a key that is present
    replaces the value where it stands. *)

Module JsMap.

Section WithValue.

Context {V : Type}.

Fixpoint get (k : string) (m : list (string * V)) : option V :=
  match m with
  | [] => None
  | (k', v) :: rest => if String.eqb k' k then Some v else get k rest
  end.

Fixpoint set (k : string) (v : V) (m : list (string * V)) : list (string * V) :=
  match m with
  | [] => [(k, v)]
  | (k', v') :: rest =>
      if String.eqb k' k then (k', v) :: rest else (k', v') :: set k v rest
  end.

Fixpoint delete (k : string) (m : list (string * V)) : list (string * V) :=
  match m with
  | [] => []
  | (k', v) :: rest =>
      if String.eqb k' k then rest else (k', v) :: delete k rest
  end.

Definition has (k : string) (m : list (string * V)) : bool :=
  match get k m with Some _ => true | None => false end.

Definition size (m : list (string * V)) : Z := Z.of_nat (List.length m).

Definition keys (m : list (string * V)) : list string := map fst m.

End WithValue.

End JsMap.

(** ** TradingStrategyEngine *)

Module TradingStrategyEngine.

Import Decimal.

(** [this.options].  The numbers are JavaScript numbers; each is used
    through [new Decimal(...)], except [opportunityTimeout] (milliseconds,
    added to [Date.now()]) and the product [minProfitMargin * 100], which is
    taken exactly. *)
Record Options := {
  minProfitUSD : Q;
  minProfitMargin : Q;
  maxSlippage : Q;
  maxPositionSizeUSD : Q;
  gasBuffer : Q;
  maxGasPriceGwei : Q;
  opportunityTimeout : Z;
  minLiquidityUSD : Q
}.

(** The defaults of the constructor. *)
Definition defaultOptions : Options :=
  {| minProfitUSD := 10; minProfitMargin := 5 # 1000; maxSlippage := 1 # 100;
     maxPositionSizeUSD := 10000; gasBuffer := 12 # 10; maxGasPriceGwei := 100;
     opportunityTimeout := 30000; minLiquidityUSD := 100000 |}.

Record Stats := {
  opportunitiesDetected : Z;
  opportunitiesQualified : Z;
  opportunitiesExecuted : Z
}.

Record Pair := { tokenA : string; tokenB : string }.

(** The per-DEX price data built by [analyzeTokenPair].  An entry of
    [reserves] is [None] when the string is not a number, so that
    [new Decimal(r)] throws. *)
Record DexData := {
  dex : string;
  price0 : Decimal.t;
  price1 : Decimal.t;
  liquidityUSD : Decimal.t;
  reserves : option (list (option Decimal.t));
  pairAddress : string
}.

Record Opportunity := {
  id : string;
  pair : Pair;
  buyDex : string;
  sellDex : string;
  buyPrice : Decimal.t;
  sellPrice : Decimal.t;
  priceDifference : Decimal.t;
  priceDifferencePercent : Decimal.t;
  optimalAmount : Decimal.t;
  grossProfitUSD : Decimal.t;
  gasCostUSD : Decimal.t;
  netProfitUSD : Decimal.t;
  profitMargin : Decimal.t;
  buyLiquidityUSD : Decimal.t;
  sellLiquidityUSD : Decimal.t;
  buyPairAddress : string;
  sellPairAddress : string;
  blockNumber : string;
  timestamp : Z;
  expiresAt : Z;
  qualified : bool;
  executed : bool
}.


(** The opportunity of the unit test "should qualify profitable
    opportunity", the fields that the test leaves out filled in. *)
Definition sampleOpportunity (expiry : Z) : Opportunity :=
  {| id := "0xTOKENA-0xTOKENB-uniswap-sushiswap-latest-1700000000000";
     pair := {| tokenA := "0xTOKENA"; tokenB := "0xTOKENB" |};
     buyDex := "uniswap"; sellDex := "sushiswap";
     buyPrice := ofZ 2; sellPrice := lit 21 1;
     priceDifference := lit 1 1; priceDifferencePercent := ofZ 5;
     optimalAmount := ofZ 1000; grossProfitUSD := ofZ 100;
     gasCostUSD := ofZ 50; netProfitUSD := ofZ 50; profitMargin := lit 1 1;
     buyLiquidityUSD := ofZ 1000000; sellLiquidityUSD := ofZ 1000000;
     buyPairAddress := "0xPAIR1"; sellPairAddress := "0xPAIR2";
     blockNumber := "latest"; timestamp := 1700000000000;
     expiresAt := expiry; qualified := false; executed := false |}.

(** Price data in the shape of the unit test "should calculate opportunity
    correctly" (prices 2.0 and 2.1, pools of 1000 tokens), the second
    reserves chosen so that the round trip through the two pools gains. *)
Definition sampleBuyDex : DexData :=
  {| dex := "uniswap"; price0 := lit 20 1; price1 := lit 5 1;
     liquidityUSD := ofZ 1000000;
     reserves := Some [Some (ofZ (1000 * 10 ^ 18)); Some (ofZ (2100 * 10 ^ 18))];
     pairAddress := "0xPAIR1" |}.

Definition sampleSellDex : DexData :=
  {| dex := "sushiswap"; price0 := lit 21 1; price1 := lit 5 1;
     liquidityUSD := ofZ 1000000;
     reserves := Some [Some (ofZ (1000 * 10 ^ 18)); Some (ofZ (2000 * 10 ^ 18))];
     pairAddress := "0xPAIR2" |}.

Definition samplePair : Pair := {| tokenA := "0xTOKENA"; tokenB := "0xTOKENB" |}.

Section WithRounding.

Variable rm : Rounding.
Variable options : Options.

(** [buyDex.reserves.map(r => new Decimal(r))]; [None] when it throws. *)
Fixpoint parseReserves (rs : list (option Decimal.t)) : option (list Decimal.t) :=
  match rs with
  | [] => Some []
  | None :: _ => None
  | Some r :: rest =>
      match parseReserves rest with
      | Some l => Some (r :: l)
      | None => None
      end
  end.

(** The [catch] branch of [calculateOptimalTradeSize]: 10% of the maximum
    position size. *)
Definition fallbackTradeSize : Decimal.t :=
  times rm (ofNumber (maxPositionSizeUSD options)) (lit 1 1).

(** [calculateOptimalTradeSize]; the outer [option] is [None] when the
    search of [findOptimalTradeSize] does not finish within [fuel]
    iterations. *)
Definition calculateOptimalTradeSize (fuel : nat) (buyDex sellDex : DexData)
  : option Decimal.t :=
  match reserves buyDex, reserves sellDex with
  | Some rb, Some rs =>
      if (List.length rb <? 2)%nat || (List.length rs <? 2)%nat then Some (ofZ 0)
      else
        match parseReserves rb, parseReserves rs with
        | Some (b0 :: b1 :: _), Some (s0 :: s1 :: _) =>
            if lessThanOrEqualTo b0 (ofZ 0) || lessThanOrEqualTo b1 (ofZ 0)
               || lessThanOrEqualTo s0 (ofZ 0) || lessThanOrEqualTo s1 (ofZ 0)
            then Some (ofZ 0)
            else
              let poolA := {| UniswapV2Math.reserveIn := b0;
                              UniswapV2Math.reserveOut := b1 |} in
              let poolB := {| UniswapV2Math.reserveIn := s1;
                              UniswapV2Math.reserveOut := s0 |} in
              let gasCost := ofZ 60 in
              match UniswapV2Math.findOptimalTradeSize rm fuel poolA poolB
                      (ofNumber (maxPositionSizeUSD options)) gasCost with
              | None => None
              | Some (optimalAmount, _) =>
                  if lessThanOrEqualTo optimalAmount (ofZ 0) || isNaN optimalAmount
                  then Some (ofZ 0)
                  else Some optimalAmount
              end
        | _, _ => Some fallbackTradeSize
        end
  | _, _ => Some (ofZ 0)
  end.

Definition calculateGrossProfit (amount buyPrice sellPrice : Decimal.t)
  : Decimal.t :=
  let tokensReceived := dividedBy rm amount buyPrice in
  let usdReceived := times rm tokensReceived sellPrice in
  minus rm usdReceived amount.

Definition calculateGasCost (gasPrice : Decimal.t) : Decimal.t :=
  let estimatedGas := 300000 in
  let gasWithBuffer := times rm (ofZ estimatedGas) (ofNumber (gasBuffer options)) in
  let gasCostWei := times rm gasWithBuffer gasPrice in
  let ethPriceUSD := ofZ 2000 in
  times rm (dividedBy rm gasCostWei (ofZ (10 ^ 18))) ethPriceUSD.

Definition generateOpportunityId (pair : Pair) (buyDex sellDex blockNumber : string)
  (now : Z) : string :=
  (tokenA pair ++ "-" ++ tokenB pair ++ "-" ++ buyDex ++ "-" ++ sellDex
     ++ "-" ++ blockNumber ++ "-" ++ string_of_Z now)%string.

(** [calculateArbitrageOpportunity].  [nowId], [nowStamp] and [nowExpiry]
    are the three readings of [Date.now()], in program order.  The outer
    [option] is [None] when the trade-size search does not finish within
    [fuel]; the inner one is the JavaScript [null]. *)
Definition calculateArbitrageOpportunity (fuel : nat) (pair : Pair)
  (buyDex sellDex : DexData) (gasPrice : Decimal.t) (blockNumber : string)
  (nowId nowStamp nowExpiry : Z) : option (option Opportunity) :=
  let buyPrice := price0 buyDex in
  let sellPrice := price0 sellDex in
  let priceDiff := minus rm sellPrice buyPrice in
  let priceDiffPercent := times rm (dividedBy rm priceDiff buyPrice) (ofZ 100) in
  if lessThan priceDiffPercent (ofNumber (minProfitMargin options * 100))
  then Some None
  else
    match calculateOptimalTradeSize fuel buyDex sellDex with
    | None => None
    | Some optimalAmount =>
        if lessThanOrEqualTo optimalAmount (ofZ 0) then Some None
        else
          let grossProfit := calculateGrossProfit optimalAmount buyPrice sellPrice in
          let gasCost := calculateGasCost gasPrice in
          let netProfit := minus rm grossProfit gasCost in
          let profitMargin := dividedBy rm netProfit gasCost in
          Some (Some
            {| id := generateOpportunityId pair (dex buyDex) (dex sellDex)
                       blockNumber nowId;
               pair := pair;
               buyDex := dex buyDex;
               sellDex := dex sellDex;
               buyPrice := buyPrice;
               sellPrice := sellPrice;
               priceDifference := priceDiff;
               priceDifferencePercent := priceDiffPercent;
               optimalAmount := optimalAmount;
               grossProfitUSD := grossProfit;
               gasCostUSD := gasCost;
               netProfitUSD := netProfit;
               profitMargin := profitMargin;
               buyLiquidityUSD := liquidityUSD buyDex;
               sellLiquidityUSD := liquidityUSD sellDex;
               buyPairAddress := pairAddress buyDex;
               sellPairAddress := pairAddress sellDex;
               blockNumber := blockNumber;
               timestamp := nowStamp;
               expiresAt := nowExpiry + opportunityTimeout options;
               qualified := false;
               executed := false |})
    end.


End WithRounding.

(** [clearExpiredOpportunities]: the loop over the entries of
    [activeOpportunities], in insertion order, deleting from the map as it
    goes; [now] is its one reading of [Date.now()], and the number is
    [performanceMetrics.missedOpportunities]. *)
Definition clearExpiredOpportunities (now : Z)
  (activeOpportunities : list (string * Opportunity)) (missedOpportunities : Z)
  : list (string * Opportunity) * Z :=
  fold_left
    (fun state entry =>
       if now >? expiresAt (snd entry)
       then (JsMap.delete (fst entry) (fst state), snd state + 1)
       else state)
    activeOpportunities (activeOpportunities, missedOpportunities).

End TradingStrategyEngine.

(** ** RiskManager *)

Module RiskManager.

Import Decimal.

Module Options.

(** [this.options], JavaScript numbers. *)
Record t := {
  maxPositionSizeUSD : Q;
  maxPortfolioExposure : Q;
  maxSlippage : Q;
  maxPriceImpact : Q;
  minLiquidityRatio : Q;
  maxConcurrentPositions : Z;
  maxDailyLoss : Q;
  maxDrawdown : Q
}.

End Options.

(** The defaults of the constructor. *)
Definition defaultOptions : Options.t :=
  {| Options.maxPositionSizeUSD := 10000;
     Options.maxPortfolioExposure := 1 # 10;
     Options.maxSlippage := 1 # 100;
     Options.maxPriceImpact := 5 # 1000;
     Options.minLiquidityRatio := 1 # 10;
     Options.maxConcurrentPositions := 5;
     Options.maxDailyLoss := 1000;
     Options.maxDrawdown := 2 # 10 |}.

(** An entry of [activePositions] and of [positionHistory]; the last three
    fields are set when the position is closed. *)
Record Position := {
  id : string;
  opportunityId : string;
  pair : TradingStrategyEngine.Pair;
  buyDex : string;
  sellDex : string;
  positionSize : Decimal.t;
  expectedProfit : Decimal.t;
  openTime : Z;
  status : string;
  closeTime : option Z;
  actualProfit : option Decimal.t;
  gasCost : option Decimal.t
}.

Record DailyStats := {
  totalProfit : Decimal.t;
  totalLoss : Decimal.t;
  netProfit : Decimal.t;
  tradesCount : Z;
  startTime : Z
}.

Record RiskMetrics := {
  currentExposure : Decimal.t;
  maxExposure : Decimal.t;
  currentDrawdown : Decimal.t;
  peakValue : Decimal.t;
  sharpeRatio : Decimal.t;
  maxDrawdown : Decimal.t;
  volatility : Decimal.t
}.

Record t := {
  options : Options.t;
  activePositions : list (string * Position);
  positionHistory : list Position;
  dailyStats : DailyStats;
  riskMetrics : RiskMetrics
}.

(** The [result] handed to [recordPositionClose]; a field is [None] when
    the property is missing or falsy. *)
Record CloseResult := {
  resultActualProfit : option Decimal.t;
  resultGasCost : option Decimal.t
}.

(** [portfolioState]; a field is [None] when the property is missing or
    falsy. *)
Record PortfolioState := {
  availableCapital : option Decimal.t;
  totalValue : option Decimal.t
}.

Inductive Warning :=
| BuyLiquidityInsufficient (buyLiquidity minLiquidity : Decimal.t)
| SellLiquidityInsufficient (sellLiquidity minLiquidity : Decimal.t)
| BuyPriceImpactTooHigh (buyImpact maxImpact : Decimal.t)
| SellPriceImpactTooHigh (sellImpact maxImpact : Decimal.t)
| PortfolioExposureTooHigh (newExposure maxExposure : Decimal.t)
| PositionSizeTooLarge (positionSize maxPositionSize : Decimal.t)
| DailyLossLimitExceeded
| PositionCouldExceedDailyLoss.

(** The result of a check: [approved] starts [true], every failed test
    clears it and pushes its warning. *)
Record Check := {
  approved : bool;
  warnings : list Warning
}.

Definition warnIf (failed : bool) (w : Warning) : list Warning :=
  if failed then [w] else [].

Inductive PauseReason :=
| DailyLossLimit        (* 'Daily loss limit exceeded' *)
| MaximumDrawdown       (* 'Maximum drawdown exceeded' *)
| PortfolioExposureLimit. (* 'Portfolio exposure limit exceeded' *)

Record PauseStatus := {
  paused : bool;
  reason : option PauseReason
}.

Section WithRounding.

Variable rm : Rounding.

Definition freshDailyStats (now : Z) : DailyStats :=
  {| totalProfit := ofZ 0; totalLoss := ofZ 0; netProfit := ofZ 0;
     tradesCount := 0; startTime := now |}.

(** The constructor; [now] is its reading of [Date.now()]. *)
Definition new (options : Options.t) (now : Z) : t :=
  {| options := options;
     activePositions := [];
     positionHistory := [];
     dailyStats := freshDailyStats now;
     riskMetrics :=
       {| currentExposure := ofZ 0;
          maxExposure :=
            times rm (ofNumber (Options.maxPositionSizeUSD options))
              (ofNumber (Options.maxPortfolioExposure options));
          currentDrawdown := ofZ 0;
          peakValue := ofZ 0;
          sharpeRatio := ofZ 0;
          maxDrawdown := ofZ 0;
          volatility := ofZ 0 |} |}.

(** [calculatePositionSize]: the [size] of its result. *)
Definition calculatePositionSize (m : t) (o : TradingStrategyEngine.Opportunity)
  (portfolioState : PortfolioState) : Decimal.t :=
  let profitMargin := TradingStrategyEngine.profitMargin o in
  let kellyFraction := dividedBy rm (minus rm profitMargin (ofZ 1)) profitMargin in
  let conservativeKelly := times rm kellyFraction (lit 25 2) in
  let availableCapital :=
    match availableCapital portfolioState with
    | Some c => c
    | None => ofNumber (Options.maxPositionSizeUSD (options m))
    end in
  let kellyPositionSize := times rm availableCapital conservativeKelly in
  let maxPositionSize := ofNumber (Options.maxPositionSizeUSD (options m)) in
  let positionSize := min kellyPositionSize maxPositionSize in
  let minPositionSize := ofZ 100 in
  max positionSize minPositionSize.

Definition checkLiquidityRequirements (m : t)
  (o : TradingStrategyEngine.Opportunity) (positionSize : Decimal.t) : Check :=
  let buyLiquidity := TradingStrategyEngine.buyLiquidityUSD o in
  let sellLiquidity := TradingStrategyEngine.sellLiquidityUSD o in
  let minLiquidity :=
    dividedBy rm positionSize (ofNumber (Options.minLiquidityRatio (options m))) in
  let buyFails := lessThan buyLiquidity minLiquidity in
  let sellFails := lessThan sellLiquidity minLiquidity in
  {| approved := negb buyFails && negb sellFails;
     warnings :=
       warnIf buyFails (BuyLiquidityInsufficient buyLiquidity minLiquidity)
       ++ warnIf sellFails (SellLiquidityInsufficient sellLiquidity minLiquidity) |}.

Definition checkPriceImpact (m : t) (o : TradingStrategyEngine.Opportunity)
  (positionSize : Decimal.t) : Check :=
  let buyLiquidity := TradingStrategyEngine.buyLiquidityUSD o in
  let sellLiquidity := TradingStrategyEngine.sellLiquidityUSD o in
  let buyImpact := dividedBy rm positionSize buyLiquidity in
  let sellImpact := dividedBy rm positionSize sellLiquidity in
  let maxImpact := ofNumber (Options.maxPriceImpact (options m)) in
  let buyFails := greaterThan buyImpact maxImpact in
  let sellFails := greaterThan sellImpact maxImpact in
  {| approved := negb buyFails && negb sellFails;
     warnings :=
       warnIf buyFails (BuyPriceImpactTooHigh buyImpact maxImpact)
       ++ warnIf sellFails (SellPriceImpactTooHigh sellImpact maxImpact) |}.

Definition checkPortfolioExposure (m : t) (o : TradingStrategyEngine.Opportunity)
  (positionSize : Decimal.t) (portfolioState : PortfolioState) : Check :=
  let totalPortfolioValue :=
    match totalValue portfolioState with
    | Some v => v
    | None => ofNumber (Options.maxPositionSizeUSD (options m))
    end in
  let currentExposure := currentExposure (riskMetrics m) in
  let newExposure := plus rm currentExposure positionSize in
  let maxExposure :=
    times rm totalPortfolioValue
      (ofNumber (Options.maxPortfolioExposure (options m))) in
  let maxPositionSize := ofNumber (Options.maxPositionSizeUSD (options m)) in
  let exposureFails := greaterThan newExposure maxExposure in
  let sizeFails := greaterThan positionSize maxPositionSize in
  {| approved := negb exposureFails && negb sizeFails;
     warnings :=
       warnIf exposureFails (PortfolioExposureTooHigh newExposure maxExposure)
       ++ warnIf sizeFails (PositionSizeTooLarge positionSize maxPositionSize) |}.

Definition checkDailyLossLimits (m : t) (o : TradingStrategyEngine.Opportunity)
  (positionSize : Decimal.t) : Check :=
  let dailyLoss := totalLoss (dailyStats m) in
  let maxDailyLoss := ofNumber (Options.maxDailyLoss (options m)) in
  let limitFails := greaterThanOrEqualTo dailyLoss maxDailyLoss in
  let remainingDailyLoss := minus rm maxDailyLoss dailyLoss in
  let potentialLoss := times rm positionSize (lit 1 1) in
  let potentialFails := greaterThan potentialLoss remainingDailyLoss in
  {| approved := negb limitFails && negb potentialFails;
     warnings :=
       warnIf limitFails DailyLossLimitExceeded
       ++ warnIf potentialFails PositionCouldExceedDailyLoss |}.

(** [recordPositionOpen]; [now] is [Date.now()]. *)
Definition recordPositionOpen (now : Z) (o : TradingStrategyEngine.Opportunity)
  (size : Decimal.t) (transactionId : string) (m : t) : t :=
  let position :=
    {| id := transactionId;
       opportunityId := TradingStrategyEngine.id o;
       pair := TradingStrategyEngine.pair o;
       buyDex := TradingStrategyEngine.buyDex o;
       sellDex := TradingStrategyEngine.sellDex o;
       positionSize := size;
       expectedProfit := TradingStrategyEngine.netProfitUSD o;
       openTime := now;
       status := "open";
       closeTime := None;
       actualProfit := None;
       gasCost := None |} in
  let r := riskMetrics m in
  {| options := options m;
     activePositions := JsMap.set transactionId position (activePositions m);
     positionHistory := positionHistory m;
     dailyStats := dailyStats m;
     riskMetrics :=
       {| currentExposure := plus rm (currentExposure r) size;
          maxExposure := maxExposure r;
          currentDrawdown := currentDrawdown r;
          peakValue := peakValue r;
          sharpeRatio := sharpeRatio r;
          maxDrawdown := maxDrawdown r;
          volatility := volatility r |} |}.

(** [recordPositionClose]; [now] is [Date.now()].  The drawdown computed
    here is a local constant: the field [currentDrawdown] of the metrics
    is not assigned. *)
Definition recordPositionClose (now : Z) (transactionId : string)
  (result : CloseResult) (m : t) : t :=
  match JsMap.get transactionId (activePositions m) with
  | None => m
  | Some position =>
      let actualProfitText :=
        match resultActualProfit result with
        | Some p => p
        | None => expectedProfit position
        end in
      let closed :=
        {| id := id position;
           opportunityId := opportunityId position;
           pair := pair position;
           buyDex := buyDex position;
           sellDex := sellDex position;
           positionSize := positionSize position;
           expectedProfit := expectedProfit position;
           openTime := openTime position;
           status := "closed";
           closeTime := Some now;
           actualProfit := Some actualProfitText;
           gasCost := resultGasCost result |} in
      let actualProfit := actualProfitText in
      let gasCost :=
        match resultGasCost result with Some g => g | None => ofZ 0 end in
      let d := dailyStats m in
      let dailyNetBefore := netProfit d in
      let netProfit := minus rm actualProfit gasCost in
      let gain := greaterThan netProfit (ofZ 0) in
      let dailyNet := plus rm dailyNetBefore netProfit in
      let r := riskMetrics m in
      let peak := if greaterThan dailyNet (peakValue r) then dailyNet
                  else peakValue r in
      let drawdown := minus rm peak dailyNet in
      {| options := options m;
         activePositions := JsMap.delete transactionId (activePositions m);
         positionHistory := positionHistory m ++ [closed];
         dailyStats :=
           {| totalProfit := if gain then plus rm (totalProfit d) netProfit
                             else totalProfit d;
              totalLoss := if gain then totalLoss d
                           else plus rm (totalLoss d) (abs netProfit);
              netProfit := dailyNet;
              tradesCount := tradesCount d + 1;
              startTime := startTime d |};
         riskMetrics :=
           {| currentExposure :=
                minus rm (currentExposure r) (positionSize position);
              maxExposure := maxExposure r;
              currentDrawdown := currentDrawdown r;
              peakValue := peak;
              sharpeRatio := sharpeRatio r;
              maxDrawdown := if greaterThan drawdown (maxDrawdown r)
                             then drawdown else maxDrawdown r;
              volatility := volatility r |} |}
  end.

(** [resetDailyStats]; [now] is [Date.now()]. *)
Definition resetDailyStats (now : Z) (m : t) : t :=
  {| options := options m;
     activePositions := activePositions m;
     positionHistory := positionHistory m;
     dailyStats := freshDailyStats now;
     riskMetrics := riskMetrics m |}.

(** [checkTradingPause]: the three tests in order, a later one that
    fires overwrites the reason. *)
Definition checkTradingPause (m : t) : PauseStatus :=
  let lossFires :=
    greaterThanOrEqualTo (totalLoss (dailyStats m))
      (ofNumber (Options.maxDailyLoss (options m))) in
  let drawdownFires :=
    greaterThan
      (dividedBy rm (maxDrawdown (riskMetrics m)) (peakValue (riskMetrics m)))
      (ofNumber (Options.maxDrawdown (options m))) in
  let exposureFires :=
    greaterThan (currentExposure (riskMetrics m)) (maxExposure (riskMetrics m)) in
  {| paused := lossFires || drawdownFires || exposureFires;
     reason :=
       if exposureFires then Some PortfolioExposureLimit
       else if drawdownFires then Some MaximumDrawdown
       else if lossFires then Some DailyLossLimit
       else None |}.

(** [getPosition]. *)
Definition getPosition (transactionId : string) (m : t) : option Position :=
  JsMap.get transactionId (activePositions m).

(** [getActivePositions]. *)
Definition getActivePositions (m : t) : list Position :=
  map snd (activePositions m).

(** A call of one of the three methods that change the state. *)
Inductive Call :=
| PositionOpen (now : Z) (o : TradingStrategyEngine.Opportunity)
    (size : Decimal.t) (transactionId : string)
| PositionClose (now : Z) (transactionId : string) (result : CloseResult)
| DailyReset (now : Z).

Definition call (c : Call) (m : t) : t :=
  match c with
  | PositionOpen now o size transactionId =>
      recordPositionOpen now o size transactionId m
  | PositionClose now transactionId result =>
      recordPositionClose now transactionId result m
  | DailyReset now => resetDailyStats now m
  end.

(** The calls of [cs] made in order. *)
Definition calls (cs : list Call) (m : t) : t :=
  fold_left (fun acc c => call c acc) cs m.

(** The amounts handed in by a call are numbers: neither [NaN] nor
    infinite. *)
Definition numeric (c : Call) : bool :=
  match c with
  | PositionOpen _ o size _ =>
      isFinite size && isFinite (TradingStrategyEngine.netProfitUSD o)
  | PositionClose _ _ result =>
      match resultActualProfit result with Some p => isFinite p | None => true end
      && match resultGasCost result with Some g => isFinite g | None => true end
  | DailyReset _ => true
  end.

End WithRounding.

(** The books are in order: the daily totals, the peak and the largest
    drawdown are numbers, none of the totals is negative, and the peak is
    neither negative nor below the day's net profit. *)
Definition booksInOrder (m : t) : Prop :=
  exists totalProfit' totalLoss' netProfit' peakValue' maxDrawdown',
    totalProfit (dailyStats m) = Fin totalProfit' /\
    totalLoss (dailyStats m) = Fin totalLoss' /\
    netProfit (dailyStats m) = Fin netProfit' /\
    peakValue (riskMetrics m) = Fin peakValue' /\
    maxDrawdown (riskMetrics m) = Fin maxDrawdown' /\
    (0 <= totalProfit')%Q /\ (0 <= totalLoss')%Q /\
    (netProfit' <= peakValue')%Q /\ (0 <= peakValue')%Q /\
    (0 <= maxDrawdown')%Q.

(** The size and the expected profit of every active position are
    numbers. *)
Definition positionsNumeric (m : t) : Prop :=
  Forall (fun entry => isFinite (positionSize (snd entry)) = true /\
                       isFinite (expectedProfit (snd entry)) = true)
    (activePositions m).

End RiskManager.

(** ** Web3Manager *)

Module Web3Manager.

Record Provider := {
  url : string;
  name : string;
  weight : Z;
  maxRetries : Z;
  timeout : Z
}.

(** The fields of the manager that [executeWithFailover] reads and writes.
    [providers], [failoverThreshold] and [cooldownPeriod] are set by the
    constructor and never change. *)
Record t := {
  providers : list Provider;
  currentProviderIndex : nat;
  failoverThreshold : Z;
  failureCount : Z;
  lastFailureTime : Z;
  cooldownPeriod : Z
}.

(** [x || d] for an optional number: [undefined] and [0] give the default. *)
Definition orDefault (x : option Z) (d : Z) : Z :=
  match x with
  | Some v => if v =? 0 then d else v
  | None => d
  end.

(** The constructor. *)
Definition new (providers : list Provider)
  (optFailoverThreshold optCooldownPeriod : option Z) : t :=
  {| providers := providers;
     currentProviderIndex := 0;
     failoverThreshold := orDefault optFailoverThreshold 3;
     failureCount := 0;
     lastFailureTime := 0;
     cooldownPeriod := orDefault optCooldownPeriod 60000 |}.

(** [shouldRotateProvider]; [now] is its reading of [Date.now()]. *)
Definition shouldRotateProvider (now : Z) (m : t) : bool :=
  let timeSinceLastFailure := now - lastFailureTime m in
  (failureCount m >=? failoverThreshold m)
  && (timeSinceLastFailure >? cooldownPeriod m).

Definition rotateProvider (m : t) : t :=
  {| providers := providers m;
     currentProviderIndex :=
       (S (currentProviderIndex m) mod List.length (providers m))%nat;
     failoverThreshold := failoverThreshold m;
     failureCount := 0;
     lastFailureTime := lastFailureTime m;
     cooldownPeriod := cooldownPeriod m |}.

Definition recordSuccess (m : t) : t :=
  {| providers := providers m;
     currentProviderIndex := currentProviderIndex m;
     failoverThreshold := failoverThreshold m;
     failureCount := 0;
     lastFailureTime := 0;
     cooldownPeriod := cooldownPeriod m |}.

Definition recordFailure (now : Z) (m : t) : t :=
  {| providers := providers m;
     currentProviderIndex := currentProviderIndex m;
     failoverThreshold := failoverThreshold m;
     failureCount := failureCount m + 1;
     lastFailureTime := now;
     cooldownPeriod := cooldownPeriod m |}.

(** [getCurrentProvider]: [undefined] when the index is out of the array. *)
Definition getCurrentProvider (m : t) : option Provider :=
  nth_error (providers m) (currentProviderIndex m).

Record ProviderStatus := {
  statusName : string;
  statusUrl : string;
  isActive : bool;
  statusWeight : Z
}.

(** The [map] of [getProviderStatus] from index [index] on. *)
Fixpoint statusFrom (index : nat) (current : nat) (ps : list Provider)
  : list ProviderStatus :=
  match ps with
  | [] => []
  | provider :: rest =>
      {| statusName := name provider;
         statusUrl := url provider;
         isActive := (index =? current)%nat;
         statusWeight := weight provider |} :: statusFrom (S index) current rest
  end.

Definition getProviderStatus (m : t) : list ProviderStatus :=
  statusFrom 0 (currentProviderIndex m) (providers m).

(** The ['error'] listener that [subscribeToBlocks] installs on the
    subscription: it counts the failure without touching
    [lastFailureTime]; [now] is the reading of [Date.now()] made by
    [shouldRotateProvider]. *)
Definition onSubscriptionError (now : Z) (m : t) : t :=
  let m1 := {| providers := providers m;
               currentProviderIndex := currentProviderIndex m;
               failoverThreshold := failoverThreshold m;
               failureCount := failureCount m + 1;
               lastFailureTime := lastFailureTime m;
               cooldownPeriod := cooldownPeriod m |} in
  if shouldRotateProvider now m1 then rotateProvider m1 else m1.

(** The listener run once per reading of the clock in [nows]. *)
Definition subscriptionErrors (nows : list Z) (m : t) : t :=
  fold_left (fun acc now => onSubscriptionError now acc) nows m.

Section Execute.

Context {R : Type}.

(** What the awaited race of the operation and the timeout timer gives at
    attempt number [attempt] against provider number [provider]: a result,
    or [None] for a rejection or a timeout. *)
Variable operation : nat -> nat -> option R.

(** The successive readings of [Date.now()]. *)
Variable clock : nat -> Z.

(** The [for] loop of [executeWithFailover], [remaining] attempts to go;
    [reads] counts the readings of the clock made so far.  [None] is the
    final [throw]. *)
Fixpoint attempts (remaining attempt : nat) (m : t) (reads : nat)
  : option R * t * nat :=
  match remaining with
  | O => (None, m, reads)
  | S remaining' =>
      match operation attempt (currentProviderIndex m) with
      | Some result => (Some result, recordSuccess m, reads)
      | None =>
          let m1 := recordFailure (clock reads) m in
          let m2 := if shouldRotateProvider (clock (S reads)) m1
                    then rotateProvider m1 else m1 in
          attempts remaining' (S attempt) m2 (S (S reads))
      end
  end.

(** [executeWithFailover(operation, { maxAttempts })]. *)
Definition executeWithFailover (optMaxAttempts : option nat) (m : t)
  (reads : nat) : option R * t * nat :=
  let maxAttempts :=
    match optMaxAttempts with
    | Some (S n) => S n
    | _ => List.length (providers m)
    end in
  attempts maxAttempts 0%nat m reads.

(** [healthCheck]: one attempt on the current provider, every error
    turned into [false]. *)
Definition healthCheck (m : t) (reads : nat) : bool * t * nat :=
  match executeWithFailover (Some 1%nat) m reads with
  | (Some _, m', reads') => (true, m', reads')
  | (None, m', reads') => (false, m', reads')
  end.

End Execute.

(** A pool of two endpoints with the default threshold (3 failures) and
    cooldown (60 s); the first endpoint is down, the second one answers;
    the clock advances by one second between two readings. *)
Definition twoProviders : t :=
  new [ {| url := "https://rpc-a.example"; name := "A"; weight := 1;
           maxRetries := 3; timeout := 30000 |};
        {| url := "https://rpc-b.example"; name := "B"; weight := 1;
           maxRetries := 3; timeout := 30000 |} ]%string
      None None.

Definition firstProviderDown (attempt provider : nat) : option unit :=
  if (provider =? 0)%nat then None else Some tt.

Definition everySecond (k : nat) : Z := 1700000000000 + 1000 * Z.of_nat k.

End Web3Manager.

(** ** DatabaseService *)

Module DatabaseService.

(** The JavaScript object handed to [storeOpportunity]; a field is [None]
    when the property is missing.  Numeric text is kept as the decimal it
    denotes. *)
Record Opportunity := {
  id : option string;
  type : option string;
  pair : option string;
  buyDex : option string;
  sellDex : option string;
  buyPrice : option Decimal.t;
  sellPrice : option Decimal.t;
  priceDifference : option Decimal.t;
  priceDifferencePercent : option Decimal.t;
  tradeAmount : option Decimal.t;
  grossProfitUSD : option Decimal.t;
  gasCostUSD : option Decimal.t;
  swapFeesUSD : option Decimal.t;
  netProfitUSD : option Decimal.t;
  profitWithSafetyMargin : option Decimal.t;
  path : option string;
  dex1 : option string;
  dex2 : option string;
  buyPairAddress : option string;
  sellPairAddress : option string;
  blockNumber : option string;
  timestamp : option Z
}.

(** A row of the [opportunities] table: the columns of the INSERT in their
    order ([None] is NULL) and [created_at], which defaults to the time of
    the insertion. *)
Record Row := {
  row : Opportunity;
  created_at : Z
}.

Record t := {
  isInitialized : bool;
  opportunities : list Row
}.

(** [s || null] and [s || d] for a string: the empty string is falsy. *)
Definition orNull (s : option string) : option string :=
  match s with
  | Some EmptyString => None
  | _ => s
  end.

Definition orString (s : option string) (d : string) : option string :=
  match orNull s with
  | None => Some d
  | v => v
  end.

(** [x || d] for an optional value that is never falsy when present. *)
Definition orValue {A} (x : option A) (d : A) : option A :=
  match x with
  | None => Some d
  | v => v
  end.

(** The parameter array of the INSERT. *)
Definition params (o : Opportunity) : Opportunity :=
  {| id := id o;
     type := orString (type o) "direct";
     pair := pair o;
     buyDex := orNull (buyDex o);
     sellDex := orNull (sellDex o);
     buyPrice := buyPrice o;
     sellPrice := sellPrice o;
     priceDifference := priceDifference o;
     priceDifferencePercent := priceDifferencePercent o;
     tradeAmount := tradeAmount o;
     grossProfitUSD := grossProfitUSD o;
     gasCostUSD := gasCostUSD o;
     swapFeesUSD := orValue (swapFeesUSD o) (Decimal.ofZ 0);
     netProfitUSD := netProfitUSD o;
     profitWithSafetyMargin := profitWithSafetyMargin o;
     path := orNull (path o);
     dex1 := orNull (dex1 o);
     dex2 := orNull (dex2 o);
     buyPairAddress := orNull (buyPairAddress o);
     sellPairAddress := orNull (sellPairAddress o);
     blockNumber := orNull (blockNumber o);
     timestamp := timestamp o |}.

Definition isSome {A} (x : option A) : bool :=
  match x with Some _ => true | None => false end.

(** The NOT NULL columns: [type], [pair] and [timestamp]. *)
Definition notNullOk (r : Opportunity) : bool :=
  isSome (type r) && isSome (pair r) && isSome (timestamp r).

Definition sameId (i : option string) (r : Row) : bool :=
  match i, id (row r) with
  | Some a, Some b => String.eqb a b
  | _, _ => false
  end.

(** [INSERT OR REPLACE INTO opportunities]: a NULL in a NOT NULL column
    without default aborts the statement ([None]); otherwise the rows that
    hold the same primary key are deleted and the new row is appended.  A
    NULL key conflicts with nothing. *)
Definition insertOrReplace (now : Z) (r : Opportunity) (table : list Row)
  : option (list Row) :=
  if notNullOk r
  then Some (filter (fun old => negb (sameId (id r) old)) table
               ++ [{| row := r; created_at := now |}])
  else None.

(** [storeOpportunity]: every error is caught and logged, the table is then
    unchanged.  [now] is the database's CURRENT_TIMESTAMP. *)
Definition storeOpportunity (now : Z) (o : Opportunity) (db : t) : t :=
  if isInitialized db then
    match insertOrReplace now (params o) (opportunities db) with
    | Some table => {| isInitialized := true; opportunities := table |}
    | None => db
    end
  else db.

(** Number of rows whose key is [i]. *)
Definition countId (i : string) (table : list Row) : nat :=
  List.length (filter (sameId (Some i)) table).

(** The primary-key constraint: no two rows hold the same non-NULL key. *)
Definition uniqueIds (table : list Row) : Prop :=
  forall i, (countId i table <= 1)%nat.

(** [storeOpportunity] called once per element of [calls], in order; each
    call comes with the database's clock reading. *)
Definition storeAll (calls : list (Z * Opportunity)) (db : t) : t :=
  fold_left (fun d c => storeOpportunity (fst c) (snd c) d) calls db.

(** The calls that the table accepts: the NOT NULL columns are filled. *)
Definition storable (o : Opportunity) : bool := notNullOk (params o).

(** The database after [initialize()], with no row yet. *)
Definition empty : t := {| isInitialized := true; opportunities := [] |}.

(** A direct opportunity as the API tests store it. *)
Definition sampleOpportunity (netProfit : Z) (stamp : Z) : Opportunity :=
  {| id := Some "test-opp-1"%string;
     type := Some "direct"%string;
     pair := Some "WETH/USDC"%string;
     buyDex := Some "uniswap"%string;
     sellDex := Some "sushiswap"%string;
     buyPrice := Some (Decimal.ofZ 2000);
     sellPrice := Some (Decimal.ofZ 2010);
     priceDifference := Some (Decimal.ofZ 10);
     priceDifferencePercent := Some (Decimal.lit 5 1);
     tradeAmount := Some (Decimal.ofZ 1000);
     grossProfitUSD := Some (Decimal.ofZ (netProfit + 66));
     gasCostUSD := Some (Decimal.ofZ 60);
     swapFeesUSD := Some (Decimal.ofZ 6);
     netProfitUSD := Some (Decimal.ofZ netProfit);
     profitWithSafetyMargin := Some (Decimal.ofZ netProfit);
     path := None; dex1 := None; dex2 := None;
     buyPairAddress := None; sellPairAddress := None;
     blockNumber := Some "latest"%string;
     timestamp := Some stamp |}.

(** *** Queries *)

(** [x || d] for an optional argument. *)
Definition argOr {A} (x : option A) (d : A) : A :=
  match x with Some v => v | None => d end.

(** The value of the [timestamp] column; NULL sorts below every integer. *)
Definition timestampOf (r : Row) : option Z := timestamp (row r).

Definition notAfter (a b : option Z) : bool :=
  match a, b with
  | None, _ => true
  | Some _, None => false
  | Some x, Some y => x <=? y
  end.

(** [ORDER BY timestamp DESC]: [r] is placed before the first row that is
    not newer than it.  Rows with equal timestamps are left in the order
    of the table, which SQL does not promise. *)
Fixpoint insertDesc (r : Row) (sorted : list Row) : list Row :=
  match sorted with
  | [] => [r]
  | s :: rest =>
      if notAfter (timestampOf s) (timestampOf r) then r :: s :: rest
      else s :: insertDesc r rest
  end.

Definition orderByTimestampDesc (rows : list Row) : list Row :=
  fold_right insertDesc [] rows.

(** [LIMIT ?]: a negative limit is no limit. *)
Definition limitRows (limit : Z) (rows : list Row) : list Row :=
  if limit <? 0 then rows else firstn (Z.to_nat limit) rows.

(** [WHERE type = ?]. *)
Definition hasType (kind : string) (r : Row) : bool :=
  match type (row r) with
  | Some k => String.eqb k kind
  | None => false
  end.

(** [WHERE timestamp BETWEEN ? AND ?]: both ends included. *)
Definition inTimeRange (startTime endTime : Z) (r : Row) : bool :=
  match timestampOf r with
  | Some ts => (startTime <=? ts) && (ts <=? endTime)
  | None => false
  end.

(** [type !== 'all'] chooses the query with the [WHERE type = ?] clause. *)
Definition ofType (kind : string) (rows : list Row) : list Row :=
  if String.eqb kind "all" then rows else filter (hasType kind) rows.

(** [getRecentOpportunities(limit = 50, type = 'all')]; every error,
    among them "Database not initialized", gives the empty array. *)
Definition getRecentOpportunities (limit : option Z) (kind : option string)
  (db : t) : list Row :=
  if isInitialized db
  then limitRows (argOr limit 50)
         (orderByTimestampDesc (ofType (argOr kind "all"%string) (opportunities db)))
  else [].

(** [getOpportunitiesByTimeRange(startTime, endTime, type = 'all')]. *)
Definition getOpportunitiesByTimeRange (startTime endTime : Z)
  (kind : option string) (db : t) : list Row :=
  if isInitialized db
  then orderByTimestampDesc
         (filter (inTimeRange startTime endTime)
            (ofType (argOr kind "all"%string) (opportunities db)))
  else [].

(** [getOpportunityById]: [WHERE id = ? LIMIT 1], [null] when there is no
    such row or the database is not initialised. *)
Definition getOpportunityById (i : string) (db : t) : option Row :=
  if isInitialized db then find (sameId (Some i)) (opportunities db) else None.

(** [cleanOldData(daysToKeep = 30)] on the [opportunities] table:
    [DELETE ... WHERE timestamp < cutoffTime]; [now] is [Date.now()]. *)
Definition cutoffTime (now : Z) (daysToKeep : option Z) : Z :=
  now - argOr daysToKeep 30 * 24 * 60 * 60 * 1000.

Definition isOld (cutoff : Z) (r : Row) : bool :=
  match timestampOf r with
  | Some ts => ts <? cutoff
  | None => false
  end.

Definition cleanOldData (now : Z) (daysToKeep : option Z) (db : t) : t :=
  if isInitialized db
  then {| isInitialized := true;
          opportunities :=
            filter (fun r => negb (isOld (cutoffTime now daysToKeep) r))
              (opportunities db) |}
  else db.

(** [close()]: the connection is closed, the file keeps its rows. *)
Definition close (db : t) : t :=
  {| isInitialized := false; opportunities := opportunities db |}.

End DatabaseService.

(** ** ComprehensiveArbitrageBot *)

Module ComprehensiveArbitrageBot.

Import Decimal.

Record TriangularPair := {
  name : string;
  tokens : string * string * string
}.

Record Config := {
  supportedDEXs : list string;
  triangularPairs : list TriangularPair;
  minProfitUSD : Q;
  safetyMargin : Q;
  gasEstimate : Z;
  ethPriceUSD : Z;
  testMode : bool;
  enableRealPriceFetching : bool
}.

Definition WETH : string := "0xC02aaA39b223FE8D0A0e5C4F27eAD9083C756Cc2".
Definition USDC : string := "0xA0b86991c6218b36c1d19d4a2e9eb0ce3606eb48".
Definition USDT : string := "0xdAC17F958D2ee523a2206206994597C13D831ec7".
Definition WBTC : string := "0x2260FAC5E5542a773Aa44fBCfeDf7C193bc2C599".

(** [this.config] as the constructor sets it. *)
Definition defaultConfig : Config :=
  {| supportedDEXs := ["uniswap"; "sushiswap"]%string;
     triangularPairs :=
       [ {| name := "WETH/USDC/USDT"; tokens := (WETH, USDC, USDT) |};
         {| name := "WETH/WBTC/USDC"; tokens := (WETH, WBTC, USDC) |} ];
     minProfitUSD := 10;
     safetyMargin := 1 # 10;
     gasEstimate := 300000;
     ethPriceUSD := 2000;
     testMode := true;
     enableRealPriceFetching := true |}.

Record Stats := {
  opportunitiesFound : Z;
  triangularOpportunities : Z;
  directOpportunities : Z;
  totalProfit : Decimal.t;
  scansCompleted : Z
}.

(** What [dexPriceService.getPrice] resolves to; only [price0] is read
    here. *)
Record PriceData := {
  dexName : string;
  price0 : Decimal.t;
  price1 : Decimal.t
}.

(** [prices[dexName]]: the properties AB, BC and AC. *)
Record DexPrices := {
  AB : option PriceData;
  BC : option PriceData;
  AC : option PriceData
}.

(** The bot's mutable world during a scan: the database, the statistics
    and the number of readings of [Date.now()] made so far. *)
Record World := {
  database : DatabaseService.t;
  stats : Stats;
  reads : nat
}.

Definition orElse {A} (x y : option A) : option A :=
  match x with Some _ => x | None => y end.

(** [prices[dexName][key] = value], creating [prices[dexName]] on first
    use; the order of the keys is the order of creation. *)
Fixpoint setPrices (dexName : string) (found : DexPrices)
  (prices : list (string * DexPrices)) : list (string * DexPrices) :=
  match prices with
  | [] => [(dexName, found)]
  | (d, p) :: rest =>
      if String.eqb d dexName
      then (d, {| AB := orElse (AB found) (AB p);
                  BC := orElse (BC found) (BC p);
                  AC := orElse (AC found) (AC p) |}) :: rest
      else (d, p) :: setPrices dexName found rest
  end.

Section WithEnvironment.

Variable rm : Rounding.
Variable config : Config.

(** The successive readings of [Date.now()]. *)
Variable clock : nat -> Z.

(** [dexPriceService.getPrice(tokenX, tokenY, dexName)]; [None] when it
    resolves to nothing or rejects. *)
Variable getPrice : string -> string -> string -> option PriceData.

Definition calculateGasCost (gasPrice : Decimal.t) : Decimal.t :=
  let gasUsed := ofZ (gasEstimate config) in
  let gasCostWei := times rm gasUsed gasPrice in
  let ethPrice := ofZ (ethPriceUSD config) in
  times rm (dividedBy rm gasCostWei (ofZ (10 ^ 18))) ethPrice.

Definition calculateTriangularSwapFees (amountA amountB amountC : Decimal.t)
  : Decimal.t :=
  let feeRate := lit 3 3 in
  let fee1 := times rm amountA feeRate in
  let fee2 := times rm amountB feeRate in
  let fee3 := times rm amountC feeRate in
  plus rm (plus rm fee1 fee2) fee3.

(** [calculateTriangularArbitrage]; [nowId] and [nowStamp] are its two
    readings of [Date.now()], made only when an object is returned.  The
    factor [1 - safetyMargin] is JavaScript number arithmetic and is taken
    exactly. *)
Definition calculateTriangularArbitrage (triangularPair : TriangularPair)
  (dex1 dex2 : string) (prices1 prices2 : DexPrices) (gasPrice : Decimal.t)
  (nowId nowStamp : Z) : option DatabaseService.Opportunity :=
  let '(tokenA, tokenB, tokenC) := tokens triangularPair in
  match AB prices1, BC prices1, AC prices2 with
  | Some pAB, Some pBC, Some pAC =>
      let tradeAmount := ofZ 1000 in
      let amountB := dividedBy rm tradeAmount (price0 pAB) in
      let amountC := dividedBy rm amountB (price0 pBC) in
      let finalAmountA := times rm amountC (price0 pAC) in
      let grossProfit := minus rm finalAmountA tradeAmount in
      let gasCostUSD := calculateGasCost gasPrice in
      let swapFees := calculateTriangularSwapFees tradeAmount amountB amountC in
      let totalCosts := plus rm gasCostUSD swapFees in
      let netProfit := minus rm grossProfit totalCosts in
      let profitWithSafetyMargin :=
        times rm netProfit (ofNumber (1 - safetyMargin config)) in
      if lessThan profitWithSafetyMargin (ofNumber (minProfitUSD config))
      then None
      else Some
        {| DatabaseService.id :=
             Some ("triangular-" ++ name triangularPair ++ "-" ++ dex1 ++ "-"
                     ++ dex2 ++ "-" ++ string_of_Z nowId)%string;
           DatabaseService.type := Some "triangular"%string;
           DatabaseService.pair := Some (name triangularPair);
           DatabaseService.path :=
             Some (tokenA ++ " -> " ++ tokenB ++ " -> " ++ tokenC ++ " -> "
                     ++ tokenA)%string;
           DatabaseService.buyDex := Some dex1;
           DatabaseService.sellDex := Some dex2;
           DatabaseService.buyPrice := Some (price0 pAB);
           DatabaseService.sellPrice := Some (price0 pAC);
           DatabaseService.priceDifference := Some grossProfit;
           DatabaseService.priceDifferencePercent :=
             Some (times rm (dividedBy rm grossProfit tradeAmount) (ofZ 100));
           DatabaseService.dex1 := Some dex1;
           DatabaseService.dex2 := Some dex2;
           DatabaseService.tradeAmount := Some tradeAmount;
           DatabaseService.grossProfitUSD := Some grossProfit;
           DatabaseService.gasCostUSD := Some gasCostUSD;
           DatabaseService.swapFeesUSD := Some swapFees;
           DatabaseService.netProfitUSD := Some netProfit;
           DatabaseService.profitWithSafetyMargin := Some profitWithSafetyMargin;
           DatabaseService.buyPairAddress :=
             Some "0x0000000000000000000000000000000000000000"%string;
           DatabaseService.sellPairAddress :=
             Some "0x0000000000000000000000000000000000000000"%string;
           DatabaseService.blockNumber := Some "latest"%string;
           DatabaseService.timestamp := Some nowStamp |}
  | _, _, _ => None
  end.

(** The first loop of [detectTriangularArbitrage]: the prices of the three
    pairs on every supported DEX. *)
Fixpoint fetchPrices (tokenA tokenB tokenC : string) (dexes : list string)
  (prices : list (string * DexPrices)) : list (string * DexPrices) :=
  match dexes with
  | [] => prices
  | dexName :: rest =>
      let found := {| AB := getPrice tokenA tokenB dexName;
                      BC := getPrice tokenB tokenC dexName;
                      AC := getPrice tokenA tokenC dexName |} in
      let prices' :=
        match AB found, BC found, AC found with
        | None, None, None => prices
        | _, _, _ => setPrices dexName found prices
        end in
      fetchPrices tokenA tokenB tokenC rest prices'
  end.

(** The inner loop over [j > i] for a fixed first DEX. *)
Fixpoint pairWithLater (triangularPair : TriangularPair) (gasPrice : Decimal.t)
  (first : string * DexPrices) (later : list (string * DexPrices))
  (reads : nat) : list DatabaseService.Opportunity * nat :=
  match later with
  | [] => ([], reads)
  | second :: rest =>
      match calculateTriangularArbitrage triangularPair (fst first) (fst second)
              (snd first) (snd second) gasPrice
              (clock reads) (clock (S reads)) with
      | Some opportunity =>
          let '(more, reads') :=
            pairWithLater triangularPair gasPrice first rest (S (S reads)) in
          (opportunity :: more, reads')
      | None => pairWithLater triangularPair gasPrice first rest reads
      end
  end.

(** The loop over [i]. *)
Fixpoint allPairs (triangularPair : TriangularPair) (gasPrice : Decimal.t)
  (prices : list (string * DexPrices)) (reads : nat)
  : list DatabaseService.Opportunity * nat :=
  match prices with
  | [] => ([], reads)
  | first :: later =>
      let '(here, reads1) :=
        pairWithLater triangularPair gasPrice first later reads in
      let '(there, reads2) := allPairs triangularPair gasPrice later reads1 in
      (here ++ there, reads2)
  end.

Definition detectTriangularArbitrage (triangularPair : TriangularPair)
  (gasPrice : Decimal.t) (reads : nat)
  : list DatabaseService.Opportunity * nat :=
  let '(tokenA, tokenB, tokenC) := tokens triangularPair in
  let prices := fetchPrices tokenA tokenB tokenC (supportedDEXs config) [] in
  if (2 <=? List.length prices)%nat
  then allPairs triangularPair gasPrice prices reads
  else ([], reads).

Definition testOpportunity (kind pair buyDex sellDex : string)
  (buyPrice sellPrice priceDifference priceDifferencePercent grossProfit
   gasCost swapFees netProfit profitWithSafetyMargin : Decimal.t)
  (idText : string) (nowStamp : Z) : DatabaseService.Opportunity :=
  {| DatabaseService.id := Some idText;
     DatabaseService.type := Some kind;
     DatabaseService.pair := Some pair;
     DatabaseService.buyDex := Some buyDex;
     DatabaseService.sellDex := Some sellDex;
     DatabaseService.buyPrice := Some buyPrice;
     DatabaseService.sellPrice := Some sellPrice;
     DatabaseService.priceDifference := Some priceDifference;
     DatabaseService.priceDifferencePercent := Some priceDifferencePercent;
     DatabaseService.tradeAmount := Some (ofZ 1000);
     DatabaseService.grossProfitUSD := Some grossProfit;
     DatabaseService.gasCostUSD := Some gasCost;
     DatabaseService.swapFeesUSD := Some swapFees;
     DatabaseService.netProfitUSD := Some netProfit;
     DatabaseService.profitWithSafetyMargin := Some profitWithSafetyMargin;
     DatabaseService.path := None;
     DatabaseService.dex1 := None;
     DatabaseService.dex2 := None;
     DatabaseService.buyPairAddress := None;
     DatabaseService.sellPairAddress := None;
     DatabaseService.blockNumber := None;
     DatabaseService.timestamp := Some nowStamp |}.

(** [generateTestOpportunities]: three direct opportunities, whose figures
    are JavaScript number arithmetic printed with [toFixed], and one
    triangular opportunity written out in the source.  It reads the clock
    eight times. *)
Definition generateTestOpportunities (reads : nat)
  : list DatabaseService.Opportunity * nat :=
  let direct (index : Z) (pair buyDex sellDex : string)
        (buyPrice sellPrice priceDifference percent gross net safe : Decimal.t)
        (r : nat) :=
    testOpportunity "direct" pair buyDex sellDex buyPrice sellPrice
      priceDifference percent gross (ofZ 60) (ofZ 6) net safe
      ("test-direct-" ++ string_of_Z (clock r) ++ "-" ++ string_of_Z index)%string
      (clock (S r)) in
  let triangular :=
    {| DatabaseService.id :=
         Some ("test-triangular-" ++ string_of_Z (clock (6 + reads)%nat))%string;
       DatabaseService.type := Some "triangular"%string;
       DatabaseService.pair := Some "WETH/USDC/USDT"%string;
       DatabaseService.path := Some "WETH -> USDC -> USDT -> WETH"%string;
       DatabaseService.buyDex := Some "uniswap"%string;
       DatabaseService.sellDex := Some "sushiswap"%string;
       DatabaseService.buyPrice := Some (lit 200000 2);
       DatabaseService.sellPrice := Some (lit 201250 2);
       DatabaseService.priceDifference := Some (lit 1250 2);
       DatabaseService.priceDifferencePercent := Some (lit 625 3);
       DatabaseService.dex1 := Some "uniswap"%string;
       DatabaseService.dex2 := Some "sushiswap"%string;
       DatabaseService.tradeAmount := Some (ofZ 1000);
       DatabaseService.grossProfitUSD := Some (lit 1250 2);
       DatabaseService.gasCostUSD := Some (lit 6000 2);
       DatabaseService.swapFeesUSD := Some (lit 900 2);
       DatabaseService.netProfitUSD := Some (lit (-5650) 2);
       DatabaseService.profitWithSafetyMargin := Some (lit (-5650) 2);
       DatabaseService.buyPairAddress :=
         Some "0x0000000000000000000000000000000000000000"%string;
       DatabaseService.sellPairAddress :=
         Some "0x0000000000000000000000000000000000000000"%string;
       DatabaseService.blockNumber := Some "latest"%string;
       DatabaseService.timestamp := Some (clock (7 + reads)%nat) |} in
  ([ direct 0 "WETH/USDC" "uniswap" "sushiswap" (ofZ 2000) (ofZ 2010)
       (ofZ 10) (lit 5 1) (ofZ 5) (ofZ (-61)) (lit (-549) 1) reads;
     direct 1 "WETH/USDT" "sushiswap" "uniswap" (ofZ 2100) (lit 21126 1)
       (lit 126 1) (lit 6 1) (ofZ 6) (ofZ (-60)) (ofZ (-54)) (2 + reads)%nat;
     direct 2 "WBTC/WETH" "uniswap" "sushiswap" (ofZ 2200) (lit 22154 1)
       (lit 154 1) (lit 7 1) (ofZ 7) (ofZ (-59)) (lit (-531) 1) (4 + reads)%nat;
     triangular ]%string,
   (8 + reads)%nat).

Definition withTypeAndTimestamp (o : DatabaseService.Opportunity)
  (kind : option string) (now : Z) : DatabaseService.Opportunity :=
  {| DatabaseService.id := DatabaseService.id o;
     DatabaseService.type := orElse kind (DatabaseService.type o);
     DatabaseService.pair := DatabaseService.pair o;
     DatabaseService.buyDex := DatabaseService.buyDex o;
     DatabaseService.sellDex := DatabaseService.sellDex o;
     DatabaseService.buyPrice := DatabaseService.buyPrice o;
     DatabaseService.sellPrice := DatabaseService.sellPrice o;
     DatabaseService.priceDifference := DatabaseService.priceDifference o;
     DatabaseService.priceDifferencePercent :=
       DatabaseService.priceDifferencePercent o;
     DatabaseService.tradeAmount := DatabaseService.tradeAmount o;
     DatabaseService.grossProfitUSD := DatabaseService.grossProfitUSD o;
     DatabaseService.gasCostUSD := DatabaseService.gasCostUSD o;
     DatabaseService.swapFeesUSD := DatabaseService.swapFeesUSD o;
     DatabaseService.netProfitUSD := DatabaseService.netProfitUSD o;
     DatabaseService.profitWithSafetyMargin :=
       DatabaseService.profitWithSafetyMargin o;
     DatabaseService.path := DatabaseService.path o;
     DatabaseService.dex1 := DatabaseService.dex1 o;
     DatabaseService.dex2 := DatabaseService.dex2 o;
     DatabaseService.buyPairAddress := DatabaseService.buyPairAddress o;
     DatabaseService.sellPairAddress := DatabaseService.sellPairAddress o;
     DatabaseService.blockNumber := DatabaseService.blockNumber o;
     DatabaseService.timestamp := Some now |}.

Definition plusOpt (total : Decimal.t) (x : option Decimal.t) : Decimal.t :=
  match x with
  | Some v => plus rm total v
  | None => NaN
  end.

(** The body of both [for (const opportunity of ...)] loops of
    [scanTriangularArbitrage]: count, store with [{...opportunity, type,
    timestamp: Date.now()}]; the log and the simulated execution change
    nothing.  The database takes its CURRENT_TIMESTAMP from the same
    clock without advancing it. *)
Definition record (kind : option string) (o : DatabaseService.Opportunity)
  (w : World) : World :=
  let s := stats w in
  let now := clock (reads w) in
  {| database :=
       DatabaseService.storeOpportunity now (withTypeAndTimestamp o kind now)
         (database w);
     stats :=
       {| opportunitiesFound := opportunitiesFound s + 1;
          triangularOpportunities := triangularOpportunities s + 1;
          directOpportunities := directOpportunities s;
          totalProfit := plusOpt (totalProfit s) (DatabaseService.netProfitUSD o);
          scansCompleted := scansCompleted s |};
     reads := S (reads w) |}.

Definition isTriangular (o : DatabaseService.Opportunity) : bool :=
  match DatabaseService.type o with
  | Some k => String.eqb k "triangular"
  | None => false
  end.

(** The loop over [this.config.triangularPairs]; the count is
    [realOpportunitiesFound]. *)
Fixpoint scanPairs (pairs : list TriangularPair) (gasPrice : Decimal.t)
  (found : nat) (w : World) : nat * World :=
  match pairs with
  | [] => (found, w)
  | triangularPair :: rest =>
      let '(opportunities, reads') :=
        detectTriangularArbitrage triangularPair gasPrice (reads w) in
      let w1 := {| database := database w; stats := stats w; reads := reads' |} in
      let w2 := fold_left (fun acc o => record (Some "triangular"%string) o acc)
                  opportunities w1 in
      scanPairs rest gasPrice (found + List.length opportunities)%nat w2
  end.

Definition scanTriangularArbitrage (gasPrice : Decimal.t) (w : World) : World :=
  let '(realOpportunitiesFound, w1) :=
    scanPairs (triangularPairs config) gasPrice 0%nat w in
  if (negb (enableRealPriceFetching config) || (realOpportunitiesFound =? 0)%nat)
     && testMode config
     && (scansCompleted (stats w1) mod 15 =? 0)
  then
    let '(testOpportunities, reads') := generateTestOpportunities (reads w1) in
    let w2 := {| database := database w1; stats := stats w1; reads := reads' |} in
    fold_left (fun acc o => record None o acc)
      (filter isTriangular testOpportunities) w2
  else w1.

End WithEnvironment.

(** The world before the first scan: an initialised, empty database and
    fresh statistics. *)
Definition initialWorld : World :=
  {| database := DatabaseService.empty;
     stats := {| opportunitiesFound := 0; triangularOpportunities := 0;
                 directOpportunities := 0; totalProfit := ofZ 0;
                 scansCompleted := 0 |};
     reads := 0 |}.

(** What the scan expects of a detected opportunity: it is triangular,
    runs over two different supported DEXs, and its profit after the
    safety margin is not below the minimum. *)
Definition profitableAcrossDexes (config : Config)
  (o : DatabaseService.Opportunity) : Prop :=
  exists dex1 dex2 withMargin,
    DatabaseService.buyDex o = Some dex1 /\
    DatabaseService.sellDex o = Some dex2 /\
    dex1 <> dex2 /\
    In dex1 (supportedDEXs config) /\ In dex2 (supportedDEXs config) /\
    DatabaseService.type o = Some "triangular"%string /\
    DatabaseService.profitWithSafetyMargin o = Some withMargin /\
    lessThan withMargin (ofNumber (minProfitUSD config)) = false.

(** A stored opportunity that went through the profit filter: its profit
    after the safety margin is recorded and is not below the minimum. *)
Definition passedProfitFilter (config : Config)
  (o : DatabaseService.Opportunity) : Prop :=
  exists withMargin,
    DatabaseService.profitWithSafetyMargin o = Some withMargin /\
    lessThan withMargin (ofNumber (minProfitUSD config)) = false.

(** A scan during which no price can be fetched. *)
Definition noPrice (tokenX tokenY dexName : string) : option PriceData := None.

(** A market in which every pair trades at 1 on every DEX but at 2 on
    sushiswap, and the constructor's settings with the test mode off. *)
Definition dearerOnSushiswap (tokenX tokenY dexName : string)
  : option PriceData :=
  Some {| dexName := dexName;
          price0 := ofZ (if String.eqb dexName "sushiswap" then 2 else 1);
          price1 := ofZ 1 |}.

Definition liveConfig : Config :=
  {| supportedDEXs := supportedDEXs defaultConfig;
     triangularPairs := triangularPairs defaultConfig;
     minProfitUSD := minProfitUSD defaultConfig;
     safetyMargin := safetyMargin defaultConfig;
     gasEstimate := gasEstimate defaultConfig;
     ethPriceUSD := ethPriceUSD defaultConfig;
     testMode := false;
     enableRealPriceFetching := enableRealPriceFetching defaultConfig |}.

(** A clock that advances by one millisecond per reading. *)
Definition everyMillisecond (k : nat) : Z := 1700000000000 + Z.of_nat k.

(** The rows of the table that are triangular opportunities. *)
Definition triangularRows (w : World) : list DatabaseService.Opportunity :=
  filter isTriangular
    (map DatabaseService.row (DatabaseService.opportunities (database w))).

End ComprehensiveArbitrageBot.

(** ** The formulas of the specification (AmmMath)

    These follow the words of the specification, over exact integers, and
    are what the code is compared with. *)

Module AmmMath.

(** [aOut = floor((aIn * feeNum * rOut) / (rIn * feeDen + aIn * feeNum))]. *)
Definition getAmountOut (aIn rIn rOut : Z) : Z :=
  (aIn * 997 * rOut) / (rIn * 1000 + aIn * 997).

(** [aIn = floor((rIn * aOut * feeDen) / ((rOut - aOut) * feeNum)) + 1]. *)
Definition getAmountIn (aOut rIn rOut : Z) : Z :=
  (rIn * aOut * 1000) / ((rOut - aOut) * 997) + 1.

(** [profit(aIn) = legOut_B - aIn - gasQuote]. *)
Definition profit (rInA rOutA rInB rOutB gasQuote aIn : Z) : Z :=
  getAmountOut (getAmountOut aIn rInA rOutA) rInB rOutB - aIn - gasQuote.


(** [margin = net_profit / max(1, gas_cost + fee_cost)]. *)
Definition margin (netProfit gasCost feeCost : Q) : Q :=
  (netProfit / Qmax 1 (gasCost + feeCost))%Q.

(** The ceiling of [n / d], which the code uses where the specification
    takes the floor. *)
Definition ceilDiv (n d : Z) : Z := - (- n / d).

End AmmMath.

(** * Properties of the embedding *)

(** ** decimal.js: rounding to 20 significant digits *)

Module DecimalFacts.

Import Decimal.

(** *** Powers of ten and decimal exponents *)

Lemma pow10_pos (k : Z) : 0 <= k -> 0 < 10 ^ k.
Proof. intros; apply Z.pow_pos_nonneg; lia. Qed.

Lemma pow10_succ (k : Z) : 0 <= k -> 10 ^ (k + 1) = 10 * 10 ^ k.
Proof. intros; rewrite Z.pow_add_r by lia; lia. Qed.

Lemma log10_fuel_spec (fuel : nat) :
  forall n, 0 < n -> n < 2 ^ Z.of_nat fuel ->
  0 <= log10_fuel fuel n /\
  10 ^ log10_fuel fuel n <= n < 10 ^ (log10_fuel fuel n + 1).
Proof.
  induction fuel as [|f IH]; intros n Hpos Hlt.
  - simpl in Hlt. lia.
  - cbn [log10_fuel]. destruct (Z.ltb_spec n 10) as [Hs|Hs].
    + simpl. lia.
    + assert (Hq : 0 < n / 10) by (apply Z.div_str_pos; lia).
      assert (Hb : n / 10 < 2 ^ Z.of_nat f).
      { apply Z.div_lt_upper_bound; [lia|].
        rewrite Nat2Z.inj_succ, Z.pow_succ_r in Hlt by lia. lia. }
      destruct (IH _ Hq Hb) as (H0 & Hlo & Hhi).
      set (e := log10_fuel f (n / 10)) in *.
      split; [lia|].
      rewrite (Z.add_comm 1 e), !pow10_succ by lia.
      rewrite pow10_succ in Hhi by lia.
      pose proof (Z.mul_div_le n 10 ltac:(lia)).
      pose proof (Z.mod_pos_bound n 10 ltac:(lia)).
      pose proof (Z.div_mod n 10 ltac:(lia)).
      lia.
Qed.

(** [log10 n] is the number of digits of [n], less one. *)
Lemma log10_spec (n : Z) : 0 < n ->
  0 <= log10 n /\ 10 ^ log10 n <= n < 10 ^ (log10 n + 1).
Proof.
  intros Hn. unfold log10. apply log10_fuel_spec; [assumption|].
  rewrite Nat2Z.inj_succ, Z2Nat.id by apply Z.log2_nonneg.
  apply Z.log2_spec; assumption.
Qed.

(** [exponent a d] is the decimal exponent of [a / d]. *)
Lemma exponent_spec (a d : Z) : 0 < a -> 0 < d -> exponent_ok a d (exponent a d).
Proof.
  intros Ha Hd. unfold exponent, exponent_ok.
  destruct (log10_spec a Ha) as (Hla & Ha1 & Ha2).
  destruct (log10_spec d Hd) as (Hld & Hd1 & Hd2).
  set (la := log10 a) in *. set (ld := log10 d) in *.
  rewrite pow10_succ in Ha2, Hd2 by lia.
  pose proof (pow10_pos la Hla) as Hx. pose proof (pow10_pos ld Hld) as Hy.
  destruct (Z.leb_spec 0 (la - ld)) as [He0|He0].
  - assert (HX : 10 ^ la = 10 ^ (la - ld) * 10 ^ ld)
      by (rewrite <- Z.pow_add_r by lia; f_equal; lia).
    pose proof (pow10_pos (la - ld) He0) as Ht.
    destruct (Z.leb_spec (10 ^ (la - ld) * d) a) as [Hc|Hc].
    + split; [intros _|lia]. split; [assumption|].
      rewrite pow10_succ by lia. nia.
    + split.
      * intros He. split.
        -- assert (HT : 10 ^ (la - ld) = 10 * 10 ^ (la - ld - 1))
             by (rewrite <- pow10_succ by lia; f_equal; lia).
           pose proof (pow10_pos (la - ld - 1) He). nia.
        -- replace (la - ld - 1 + 1) with (la - ld) by lia. assumption.
      * intros He. assert (E : la - ld = 0) by lia.
        rewrite E in *. replace (- (0 - 1)) with 1 by lia.
        replace (1 - 1) with 0 by lia. change (10 ^ 0) with 1 in *.
        change (10 ^ 1) with 10. nia.
  - assert (HY : 10 ^ ld = 10 ^ (- (la - ld)) * 10 ^ la)
      by (rewrite <- Z.pow_add_r by lia; f_equal; lia).
    pose proof (pow10_pos (- (la - ld)) ltac:(lia)) as Ht.
    destruct (Z.leb_spec d (a * 10 ^ (- (la - ld)))) as [Hc|Hc].
    + split; [lia|intros _]. split; [assumption|].
      assert (HT : 10 ^ (- (la - ld)) = 10 * 10 ^ (- (la - ld) - 1))
        by (rewrite <- pow10_succ by lia; f_equal; lia).
      pose proof (pow10_pos (- (la - ld) - 1) ltac:(lia)). nia.
    + split; [lia|intros _]. split.
      * replace (- (la - ld - 1)) with (- (la - ld) + 1) by lia.
        rewrite pow10_succ by lia. nia.
      * replace (- (la - ld - 1) - 1) with (- (la - ld)) by lia. lia.
Qed.

(** *** Values that the rounding leaves alone *)

Lemma Qred_int (z : Z) : Qred (z # 1) = z # 1.
Proof.
  unfold Qred. pose proof (Z.ggcd_gcd z 1) as Hg.
  pose proof (Z.ggcd_correct_divisors z 1) as Hd.
  destruct (Z.ggcd z 1) as (g, (aa, bb)). cbn [fst snd] in *.
  rewrite Z.gcd_1_r in Hg. subst g. destruct Hd as [H1 H2].
  assert (Hb : bb = 1) by lia. assert (Ha : aa = z) by lia.
  rewrite Ha, Hb. reflexivity.
Qed.

Lemma round_div_exact rm (x d : Z) : 0 < d -> round_div rm (x * d) d = x.
Proof.
  intros Hd. destruct rm; cbn [round_div].
  - apply Z.div_mul; lia.
  - symmetry. apply (Z.div_unique_pos _ _ x d); [lia|ring].
Qed.

Lemma round_div_lower rm (x d : Z) : 0 <= x -> 0 < d -> x / d <= round_div rm x d.
Proof.
  intros Hx Hd. destruct rm; cbn [round_div]; [lia|].
  apply Z.div_le_lower_bound; [lia|].
  pose proof (Z.mul_div_le x d Hd). nia.
Qed.

Lemma round_div_upper rm (x d : Z) :
  0 <= x -> 0 < d -> round_div rm x d <= (2 * x + d) / (2 * d).
Proof.
  intros Hx Hd. destruct rm; cbn [round_div]; [|lia].
  apply Z.div_le_lower_bound; [lia|].
  pose proof (Z.mul_div_le x d Hd). nia.
Qed.

Lemma scale_nonneg (r k : Z) : 0 <= k -> scale r k = r # Z.to_pos (10 ^ k).
Proof. intros Hk. unfold scale. destruct (Z.leb_spec 0 k); [reflexivity|lia]. Qed.

(** A rational that is a decimal with at most [precision] significant
    digits is not changed by the rounding. *)
Lemma round_sd_exact rm (q : Q) (j z : Z) :
  0 <= j -> Z.abs (Qnum q) * 10 ^ j = z * Zpos (Qden q) -> z < 10 ^ precision ->
  round_sd rm q = Qred q.
Proof.
  intros Hj Hz Hlt. unfold round_sd.
  destruct q as [n d]. cbn [Qnum Qden] in *.
  destruct (Z.eqb_spec n 0) as [->|Hn].
  - change 0%Q with (Qred 0). apply Qred_complete. reflexivity.
  - set (a := Z.abs n) in *. assert (Ha : 0 < a) by (unfold a; lia).
    pose proof (exponent_spec a (Zpos d) Ha ltac:(lia)) as [Hpos Hneg].
    set (e := exponent a (Zpos d)) in *.
    pose proof (pow10_pos j Hj) as Hpj.
    assert (Hk : j <= precision - 1 - e).
    { destruct (Z.lt_ge_cases (precision - 1 - e) j) as [Hc|Hc]; [exfalso|lia].
      destruct (Z.lt_ge_cases e 0) as [He|He].
      - destruct (Hneg He) as [H1 _].
        assert (E : 10 ^ j = 10 ^ (- e) * 10 ^ (j + e))
          by (rewrite <- Z.pow_add_r by (unfold precision in *; lia); f_equal; lia).
        assert (10 ^ precision <= 10 ^ (j + e))
          by (apply Z.pow_le_mono_r; unfold precision in *; lia).
        pose proof (pow10_pos (- e) ltac:(lia)).
        assert (Zpos d * 10 ^ (j + e) <= z * Zpos d) by nia.
        nia.
      - destruct (Hpos He) as [H1 _].
        assert (10 ^ precision <= 10 ^ (e + j))
          by (apply Z.pow_le_mono_r; unfold precision in *; lia).
        rewrite Z.pow_add_r in * by lia.
        pose proof (pow10_pos e He).
        assert (10 ^ e * Zpos d * 10 ^ j <= z * Zpos d) by nia.
        nia. }
    set (k := precision - 1 - e) in *.
    destruct (Z.leb_spec 0 k) as [Hk0|Hk0]; [|lia].
    assert (E : a * 10 ^ k = z * 10 ^ (k - j) * Zpos d).
    { replace k with (j + (k - j)) at 1 by lia.
      rewrite Z.pow_add_r by lia. nia. }
    rewrite E, round_div_exact by lia.
    apply Qred_complete. rewrite scale_nonneg by lia.
    unfold Qeq. cbn [Qnum Qden].
    rewrite Z2Pos.id by (apply pow10_pos; lia).
    assert (Hs : Z.sgn n * a = n) by (unfold a; lia).
    rewrite <- Hs at 2. nia.
Qed.

Lemma round_sd_int rm (z : Z) :
  Z.abs z < 10 ^ precision -> round_sd rm (z # 1) = z # 1.
Proof.
  intros Hz. rewrite (round_sd_exact rm (z # 1) 0 (Z.abs z)); cbn [Qnum Qden];
    try lia.
  apply Qred_int.
Qed.

(** The rounding of a positive quotient [n / d] below [10^precision]:
    it keeps [k >= 0] decimals, and the scaled quotient has reached
    [10^(precision-1)]. *)
Lemma round_sd_pos rm (n d : Z) :
  0 < n -> 0 < d -> n < 10 ^ precision ->
  exists k, 0 <= k /\
    round_sd rm (n # Z.to_pos d)
      = Qred (round_div rm (n * 10 ^ k) d # Z.to_pos (10 ^ k)) /\
    d * 10 ^ (precision - 1) <= n * 10 ^ k.
Proof.
  intros Hn Hd Hlt. unfold round_sd. cbn [Qnum Qden].
  rewrite Z2Pos.id by lia.
  destruct (Z.eqb_spec n 0) as [->|_]; [lia|].
  rewrite (Z.abs_eq n), (Z.sgn_pos n) by lia.
  pose proof (exponent_spec n d Hn Hd) as [Hpos Hneg].
  set (e := exponent n d) in *.
  assert (He : e < precision).
  { destruct (Z.lt_ge_cases e 0) as [H0|H0]; [unfold precision; lia|].
    destruct (Hpos H0) as [H1 _]. pose proof (pow10_pos e H0).
    apply (Z.pow_lt_mono_r_iff 10); [lia|unfold precision; lia|]. nia. }
  exists (precision - 1 - e). split; [lia|].
  destruct (Z.leb_spec 0 (precision - 1 - e)) as [_|Hc]; [|lia].
  rewrite scale_nonneg, Z.mul_1_l by lia. split; [reflexivity|].
  destruct (Z.lt_ge_cases e 0) as [H0|H0].
  - destruct (Hneg H0) as [H1 _].
    replace (precision - 1 - e) with (- e + (precision - 1)) by lia.
    rewrite Z.pow_add_r by (unfold precision; lia).
    pose proof (pow10_pos (precision - 1) ltac:(unfold precision; lia)). nia.
  - destruct (Hpos H0) as [H1 _].
    replace (precision - 1) with (e + (precision - 1 - e)) at 1 by lia.
    rewrite Z.pow_add_r by lia.
    pose proof (pow10_pos (precision - 1 - e) ltac:(lia)). nia.
Qed.

Lemma Qfloor_round_sd rm (n d : Z) :
  0 < n -> 0 < d -> n < 2 * 10 ^ (precision - 1) ->
  Qfloor (round_sd rm (n # Z.to_pos d)) = n / d.
Proof.
  intros Hn Hd Hlt.
  assert (Hp : n < 10 ^ precision).
  { replace precision with (precision - 1 + 1) at 1 by lia.
    rewrite pow10_succ by (unfold precision; lia). lia. }
  destruct (round_sd_pos rm n d Hn Hd Hp) as (k & Hk & -> & Hs).
  rewrite Qred_correct. cbn [Qfloor].
  pose proof (pow10_pos k Hk) as Hpk.
  pose proof (pow10_pos (precision - 1) ltac:(unfold precision; lia)) as Hpp.
  rewrite Z2Pos.id by lia.
  assert (Hd2 : d < 2 * 10 ^ k) by nia.
  pose proof (Z.div_mod n d ltac:(lia)) as Hdm.
  pose proof (Z.mod_pos_bound n d Hd) as Hm.
  set (f := n / d) in *.
  pose proof (round_div_lower rm (n * 10 ^ k) d ltac:(nia) Hd) as Hlo.
  pose proof (round_div_upper rm (n * 10 ^ k) d ltac:(nia) Hd) as Hhi.
  assert (L : f * 10 ^ k <= n * 10 ^ k / d)
    by (apply Z.div_le_lower_bound; nia).
  assert (U : (2 * (n * 10 ^ k) + d) / (2 * d) < (f + 1) * 10 ^ k)
    by (apply Z.div_lt_upper_bound; nia).
  symmetry. apply (Z.div_unique_pos _ _ f (round_div rm (n * 10 ^ k) d - f * 10 ^ k));
    lia.
Qed.

Lemma Qceiling_round_sd rm (n d : Z) :
  0 < n -> 0 < d -> n < 10 ^ (precision - 1) ->
  Qceiling (round_sd rm (n # Z.to_pos d)) = - (- n / d).
Proof.
  intros Hn Hd Hlt.
  assert (Hp : n < 10 ^ precision).
  { replace precision with (precision - 1 + 1) at 1 by lia.
    rewrite pow10_succ by (unfold precision; lia). lia. }
  destruct (round_sd_pos rm n d Hn Hd Hp) as (k & Hk & -> & Hs).
  rewrite Qred_correct. unfold Qceiling. cbn [Qopp Qnum Qden Qfloor].
  pose proof (pow10_pos k Hk) as Hpk.
  pose proof (pow10_pos (precision - 1) ltac:(unfold precision; lia)) as Hpp.
  rewrite Z2Pos.id by lia. f_equal.
  assert (Hd2 : d < 10 ^ k) by nia.
  pose proof (Z.div_mod (- n) d ltac:(lia)) as Hdm.
  pose proof (Z.mod_pos_bound (- n) d Hd) as Hm.
  set (g := - n / d) in *.
  pose proof (round_div_lower rm (n * 10 ^ k) d ltac:(nia) Hd) as Hlo.
  pose proof (round_div_upper rm (n * 10 ^ k) d ltac:(nia) Hd) as Hhi.
  assert (L : - (g + 1) * 10 ^ k + 1 <= n * 10 ^ k / d)
    by (apply Z.div_le_lower_bound; nia).
  assert (U : (2 * (n * 10 ^ k) + d) / (2 * d) < - g * 10 ^ k + 1)
    by (apply Z.div_lt_upper_bound; nia).
  symmetry.
  apply (Z.div_unique_pos _ _ g (- round_div rm (n * 10 ^ k) d - g * 10 ^ k));
    lia.
Qed.

(** *** Decimal operations on integers within the working precision *)

Lemma cmp_ofZ (a b : Z) : cmp (ofZ a) (ofZ b) = Some (a ?= b).
Proof.
  unfold cmp, ofZ, Qcompare. cbn [Qnum Qden]. rewrite !Z.mul_1_r. reflexivity.
Qed.

Lemma lessThanOrEqualTo_ofZ (a b : Z) :
  lessThanOrEqualTo (ofZ a) (ofZ b) = (a <=? b).
Proof.
  unfold lessThanOrEqualTo. rewrite cmp_ofZ. unfold Z.leb.
  destruct (a ?= b); reflexivity.
Qed.

Lemma lessThan_ofZ (a b : Z) : lessThan (ofZ a) (ofZ b) = (a <? b).
Proof.
  unfold lessThan. rewrite cmp_ofZ. unfold Z.ltb.
  destruct (a ?= b); reflexivity.
Qed.

Lemma greaterThan_ofZ (a b : Z) : greaterThan (ofZ a) (ofZ b) = (b <? a).
Proof.
  unfold greaterThan. rewrite cmp_ofZ. unfold Z.ltb.
  rewrite (Z.compare_antisym a b). destruct (a ?= b); reflexivity.
Qed.

Lemma greaterThanOrEqualTo_ofZ (a b : Z) :
  greaterThanOrEqualTo (ofZ a) (ofZ b) = (b <=? a).
Proof.
  unfold greaterThanOrEqualTo. rewrite cmp_ofZ. unfold Z.leb.
  rewrite (Z.compare_antisym a b). destruct (a ?= b); reflexivity.
Qed.

Lemma times_ofZ rm (a b : Z) :
  Z.abs (a * b) < 10 ^ precision -> times rm (ofZ a) (ofZ b) = ofZ (a * b).
Proof.
  intros H. unfold times, ofZ, finalise, Qmult. cbn [Qnum Qden].
  change (1 * 1)%positive with 1%positive. rewrite round_sd_int by assumption.
  reflexivity.
Qed.

Lemma plus_ofZ rm (a b : Z) :
  Z.abs (a + b) < 10 ^ precision -> plus rm (ofZ a) (ofZ b) = ofZ (a + b).
Proof.
  intros H. unfold plus, ofZ, finalise, Qplus. cbn [Qnum Qden].
  change (1 * 1)%positive with 1%positive. rewrite !Z.mul_1_r.
  rewrite round_sd_int by assumption. reflexivity.
Qed.

Lemma neg_ofZ (a : Z) : neg (ofZ a) = ofZ (- a).
Proof. unfold neg, ofZ, Qopp. cbn [Qnum Qden]. rewrite Qred_int. reflexivity. Qed.

Lemma minus_ofZ rm (a b : Z) :
  Z.abs (a - b) < 10 ^ precision -> minus rm (ofZ a) (ofZ b) = ofZ (a - b).
Proof.
  intros H. unfold minus. rewrite neg_ofZ, plus_ofZ; [reflexivity|].
  replace (a + - b) with (a - b) by lia. assumption.
Qed.

Lemma Qdiv_ofZ (n d : Z) : 0 < d -> ((n # 1) / (d # 1))%Q = n # Z.to_pos d.
Proof.
  intros Hd. destruct d as [|p|p]; try lia.
  unfold Qdiv, Qinv, Qmult. cbn [Qnum Qden]. rewrite Z.mul_1_r.
  change (1 * p)%positive with p. reflexivity.
Qed.

Lemma dividedBy_ofZ rm (n d : Z) :
  0 < d -> dividedBy rm (ofZ n) (ofZ d) = Fin (round_sd rm (n # Z.to_pos d)).
Proof.
  intros Hd. unfold dividedBy, ofZ, isZero, finalise. cbn [Qnum].
  destruct (Z.eqb_spec d 0); [lia|]. rewrite Qdiv_ofZ by assumption.
  reflexivity.
Qed.

Lemma floor_dividedBy_ofZ rm (n d : Z) :
  0 < n -> 0 < d -> n < 2 * 10 ^ (precision - 1) ->
  floor (dividedBy rm (ofZ n) (ofZ d)) = ofZ (n / d).
Proof.
  intros Hn Hd Hlt. rewrite dividedBy_ofZ by assumption. unfold floor, ofZ.
  rewrite Qfloor_round_sd by assumption. reflexivity.
Qed.

Lemma ceil_dividedBy_ofZ rm (n d : Z) :
  0 < n -> 0 < d -> n < 10 ^ (precision - 1) ->
  ceil (dividedBy rm (ofZ n) (ofZ d)) = ofZ (- (- n / d)).
Proof.
  intros Hn Hd Hlt. rewrite dividedBy_ofZ by assumption. unfold ceil, ofZ.
  rewrite Qceiling_round_sd by assumption. reflexivity.
Qed.

(** *** The order on decimals *)

Lemma Qcompare_Gt_trans (a b c : Q) :
  (a ?= b)%Q = Gt -> (b ?= c)%Q = Gt -> (a ?= c)%Q = Gt.
Proof.
  rewrite <- !Qgt_alt. intros H1 H2. eapply Qlt_trans; eassumption.
Qed.

Lemma Qcompare_not_Gt_Gt (p a b : Q) :
  (p ?= b)%Q <> Gt -> (a ?= b)%Q = Gt -> (p ?= a)%Q = Lt.
Proof.
  intros H1 H2. rewrite <- Qgt_alt in H2. rewrite <- Qlt_alt.
  eapply Qle_lt_trans; [|eassumption].
  apply Qnot_lt_le. intros H. apply H1. rewrite <- Qgt_alt. assumption.
Qed.

Lemma greaterThan_irrefl (x : t) : greaterThan x x = false.
Proof.
  destruct x as [q|[]|]; cbn; try reflexivity.
  assert (E : (q ?= q)%Q = Eq) by (rewrite <- Qeq_alt; reflexivity).
  rewrite E. reflexivity.
Qed.

Lemma greaterThan_trans (a b c : t) :
  greaterThan a b = true -> greaterThan b c = true -> greaterThan a c = true.
Proof.
  unfold greaterThan.
  destruct a as [a|[]|], b as [b|[]|], c as [c|[]|]; cbn;
    try discriminate; try reflexivity.
  destruct (a ?= b)%Q eqn:E1; try discriminate.
  destruct (b ?= c)%Q eqn:E2; try discriminate.
  rewrite (Qcompare_Gt_trans a b c E1 E2). reflexivity.
Qed.

Lemma greaterThan_below (p a b : t) :
  greaterThan p b = false -> greaterThan a b = true ->
  greaterThanOrEqualTo p a = false.
Proof.
  unfold greaterThan, greaterThanOrEqualTo.
  destruct a as [a|[]|], b as [b|[]|], p as [p|[]|]; cbn;
    try discriminate; try reflexivity.
  intros H1 H2.
  destruct (a ?= b)%Q eqn:E2; try discriminate.
  assert (E1 : (p ?= b)%Q <> Gt) by (intros E; rewrite E in H1; discriminate).
  rewrite (Qcompare_not_Gt_Gt p a b E1 E2). reflexivity.
Qed.

Lemma greaterThanOrEqualTo_false_greaterThan (p a : t) :
  greaterThanOrEqualTo p a = false -> greaterThan p a = false.
Proof.
  unfold greaterThan, greaterThanOrEqualTo.
  destruct (cmp p a) as [[]|]; congruence.
Qed.

Lemma greaterThan_greaterThanOrEqualTo (a b : t) :
  greaterThan a b = true -> greaterThanOrEqualTo a b = true.
Proof.
  unfold greaterThan, greaterThanOrEqualTo.
  destruct (cmp a b) as [[]|]; congruence.
Qed.

(** *** The rounding error *)

Lemma round_div_within (rm : Rounding) (x d : Z) :
  0 <= x -> 0 < d -> Z.abs (round_div rm x d * d - x) <= d /\ 0 <= round_div rm x d.
Proof.
  intros Hx Hd.
  pose proof (round_div_lower rm x d Hx Hd) as Hlo.
  pose proof (round_div_upper rm x d Hx Hd) as Hhi.
  pose proof (Z.div_mod x d ltac:(lia)) as E1.
  pose proof (Z.mod_pos_bound x d Hd) as B1.
  pose proof (Z.div_mod (2 * x + d) (2 * d) ltac:(lia)) as E2.
  pose proof (Z.mod_pos_bound (2 * x + d) (2 * d) ltac:(lia)) as B2.
  assert (0 <= x / d) by (apply Z.div_pos; lia).
  split; [|lia]. nia.
Qed.

(** The result of a rounding differs from the exact value by at most
    [10^(1 - precision)] of it. *)
Lemma round_sd_error rm (q : Q) :
  (Qabs (round_sd rm q - q) <= Qabs q * (1 # Z.to_pos (10 ^ (precision - 1))))%Q.
Proof.
  unfold round_sd. destruct q as [n d]. cbn [Qnum Qden].
  destruct (Z.eqb_spec n 0) as [->|Hn].
  { unfold Qle, Qabs, Qminus, Qplus, Qopp, Qmult; cbn. lia. }
  assert (Hs : exists a, 0 < a /\ Z.abs n = a /\
                 (Z.sgn n = 1 /\ n = a \/ Z.sgn n = -1 /\ n = - a))
    by (exists (Z.abs n); lia).
  destruct Hs as (a & Ha & -> & Hs).
  pose proof (exponent_spec a (Zpos d) Ha ltac:(lia)) as [Hpos Hneg].
  set (e := exponent a (Zpos d)) in *.
  set (k := precision - 1 - e).
  set (r := if 0 <=? k then round_div rm (a * 10 ^ k) (Zpos d)
            else round_div rm a (Zpos d * 10 ^ (- k))).
  rewrite Qred_correct.
  pose proof (pow10_pos (precision - 1) ltac:(unfold precision; lia)) as Hpp.
  unfold scale. destruct (Z.leb_spec 0 k) as [Hk|Hk].
  - pose proof (pow10_pos k Hk) as Hpk.
    pose proof (round_div_within rm (a * 10 ^ k) (Zpos d) ltac:(nia) ltac:(lia))
      as [Hr Hr0].
    fold r in Hr, Hr0.
    assert (Hb : Zpos d * 10 ^ (precision - 1) <= a * 10 ^ k).
    { destruct (Z.lt_ge_cases e 0) as [H0|H0].
      - destruct (Hneg H0) as [H1 _].
        replace k with (- e + (precision - 1)) by (unfold k; lia).
        rewrite Z.pow_add_r by (unfold precision; lia). nia.
      - destruct (Hpos H0) as [H1 _].
        replace (precision - 1) with (e + k) by (unfold k; lia).
        rewrite Z.pow_add_r by lia. nia. }
    unfold Qle, Qabs, Qminus, Qplus, Qopp, Qmult. cbn [Qnum Qden].
    rewrite !Pos2Z.inj_mul, !Z2Pos.id by lia.
    destruct Hs as [[-> ->]|[-> ->]].
    + rewrite Z.mul_1_l. rewrite (Z.abs_eq a) by lia.
      replace (r * Zpos d + - a * 10 ^ k) with (r * Zpos d - a * 10 ^ k) by lia.
      nia.
    + rewrite (Z.abs_neq (- a)) by lia.
      replace (-1 * r * Zpos d + - - a * 10 ^ k)
        with (- (r * Zpos d - a * 10 ^ k)) by lia.
      rewrite Z.abs_opp. nia.
  - assert (He : 0 <= e) by (unfold k, precision in *; lia).
    destruct (Hpos He) as [H1 _].
    pose proof (pow10_pos (- k) ltac:(lia)) as Hpk.
    pose proof (round_div_within rm a (Zpos d * 10 ^ (- k)) ltac:(lia) ltac:(nia))
      as [Hr Hr0].
    fold r in Hr, Hr0.
    assert (Hb : Zpos d * 10 ^ (- k) * 10 ^ (precision - 1) <= a).
    { replace e with (- k + (precision - 1)) in H1 by (unfold k; lia).
      rewrite Z.pow_add_r in H1 by (unfold precision; lia). nia. }
    unfold Qle, Qabs, Qminus, Qplus, Qopp, Qmult. cbn [Qnum Qden].
    rewrite !Pos2Z.inj_mul, !Z2Pos.id by lia. rewrite !Z.mul_1_r.
    change (Zpos (1 * d)) with (Zpos d).
    destruct Hs as [[-> ->]|[-> ->]].
    + rewrite Z.mul_1_l. rewrite (Z.abs_eq a) by lia.
      replace (r * 10 ^ (- k) * Zpos d + - a)
        with (r * (Zpos d * 10 ^ (- k)) - a) by lia.
      nia.
    + rewrite (Z.abs_neq (- a)) by lia.
      replace (-1 * r * 10 ^ (- k) * Zpos d + - - a)
        with (- (r * (Zpos d * 10 ^ (- k)) - a)) by lia.
      rewrite Z.abs_opp. nia.
Qed.

End DecimalFacts.

(** ** UniswapV2Math: what the code computes *)

Module UniswapV2MathFacts.

Import Decimal DecimalFacts UniswapV2Math.

Lemma pow10_19 : 10 ^ (precision - 1) = 10000000000000000000.
Proof. reflexivity. Qed.

Lemma pow10_20 : 10 ^ precision = 100000000000000000000.
Proof. reflexivity. Qed.

(** Within the working precision [getAmountOut] is the exact formula. *)
Lemma getAmountOut_exact rm (aIn rIn rOut : Z) :
  0 < aIn -> 0 < rIn -> 0 < rOut ->
  aIn * 997 * rOut < 2 * 10 ^ 19 -> rIn * 1000 + aIn * 997 < 10 ^ 20 ->
  getAmountOut rm (ofZ aIn) (ofZ rIn) (ofZ rOut)
    = Ok (ofZ (AmmMath.getAmountOut aIn rIn rOut)).
Proof.
  intros Ha Hi Ho Hn Hd. unfold getAmountOut, AmmMath.getAmountOut.
  rewrite !lessThanOrEqualTo_ofZ.
  destruct (Z.leb_spec aIn 0); [lia|]. destruct (Z.leb_spec rIn 0); [lia|].
  destruct (Z.leb_spec rOut 0); [lia|].
  unfold FEE_NUMERATOR, FEE_DENOMINATOR.
  change (10 ^ 19) with 10000000000000000000 in Hn.
  change (10 ^ 20) with 100000000000000000000 in Hd.
  rewrite (times_ofZ rm aIn 997) by (rewrite pow10_20; nia).
  rewrite (times_ofZ rm (aIn * 997) rOut) by (rewrite pow10_20; nia).
  rewrite (times_ofZ rm rIn 1000) by (rewrite pow10_20; nia).
  rewrite plus_ofZ by (rewrite pow10_20; nia).
  rewrite floor_dividedBy_ofZ by (rewrite ?pow10_19; nia).
  reflexivity.
Qed.

(** The formula stays below the output reserve. *)
Lemma getAmountOut_formula_bounds (aIn rIn rOut : Z) :
  0 < aIn -> 0 < rIn -> 0 < rOut ->
  0 <= AmmMath.getAmountOut aIn rIn rOut < rOut.
Proof.
  intros Ha Hi Ho. unfold AmmMath.getAmountOut. split.
  - apply Z.div_pos; nia.
  - apply Z.div_lt_upper_bound; nia.
Qed.

(** A non-positive argument makes [getAmountOut] throw an invalid-input
    error, whatever the size of the numbers. *)
Lemma getAmountOut_invalid rm (aIn rIn rOut : Z) :
  aIn <= 0 \/ rIn <= 0 \/ rOut <= 0 ->
  exists e, getAmountOut rm (ofZ aIn) (ofZ rIn) (ofZ rOut) = Throw e /\
            is_invalid_input e = true.
Proof.
  intros H. unfold getAmountOut. rewrite !lessThanOrEqualTo_ofZ.
  destruct (Z.leb_spec aIn 0); [eexists; split; reflexivity|].
  destruct (Z.leb_spec rIn 0); [eexists; split; reflexivity|].
  destruct (Z.leb_spec rOut 0); [eexists; split; reflexivity|lia].
Qed.

(** C2 (as stated) fails: for one unit out of a 1000/1000 pool the code
    asks for 3 units, where the specification's formula gives 2; the code
    rounds the quotient up before adding 1. *)
Lemma getAmountIn_is_not_floor_plus_one :
  AmmMath.getAmountIn 1 1000 1000 = 2 /\
  getAmountIn ROUND_HALF_UP (ofZ 1) (ofZ 1000) (ofZ 1000) = Ok (ofZ 3) /\
  getAmountIn ROUND_DOWN (ofZ 1) (ofZ 1000) (ofZ 1000) = Ok (ofZ 3) /\
  getAmountIn ROUND_HALF_UP (ofZ 1) (ofZ 1000) (ofZ 1000)
    <> Ok (ofZ (AmmMath.getAmountIn 1 1000 1000)).
Proof.
  repeat split; try (vm_compute; reflexivity).
  vm_compute. discriminate.
Qed.

(** Within the working precision [getAmountIn] is exact, with the
    quotient rounded up. *)
Lemma getAmountIn_exact rm (aOut rIn rOut : Z) :
  0 < aOut < rOut -> 0 < rIn ->
  rIn * aOut * 1000 < 10 ^ 19 -> (rOut - aOut) * 997 < 10 ^ 20 ->
  getAmountIn rm (ofZ aOut) (ofZ rIn) (ofZ rOut)
    = Ok (ofZ (AmmMath.ceilDiv (rIn * aOut * 1000) ((rOut - aOut) * 997) + 1)).
Proof.
  unfold getAmountIn. rewrite !lessThanOrEqualTo_ofZ, greaterThanOrEqualTo_ofZ.
  intros [Ha Hlt] Hi Hn Hd.
  change (10 ^ 19) with 10000000000000000000 in Hn.
  change (10 ^ 20) with 100000000000000000000 in Hd.
  destruct (Z.leb_spec aOut 0); [lia|]. destruct (Z.leb_spec rIn 0); [lia|].
  destruct (Z.leb_spec rOut 0); [lia|]. destruct (Z.leb_spec rOut aOut); [lia|].
  cbn [orb]. unfold FEE_NUMERATOR, FEE_DENOMINATOR.
  rewrite (times_ofZ rm rIn aOut) by (rewrite pow10_20; nia).
  rewrite (times_ofZ rm (rIn * aOut) 1000) by (rewrite pow10_20; nia).
  rewrite minus_ofZ by (rewrite pow10_20; nia).
  rewrite (times_ofZ rm (rOut - aOut) 997) by (rewrite pow10_20; nia).
  rewrite ceil_dividedBy_ofZ by (rewrite ?pow10_19; nia).
  fold (AmmMath.ceilDiv (rIn * aOut * 1000) ((rOut - aOut) * 997)).
  assert (Hc : 0 <= AmmMath.ceilDiv (rIn * aOut * 1000) ((rOut - aOut) * 997)
               <= rIn * aOut * 1000).
  { unfold AmmMath.ceilDiv.
    assert (Hdp : 0 < (rOut - aOut) * 997) by nia.
    pose proof (Z.div_mod (- (rIn * aOut * 1000)) ((rOut - aOut) * 997)
                  ltac:(lia)) as Hdm.
    pose proof (Z.mod_pos_bound (- (rIn * aOut * 1000)) _ Hdp) as Hm.
    set (g := - (rIn * aOut * 1000) / ((rOut - aOut) * 997)) in *.
    nia. }
  rewrite plus_ofZ by (rewrite pow10_20; lia). reflexivity.
Qed.

(** C2, amended: within the working precision of the decimal arithmetic,
    [getAmountIn] returns ceil(rIn*aOut*1000 / ((rOut-aOut)*997)) + 1; it
    throws the invalid-input error when an argument is not positive and the
    insufficient-liquidity error when [amountOut >= reserveOut]. *)
Theorem getAmountIn_ceil_plus_one rm (aOut rIn rOut : Z) :
  (0 < aOut < rOut -> 0 < rIn ->
   rIn * aOut * 1000 < 10 ^ 19 -> (rOut - aOut) * 997 < 10 ^ 20 ->
   getAmountIn rm (ofZ aOut) (ofZ rIn) (ofZ rOut)
     = Ok (ofZ (AmmMath.ceilDiv (rIn * aOut * 1000) ((rOut - aOut) * 997) + 1)))
  /\ (aOut <= 0 \/ rIn <= 0 \/ rOut <= 0 ->
      getAmountIn rm (ofZ aOut) (ofZ rIn) (ofZ rOut) = Throw InvalidInput)
  /\ (0 < aOut -> 0 < rIn -> 0 < rOut -> rOut <= aOut ->
      getAmountIn rm (ofZ aOut) (ofZ rIn) (ofZ rOut) = Throw InsufficientLiquidity).
Proof.
  split; [apply getAmountIn_exact|].
  unfold getAmountIn. rewrite !lessThanOrEqualTo_ofZ, greaterThanOrEqualTo_ofZ.
  split.
  - intros H.
    destruct (Z.leb_spec aOut 0); [reflexivity|].
    destruct (Z.leb_spec rIn 0); [reflexivity|].
    destruct (Z.leb_spec rOut 0); [reflexivity|lia].
  - intros Ha Hi Ho Hge.
    destruct (Z.leb_spec aOut 0); [lia|]. destruct (Z.leb_spec rIn 0); [lia|].
    destruct (Z.leb_spec rOut 0); [lia|]. destruct (Z.leb_spec rOut aOut); [|lia].
    reflexivity.
Qed.

Lemma getAmountIn_ceil_plus_one_witness :
  getAmountIn ROUND_HALF_UP (ofZ 1000) (ofZ 10000) (ofZ 10000) = Ok (ofZ 1116)
  /\ getAmountIn ROUND_HALF_UP (ofZ 0) (ofZ 10000) (ofZ 10000) = Throw InvalidInput
  /\ getAmountIn ROUND_HALF_UP (ofZ 10000) (ofZ 10000) (ofZ 10000)
       = Throw InsufficientLiquidity.
Proof.
  pose proof (getAmountIn_ceil_plus_one ROUND_HALF_UP 1000 10000 10000) as [H _].
  pose proof (getAmountIn_ceil_plus_one ROUND_HALF_UP 0 10000 10000) as [_ [H0 _]].
  pose proof (getAmountIn_ceil_plus_one ROUND_HALF_UP 10000 10000 10000) as [_ [_ H1]].
  split; [|split].
  - apply H; [lia | lia | vm_compute; reflexivity | vm_compute; reflexivity].
  - apply H0. left. lia.
  - apply H1; lia.
Defined.

(** C1: swapping 500 tokens of 18 decimals into a 1000/1000 pool, the code
    returns 332665999332665999330 where the formula gives
    332665999332665999332: the products and the quotient keep 20
    significant digits only.  With a tiny input reserve the result is not
    even below [reserveOut]. *)
Theorem getAmountOut_keeps_20_digits :
  AmmMath.getAmountOut (500 * 10 ^ 18) (1000 * 10 ^ 18) (1000 * 10 ^ 18)
    = 332665999332665999332 /\
  getAmountOut ROUND_HALF_UP (ofZ (500 * 10 ^ 18)) (ofZ (1000 * 10 ^ 18))
    (ofZ (1000 * 10 ^ 18)) = Ok (ofZ 332665999332665999330) /\
  getAmountOut ROUND_DOWN (ofZ (500 * 10 ^ 18)) (ofZ (1000 * 10 ^ 18))
    (ofZ (1000 * 10 ^ 18)) = Ok (ofZ 332665999332665999330) /\
  AmmMath.getAmountOut (10 ^ 21) 1 5 = 4 /\
  getAmountOut ROUND_HALF_UP (ofZ (10 ^ 21)) (ofZ 1) (ofZ 5) = Ok (ofZ 5) /\
  getAmountOut ROUND_DOWN (ofZ (10 ^ 21)) (ofZ 1) (ofZ 5) = Ok (ofZ 5).
Proof. repeat split; vm_compute; reflexivity. Qed.

(** C3: asking for 333.000000000000000001 tokens out of a 1000/1000 pool,
    the input computed by [getAmountIn] buys only 332.99999999999999999
    (ROUND_HALF_UP) or exactly 333 (ROUND_DOWN) tokens, less than asked. *)
Theorem round_trip_falls_short :
  getAmountIn ROUND_HALF_UP (ofZ (333 * 10 ^ 18 + 1)) (ofZ (1000 * 10 ^ 18))
    (ofZ (1000 * 10 ^ 18)) = Ok (ofZ 500752632710725880790) /\
  getAmountOut ROUND_HALF_UP (ofZ 500752632710725880790) (ofZ (1000 * 10 ^ 18))
    (ofZ (1000 * 10 ^ 18)) = Ok (ofZ 332999999999999999990) /\
  greaterThanOrEqualTo (ofZ 332999999999999999990) (ofZ (333 * 10 ^ 18 + 1))
    = false /\
  getAmountIn ROUND_DOWN (ofZ (333 * 10 ^ 18 + 1)) (ofZ (1000 * 10 ^ 18))
    (ofZ (1000 * 10 ^ 18)) = Ok (ofZ 500752632710725880790) /\
  getAmountOut ROUND_DOWN (ofZ 500752632710725880790) (ofZ (1000 * 10 ^ 18))
    (ofZ (1000 * 10 ^ 18)) = Ok (ofZ 333000000000000000000) /\
  greaterThanOrEqualTo (ofZ 333000000000000000000) (ofZ (333 * 10 ^ 18 + 1))
    = false.
Proof. repeat split; vm_compute; reflexivity. Qed.

(** Within the working precision the round trip does hold. *)
Lemma round_trip_exact rm (aOut rIn rOut : Z) :
  0 < aOut < rOut -> 0 < rIn ->
  (rIn * aOut * 1000 + 2) * 997 * rOut < 2 * 10 ^ 19 ->
  exists aIn out,
    getAmountIn rm (ofZ aOut) (ofZ rIn) (ofZ rOut) = Ok (ofZ aIn) /\
    getAmountOut rm (ofZ aIn) (ofZ rIn) (ofZ rOut) = Ok (ofZ out) /\
    aOut <= out.
Proof.
  intros [Ha Hlt] Hi Hb.
  change (10 ^ 19) with 10000000000000000000 in Hb.
  set (n := rIn * aOut * 1000) in *. set (d := (rOut - aOut) * 997).
  assert (Hn : 0 < n) by (unfold n; nia).
  assert (Hd : 0 < d) by (unfold d; nia).
  assert (Hc : n <= AmmMath.ceilDiv n d * d /\ 0 < AmmMath.ceilDiv n d <= n).
  { unfold AmmMath.ceilDiv.
    pose proof (Z.div_mod (- n) d ltac:(lia)) as Hdm.
    pose proof (Z.mod_pos_bound (- n) d Hd) as Hm.
    set (g := - n / d) in *. nia. }
  set (c := AmmMath.ceilDiv n d) in *.
  exists (c + 1), (AmmMath.getAmountOut (c + 1) rIn rOut).
  pose proof (getAmountIn_exact rm aOut rIn rOut) as H1.
  split; [|split].
  - fold n d c in H1. apply H1; try lia.
    + change (10 ^ 19) with 10000000000000000000. nia.
    + change (10 ^ 20) with 100000000000000000000. unfold d. nia.
  - apply getAmountOut_exact; try lia.
    + change (10 ^ 19) with 10000000000000000000. nia.
    + change (10 ^ 20) with 100000000000000000000. nia.
  - unfold AmmMath.getAmountOut. apply Z.div_le_lower_bound; [nia|].
    unfold d in Hc. nia.
Qed.

(** *** The binary search of [findOptimalTradeSize] *)

Section Search.

Variable rm : Rounding.
Variables poolA poolB : Pool.
Variable gasCost : Decimal.t.

Lemma netProfitAt_positive_amount (m q : Decimal.t) :
  netProfitAt rm poolA poolB gasCost m = Ok q ->
  lessThanOrEqualTo m (ofZ 0) = false.
Proof.
  unfold netProfitAt, getAmountOut.
  destruct (lessThanOrEqualTo m (ofZ 0)); [discriminate|reflexivity].
Qed.

(** One iteration keeps [bestProbed], the probed amount being added. *)
Lemma step_bestProbed (s : Search) (visited : list Decimal.t) :
  bestProbed rm poolA poolB gasCost visited (optimalAmount s) (maxProfit s) ->
  bestProbed rm poolA poolB gasCost (visited ++ [midpoint rm s])
    (optimalAmount (step rm poolA poolB gasCost s))
    (maxProfit (step rm poolA poolB gasCost s)).
Proof.
  intros Hb. unfold step. set (mid := midpoint rm s).
  assert (Hskip :
    (forall q, netProfitAt rm poolA poolB gasCost mid <> Ok q) ->
    bestProbed rm poolA poolB gasCost (visited ++ [mid])
      (optimalAmount s) (maxProfit s)).
  { intros Hno. destruct Hb as [(Ho & Hp & Hall)|(Hn & Hpos & b & a & Hv & Hb & Ha)].
    - left. repeat split; try assumption. apply Forall_app. split; [assumption|].
      constructor; [|constructor]. intros q Hq. destruct (Hno q Hq).
    - right. repeat split; try assumption. exists b, (a ++ [mid]).
      split; [rewrite Hv, <- app_assoc; reflexivity|]. split; [assumption|].
      apply Forall_app. split; [assumption|].
      constructor; [|constructor]. intros q Hq. destruct (Hno q Hq). }
  destruct (lessThanOrEqualTo mid (ofZ 0)) eqn:Hle.
  - cbn [optimalAmount maxProfit]. apply Hskip. intros q Hq.
    rewrite (netProfitAt_positive_amount mid q Hq) in Hle. discriminate.
  - destruct (netProfitAt rm poolA poolB gasCost mid) as [np|e] eqn:Hnp.
    2:{ cbn [optimalAmount maxProfit]. apply Hskip. intros q Hq. discriminate. }
    assert (Hgoal :
      bestProbed rm poolA poolB gasCost (visited ++ [mid])
        (if greaterThan np (maxProfit s) then mid else optimalAmount s)
        (if greaterThan np (maxProfit s) then np else maxProfit s)).
    { destruct (greaterThan np (maxProfit s)) eqn:Hbetter.
      - right. split; [assumption|].
        destruct Hb as [(Ho & Hp & Hall)|(Hn & Hpos & b & a & Hv & Hb & Ha)].
        + rewrite Hp in Hbetter. split; [assumption|].
          exists visited, []. split; [reflexivity|]. split; [|constructor].
          eapply Forall_impl; [|exact Hall]. intros m Hm q Hq.
          apply (greaterThan_below q np (ofZ 0)); [apply Hm; assumption|assumption].
        + split; [eapply greaterThan_trans; eassumption|].
          exists visited, []. split; [reflexivity|]. split; [|constructor].
          rewrite Hv. apply Forall_app. split; [|constructor].
          * eapply Forall_impl; [|exact Hb]. intros m Hm q Hq.
            apply (greaterThan_below q np (maxProfit s)); [|assumption].
            apply greaterThanOrEqualTo_false_greaterThan. apply Hm; assumption.
          * intros q Hq. rewrite Hn in Hq. injection Hq as <-.
            apply (greaterThan_below _ np (maxProfit s)); [|assumption].
            apply greaterThan_irrefl.
          * eapply Forall_impl; [|exact Ha]. intros m Hm q Hq.
            apply (greaterThan_below q np (maxProfit s)); [|assumption].
            apply Hm; assumption.
      - destruct Hb as [(Ho & Hp & Hall)|(Hn & Hpos & b & a & Hv & Hb & Ha)].
        + left. repeat split; try assumption. apply Forall_app.
          split; [assumption|]. constructor; [|constructor].
          intros q Hq. fold mid in Hq. rewrite Hnp in Hq. injection Hq as <-.
          rewrite Hp in Hbetter. assumption.
        + right. repeat split; try assumption. exists b, (a ++ [mid]).
          split; [rewrite Hv, <- app_assoc; reflexivity|]. split; [assumption|].
          apply Forall_app. split; [assumption|]. constructor; [|constructor].
          intros q Hq. rewrite Hnp in Hq. injection Hq as <-. assumption. }
    destruct (greaterThan np (ofZ 0)); cbn [optimalAmount maxProfit]; exact Hgoal.
Qed.

(** The loop keeps [bestProbed], the amounts it probes being added. *)
Lemma search_bestProbed (fuel : nat) :
  forall (s s' : Search) (visited : list Decimal.t),
  bestProbed rm poolA poolB gasCost visited (optimalAmount s) (maxProfit s) ->
  search rm fuel poolA poolB gasCost s = Some s' ->
  bestProbed rm poolA poolB gasCost
    (visited ++ probes rm fuel poolA poolB gasCost s)
    (optimalAmount s') (maxProfit s').
Proof.
  induction fuel as [|fuel IH]; intros s s' visited Hb Hs.
  - cbn [search probes] in *. destruct (continues rm s); [discriminate|].
    injection Hs as <-. rewrite app_nil_r. assumption.
  - cbn [search probes] in *. destruct (continues rm s).
    + replace (visited ++ midpoint rm s
                 :: probes rm fuel poolA poolB gasCost (step rm poolA poolB gasCost s))
        with ((visited ++ [midpoint rm s])
                ++ probes rm fuel poolA poolB gasCost (step rm poolA poolB gasCost s))
        by (rewrite <- app_assoc; reflexivity).
      apply IH; [|assumption]. apply step_bestProbed. assumption.
    + injection Hs as <-. rewrite app_nil_r. assumption.
Qed.

Lemma findOptimalTradeSize_bestProbed (fuel : nat) (maxAmount o p : Decimal.t) :
  findOptimalTradeSize rm fuel poolA poolB maxAmount gasCost = Some (o, p) ->
  bestProbed rm poolA poolB gasCost
    (probes rm fuel poolA poolB gasCost (initial maxAmount)) o p.
Proof.
  unfold findOptimalTradeSize.
  destruct (search rm fuel poolA poolB gasCost (initial maxAmount)) as [s'|] eqn:Hs;
    [|discriminate].
  intros H. injection H as <- <-.
  apply (search_bestProbed fuel (initial maxAmount) s' [] ); [|assumption].
  left. repeat split; constructor.
Qed.

End Search.

Section Bounded.

Variable rm : Rounding.
Variables poolA poolB : Pool.
Variable gasCost : Decimal.t.

Lemma continues_ofZ (s : Search) (l h : Z) :
  low s = ofZ l -> high s = ofZ h -> 1 <= l -> l <= h -> h <= 10 ^ 19 ->
  continues rm s = (1 <? h - l).
Proof.
  intros Hl Hh H1 Hlh Hmax. unfold continues. rewrite Hl, Hh.
  change (10 ^ 19) with 10000000000000000000 in Hmax.
  rewrite minus_ofZ by (rewrite pow10_20; lia).
  apply greaterThan_ofZ.
Qed.

Lemma midpoint_ofZ (s : Search) (l h : Z) :
  low s = ofZ l -> high s = ofZ h -> 1 <= l -> 1 < h - l -> h <= 10 ^ 19 ->
  midpoint rm s = ofZ ((l + h) / 2).
Proof.
  intros Hl Hh H1 Hlh Hmax. unfold midpoint. rewrite Hl, Hh.
  change (10 ^ 19) with 10000000000000000000 in Hmax.
  rewrite plus_ofZ by (rewrite pow10_20; lia).
  apply floor_dividedBy_ofZ; rewrite ?pow10_19; lia.
Qed.

(** One iteration on an interval [l, h] of integers below [10^19]: the
    probe is the integer midpoint and the interval shrinks to one of
    [m, h], [l, m] and [m + 1, h]. *)
Lemma step_interval (s : Search) (l h : Z) :
  low s = ofZ l -> high s = ofZ h -> 1 <= l -> 1 < h - l -> h <= 10 ^ 19 ->
  exists l' h',
    low (step rm poolA poolB gasCost s) = ofZ l' /\
    high (step rm poolA poolB gasCost s) = ofZ h' /\
    l <= l' /\ l' <= h' /\ h' <= h /\ 2 * (h' - l') <= h - l + 1.
Proof.
  intros Hl Hh H1 Hlh Hmax.
  pose proof (midpoint_ofZ s l h Hl Hh H1 Hlh Hmax) as Hmid.
  set (m := (l + h) / 2) in *.
  assert (Hm : l < m < h /\ 2 * m <= l + h < 2 * m + 2).
  { unfold m. pose proof (Z.div_mod (l + h) 2 ltac:(lia)).
    pose proof (Z.mod_pos_bound (l + h) 2 ltac:(lia)). lia. }
  change (10 ^ 19) with 10000000000000000000 in Hmax.
  assert (Hplus : plus rm (ofZ m) (ofZ 1) = ofZ (m + 1))
    by (apply plus_ofZ; rewrite pow10_20; lia).
  unfold step. rewrite Hmid, lessThanOrEqualTo_ofZ.
  destruct (Z.leb_spec m 0); [lia|].
  destruct (netProfitAt rm poolA poolB gasCost (ofZ m)) as [np|e].
  - destruct (greaterThan np (ofZ 0)); cbn [low high].
    + exists m, h. rewrite Hh. repeat split; lia.
    + exists l, m. rewrite Hl. repeat split; lia.
  - cbn [low high]. exists (m + 1), h. rewrite Hplus, Hh. repeat split; lia.
Qed.

(** On such an interval the loop ends within [fuel] iterations when
    [h - l <= 2^fuel], and probes integers strictly inside it only. *)
Lemma search_interval (fuel : nat) :
  forall (s : Search) (l h : Z),
  low s = ofZ l -> high s = ofZ h -> 1 <= l -> l <= h -> h <= 10 ^ 19 ->
  h - l <= 2 ^ Z.of_nat fuel ->
  (exists s', search rm fuel poolA poolB gasCost s = Some s') /\
  Forall (fun x => exists m, x = ofZ m /\ l < m < h)
    (probes rm fuel poolA poolB gasCost s).
Proof.
  induction fuel as [|fuel IH]; intros s l h Hl Hh H1 Hlh Hmax Hfuel;
    cbn [search probes];
    rewrite (continues_ofZ s l h Hl Hh H1 Hlh Hmax);
    destruct (Z.ltb_spec 1 (h - l)) as [Hgo|Hstop];
    try (split; [eexists; reflexivity|constructor]).
  - change (2 ^ Z.of_nat 0) with 1 in Hfuel. lia.
  - destruct (step_interval s l h Hl Hh H1 Hgo Hmax)
      as (l' & h' & Hl' & Hh' & B1 & B2 & B3 & B4).
    rewrite Nat2Z.inj_succ, Z.pow_succ_r in Hfuel by lia.
    destruct (IH _ l' h' Hl' Hh' ltac:(lia) B2 ltac:(lia) ltac:(lia))
      as [Hterm Hprobes].
    split; [assumption|]. constructor.
    + exists ((l + h) / 2). split; [apply midpoint_ofZ; assumption|].
      pose proof (Z.div_mod (l + h) 2 ltac:(lia)).
      pose proof (Z.mod_pos_bound (l + h) 2 ltac:(lia)). lia.
    + eapply Forall_impl; [|exact Hprobes].
      intros x (m & -> & Hm). exists m. split; [reflexivity|].
      assert (l' < h' -> l <= l' /\ h' <= h) by lia. lia.
Qed.

End Bounded.




(** C10: whenever [findOptimalTradeSize] returns, the returned [maxProfit]
    is not negative, and if no probed amount had a strictly positive net
    profit it returns the amount 0 and the profit 0. *)
Theorem findOptimalTradeSize_reports_no_loss rm (fuel : nat) (poolA poolB : Pool)
  (maxAmount gasCost o p : Decimal.t) :
  findOptimalTradeSize rm fuel poolA poolB maxAmount gasCost = Some (o, p) ->
  greaterThanOrEqualTo p (ofZ 0) = true /\
  (Forall (notProfitable rm poolA poolB gasCost)
     (probes rm fuel poolA poolB gasCost (initial maxAmount)) ->
   o = ofZ 0 /\ p = ofZ 0).
Proof.
  intros Hres.
  destruct (findOptimalTradeSize_bestProbed rm poolA poolB gasCost fuel _ _ _ Hres)
    as [(Ho & Hp & _)|(Hn & Hpos & b & a & Hv & _)].
  - subst. split; [reflexivity|]. intros _. split; reflexivity.
  - split; [apply greaterThan_greaterThanOrEqualTo; assumption|].
    intros Hall. rewrite Forall_forall in Hall.
    assert (Hin : In o (probes rm fuel poolA poolB gasCost (initial maxAmount)))
      by (rewrite Hv; apply in_or_app; right; left; reflexivity).
    specialize (Hall o Hin p Hn). congruence.
Qed.

Lemma findOptimalTradeSize_reports_no_loss_witness :
  greaterThanOrEqualTo (ofZ 0) (ofZ 0) = true /\
  (Forall (notProfitable ROUND_HALF_UP (pool 1000 1000) (pool 1000 1000) (ofZ 0))
     (probes ROUND_HALF_UP 64 (pool 1000 1000) (pool 1000 1000) (ofZ 0)
        (initial (ofZ 10))) ->
   ofZ 0 = ofZ 0 /\ ofZ 0 = ofZ 0).
Proof.
  apply (findOptimalTradeSize_reports_no_loss ROUND_HALF_UP 64
           (pool 1000 1000) (pool 1000 1000) (ofZ 10) (ofZ 0)).
  vm_compute. reflexivity.
Defined.

End UniswapV2MathFacts.

(** ** TradingStrategyEngine: qualification and margin *)

Module TradingStrategyEngineFacts.

Import Decimal DecimalFacts TradingStrategyEngine.




(** *** The margin of a two-leg opportunity *)

Lemma dividedBy_Fin_error rm (n g : Q) :
  ~ (g == 0)%Q ->
  exists m, dividedBy rm (Fin n) (Fin g) = Fin m /\
            (Qabs (m - n / g) <= Qabs (n / g) * (1 # Z.to_pos (10 ^ 19)))%Q.
Proof.
  intros Hg. unfold dividedBy, isZero.
  destruct (Z.eqb_spec (Qnum g) 0) as [E|_].
  - exfalso. apply Hg. unfold Qeq. cbn. rewrite E. reflexivity.
  - eexists. split; [reflexivity|]. apply round_sd_error.
Qed.

(** C9 (as stated) fails.  With a gas price of 1 gwei the gas cost is 0.72
    and the recorded margin is 692.05..., the net profit 498.28 divided by
    0.72, which differs from the net profit divided by max(1, 0.72 + fee)
    whatever the fee; with a gas price of 0 the recorded margin is
    Infinity. *)
Lemma margin_is_not_over_max_1 :
  (exists o,
     calculateArbitrageOpportunity ROUND_HALF_UP defaultOptions 64 samplePair
       sampleBuyDex sampleSellDex (ofZ (10 ^ 9)) "latest"
       1700000000000 1700000000000 1700000000000 = Some (Some o) /\
     netProfitUSD o = Fin (12457 # 25) /\
     gasCostUSD o = Fin (18 # 25) /\
     profitMargin o = Fin (17301388888888888889 # 25000000000000000) /\
     forall fee : Q, (0 <= fee)%Q ->
       ~ (17301388888888888889 # 25000000000000000
            == AmmMath.margin (12457 # 25) (18 # 25) fee)%Q) /\
  (exists o,
     calculateArbitrageOpportunity ROUND_HALF_UP defaultOptions 64 samplePair
       sampleBuyDex sampleSellDex (ofZ 0) "latest"
       1700000000000 1700000000000 1700000000000 = Some (Some o) /\
     gasCostUSD o = ofZ 0 /\
     profitMargin o = Infinity false).
Proof.
  split.
  - eexists. split; [vm_compute; reflexivity|].
    split; [reflexivity|]. split; [reflexivity|]. split; [reflexivity|].
    intros fee Hfee Heq. unfold AmmMath.margin in Heq.
    assert (H1 : (1 <= Qmax 1 ((18 # 25) + fee))%Q) by apply Q.le_max_l.
    assert (Hle : ((12457 # 25) / Qmax 1 ((18 # 25) + fee) <= 12457 # 25)%Q).
    { apply Qle_shift_div_r.
      - eapply Qlt_le_trans; [|exact H1]. reflexivity.
      - rewrite <- (Qmult_1_r (12457 # 25)) at 1.
        apply Qmult_le_l; [reflexivity|assumption]. }
    rewrite <- Heq in Hle. vm_compute in Hle. apply Hle. reflexivity.
  - eexists. split; [vm_compute; reflexivity|].
    split; reflexivity.
Qed.

(** C9, amended: for every two-leg opportunity that
    [calculateArbitrageOpportunity] returns, the recorded gas cost is the one
    of [calculateGasCost] and, when it is a non-zero number, the recorded
    margin is the net profit divided by the gas cost alone, to 20
    significant digits; no fee cost enters and the divisor has no lower
    bound of 1. *)
Theorem calculateArbitrageOpportunity_margin rm (options : Options)
  (fuel : nat) (pair : Pair) (buyDex sellDex : DexData) (gasPrice : Decimal.t)
  (blockNumber : string) (nowId nowStamp nowExpiry : Z) (o : Opportunity) :
  calculateArbitrageOpportunity rm options fuel pair buyDex sellDex gasPrice
    blockNumber nowId nowStamp nowExpiry = Some (Some o) ->
  gasCostUSD o = calculateGasCost rm options gasPrice /\
  forall n g : Q,
    netProfitUSD o = Fin n -> gasCostUSD o = Fin g -> ~ (g == 0)%Q ->
    exists m, profitMargin o = Fin m /\
              (Qabs (m - n / g) <= Qabs (n / g) * (1 # Z.to_pos (10 ^ 19)))%Q.
Proof.
  unfold calculateArbitrageOpportunity.
  destruct (lessThan _ _); [discriminate|].
  destruct (calculateOptimalTradeSize rm options fuel buyDex sellDex)
    as [amount|]; [|discriminate].
  destruct (lessThanOrEqualTo amount (ofZ 0)); [discriminate|].
  intros H. injection H as <-. cbn [gasCostUSD netProfitUSD profitMargin].
  split; [reflexivity|]. intros n g -> -> Hg.
  apply dividedBy_Fin_error. assumption.
Qed.

Lemma calculateArbitrageOpportunity_margin_witness :
  exists o,
    calculateArbitrageOpportunity ROUND_HALF_UP defaultOptions 64 samplePair
      sampleBuyDex sampleSellDex (ofZ (10 ^ 9)) "latest"
      1700000000000 1700000000000 1700000000000 = Some (Some o) /\
    gasCostUSD o = calculateGasCost ROUND_HALF_UP defaultOptions (ofZ (10 ^ 9)) /\
    exists m, profitMargin o = Fin m /\
      (Qabs (m - (12457 # 25) / (18 # 25))
         <= Qabs ((12457 # 25) / (18 # 25)) * (1 # Z.to_pos (10 ^ 19)))%Q.
Proof.
  eexists. split; [vm_compute; reflexivity|].
  match goal with
  | |- gasCostUSD ?o = _ /\ _ =>
      destruct (calculateArbitrageOpportunity_margin ROUND_HALF_UP defaultOptions
                  64 samplePair sampleBuyDex sampleSellDex (ofZ (10 ^ 9)) "latest"
                  1700000000000 1700000000000 1700000000000 o) as [Hg Hm]
  end.
  - vm_compute. reflexivity.
  - split; [exact Hg|].
    apply (Hm (12457 # 25) (18 # 25))%Q; [reflexivity|reflexivity|].
    intros H. vm_compute in H. discriminate.
Defined.

End TradingStrategyEngineFacts.

(** ** Web3Manager: the failover rule *)

Module Web3ManagerFacts.

Section Failover.

Context {R : Type}.
Variable operation : nat -> nat -> option R.
Variable clock : nat -> Z.

Lemma attempts_never_rotate (remaining : nat) :
  forall (attempt : nat) (m : Web3Manager.t) (reads : nat),
  (forall k, clock (S k) - clock k <= Web3Manager.cooldownPeriod m) ->
  Web3Manager.currentProviderIndex
    (snd (fst (Web3Manager.attempts operation clock remaining attempt m reads)))
  = Web3Manager.currentProviderIndex m.
Proof.
  induction remaining as [|remaining IH]; intros attempt m reads Hclock;
    cbn [Web3Manager.attempts].
  - reflexivity.
  - destruct (operation attempt (Web3Manager.currentProviderIndex m)).
    + reflexivity.
    + assert (Hno : Web3Manager.shouldRotateProvider (clock (S reads))
                      (Web3Manager.recordFailure (clock reads) m) = false).
      { unfold Web3Manager.shouldRotateProvider, Web3Manager.recordFailure.
        cbn. specialize (Hclock reads). apply andb_false_iff. right.
        destruct (Z.gtb_spec (clock (S reads) - clock reads)
                    (Web3Manager.cooldownPeriod m)); [lia|reflexivity]. }
      rewrite Hno. rewrite IH; [reflexivity|exact Hclock].
Qed.

(** C7: whatever the number of consecutive failures, the pool stays on the
    same provider as long as two successive readings of the clock are not
    more than [cooldownPeriod] apart: the time of the last failure is set
    just before it is compared with the current time. *)
Theorem executeWithFailover_never_rotates (optMaxAttempts : option nat)
  (m : Web3Manager.t) (reads : nat) :
  (forall k, clock (S k) - clock k <= Web3Manager.cooldownPeriod m) ->
  Web3Manager.currentProviderIndex
    (snd (fst (Web3Manager.executeWithFailover operation clock optMaxAttempts
                 m reads)))
  = Web3Manager.currentProviderIndex m.
Proof.
  intros Hclock. unfold Web3Manager.executeWithFailover.
  apply attempts_never_rotate. exact Hclock.
Qed.

End Failover.

Lemma executeWithFailover_never_rotates_witness :
  Web3Manager.currentProviderIndex
    (snd (fst (Web3Manager.executeWithFailover Web3Manager.firstProviderDown
                 Web3Manager.everySecond (Some 10%nat) Web3Manager.twoProviders
                 0%nat)))
  = 0%nat.
Proof.
  apply (executeWithFailover_never_rotates Web3Manager.firstProviderDown
           Web3Manager.everySecond (Some 10%nat) Web3Manager.twoProviders 0%nat).
  intros k. unfold Web3Manager.everySecond.
  change (Web3Manager.cooldownPeriod Web3Manager.twoProviders) with 60000.
  rewrite Nat2Z.inj_succ. lia.
Defined.

(** Ten attempts with the first of two endpoints down and the second one
    healthy: all ten go to the first endpoint and the call throws, the
    failure count (10) being far above the threshold (3). *)
Lemma executeWithFailover_stays_on_dead_endpoint :
  let r := Web3Manager.executeWithFailover Web3Manager.firstProviderDown
             Web3Manager.everySecond (Some 10%nat) Web3Manager.twoProviders
             0%nat in
  fst (fst r) = None /\
  Web3Manager.currentProviderIndex (snd (fst r)) = 0%nat /\
  Web3Manager.failureCount (snd (fst r)) = 10 /\
  Web3Manager.failoverThreshold (snd (fst r)) = 3 /\
  snd r = 20%nat.
Proof. vm_compute. repeat split; reflexivity. Qed.

End Web3ManagerFacts.

(** ** DatabaseService: the primary key *)

Module DatabaseServiceFacts.

Import DatabaseService.

Lemma countId_app (i : string) (t1 t2 : list Row) :
  countId i (t1 ++ t2) = (countId i t1 + countId i t2)%nat.
Proof. unfold countId. rewrite filter_app, List.length_app. reflexivity. Qed.

Lemma countId_filter_same (i : string) (table : list Row) :
  countId i (filter (fun old => negb (sameId (Some i) old)) table) = 0%nat.
Proof.
  unfold countId. induction table as [|r rest IH]; [reflexivity|].
  cbn [filter]. destruct (sameId (Some i) r) eqn:E; cbn [negb]; [assumption|].
  cbn [filter]. rewrite E. assumption.
Qed.

Lemma countId_filter_le (i : string) (P : Row -> bool) (table : list Row) :
  (countId i (filter P table) <= countId i table)%nat.
Proof.
  unfold countId. induction table as [|r rest IH]; [cbn; lia|].
  cbn [filter]. destruct (P r), (sameId (Some i) r) eqn:E; cbn [filter List.length];
    rewrite ?E; cbn [List.length]; lia.
Qed.

Lemma sameId_new (i : string) (r : Opportunity) (now : Z) :
  sameId (Some i) {| row := r; created_at := now |}
  = match id r with Some j => String.eqb i j | None => false end.
Proof. reflexivity. Qed.

(** An accepted INSERT OR REPLACE leaves exactly one row with the key. *)
Lemma insertOrReplace_one (now : Z) (r : Opportunity) (table table' : list Row)
  (i : string) :
  id r = Some i -> insertOrReplace now r table = Some table' ->
  countId i table' = 1%nat.
Proof.
  unfold insertOrReplace. intros Hid. destruct (notNullOk r); [|discriminate].
  intros H. injection H as <-. rewrite countId_app, Hid, countId_filter_same.
  unfold countId. cbn [filter]. rewrite sameId_new, Hid, String.eqb_refl.
  reflexivity.
Qed.

Lemma insertOrReplace_unique (now : Z) (r : Opportunity)
  (table table' : list Row) :
  uniqueIds table -> insertOrReplace now r table = Some table' ->
  uniqueIds table'.
Proof.
  unfold insertOrReplace. intros Hu. destruct (notNullOk r) eqn:Hok; [|discriminate].
  intros H. injection H as <-. intros j.
  destruct (id r) as [i|] eqn:Hid.
  - destruct (String.eqb_spec j i) as [->|Hne].
    + rewrite (insertOrReplace_one now r table _ i Hid); [lia|].
      unfold insertOrReplace. rewrite Hok, Hid. reflexivity.
    + rewrite countId_app. unfold countId at 2. cbn [filter].
      rewrite sameId_new, Hid. destruct (String.eqb_spec j i); [contradiction|].
      cbn [List.length]. pose proof (countId_filter_le j
        (fun old => negb (sameId (Some i) old)) table). specialize (Hu j). lia.
  - rewrite countId_app. unfold countId at 2. cbn [filter].
    rewrite sameId_new, Hid. cbn [List.length].
    pose proof (countId_filter_le j (fun old => negb (sameId None old)) table).
    specialize (Hu j). lia.
Qed.

Lemma params_id (o : Opportunity) : id (params o) = id o.
Proof. reflexivity. Qed.

Lemma storeOpportunity_unique (now : Z) (o : Opportunity) (db : DatabaseService.t) :
  uniqueIds (opportunities db) ->
  uniqueIds (opportunities (storeOpportunity now o db)).
Proof.
  intros Hu. unfold storeOpportunity. destruct (isInitialized db); [|assumption].
  destruct (insertOrReplace now (params o) (opportunities db)) as [table|] eqn:E;
    [|assumption].
  cbn [opportunities]. eapply insertOrReplace_unique; eassumption.
Qed.

Lemma storeOpportunity_initialized (now : Z) (o : Opportunity) (db : DatabaseService.t) :
  isInitialized (storeOpportunity now o db) = isInitialized db.
Proof.
  unfold storeOpportunity. destruct (isInitialized db) eqn:E; [|assumption].
  destruct (insertOrReplace now (params o) (opportunities db)); [reflexivity|assumption].
Qed.

(** A call with key [i] leaves a row with that key in place, and puts one
    there when the table accepts the call. *)
Lemma storeOpportunity_count (now : Z) (o : Opportunity) (db : DatabaseService.t)
  (i : string) :
  id o = Some i ->
  (countId i (opportunities db) = 1%nat \/
   (isInitialized db = true /\ storable o = true)) ->
  countId i (opportunities (storeOpportunity now o db)) = 1%nat.
Proof.
  intros Hid H. unfold storeOpportunity, storable in *.
  destruct (isInitialized db) eqn:Hi.
  - unfold insertOrReplace at 1.
    destruct (notNullOk (params o)) eqn:Hok.
    + cbn [opportunities]. apply (insertOrReplace_one now (params o) (opportunities db)).
      * rewrite params_id. assumption.
      * unfold insertOrReplace. rewrite Hok. reflexivity.
    + destruct H as [H|[_ H]]; [assumption|discriminate].
  - destruct H as [H|[H _]]; [assumption|discriminate].
Qed.

Lemma storeAll_unique (calls : list (Z * Opportunity)) :
  forall db, uniqueIds (opportunities db) ->
  uniqueIds (opportunities (storeAll calls db)).
Proof.
  unfold storeAll. induction calls as [|c calls IH]; intros db Hu; [assumption|].
  cbn [fold_left]. apply IH. apply storeOpportunity_unique. assumption.
Qed.

(** Every table reached from the empty one respects its primary key. *)
Lemma storeAll_from_empty_unique (calls : list (Z * Opportunity)) :
  uniqueIds (opportunities (storeAll calls empty)).
Proof. apply storeAll_unique. intros i. cbn. lia. Qed.

Lemma storeAll_count (calls : list (Z * Opportunity)) (i : string) :
  forall db,
  Forall (fun c => id (snd c) = Some i) calls ->
  countId i (opportunities db) = 1%nat ->
  countId i (opportunities (storeAll calls db)) = 1%nat.
Proof.
  unfold storeAll. induction calls as [|c calls IH]; intros db Hall Hc;
    [assumption|].
  cbn [fold_left]. inversion Hall as [|? ? Hid Hrest]; subst.
  apply IH; [assumption|]. apply storeOpportunity_count; [assumption|].
  left. assumption.
Qed.

Lemma storeAll_initialized (calls : list (Z * Opportunity)) :
  forall db, isInitialized (storeAll calls db) = isInitialized db.
Proof.
  unfold storeAll. induction calls as [|c calls IH]; intros db; [reflexivity|].
  cbn [fold_left]. rewrite IH. apply storeOpportunity_initialized.
Qed.

Lemma storeAll_accepted (calls : list (Z * Opportunity)) (i : string) :
  forall db,
  Forall (fun c => id (snd c) = Some i) calls ->
  isInitialized db = true ->
  Exists (fun c => storable (snd c) = true) calls ->
  countId i (opportunities (storeAll calls db)) = 1%nat.
Proof.
  induction calls as [|c calls IH]; intros db Hall Hinit Hex.
  - inversion Hex.
  - inversion Hall as [|? ? Hid Hrest]; subst.
    change (storeAll (c :: calls) db)
      with (storeAll calls (storeOpportunity (fst c) (snd c) db)).
    inversion Hex as [? ? Hst|? ? Hlater]; subst.
    + apply storeAll_count; [assumption|].
      apply storeOpportunity_count; [assumption|]. right. split; assumption.
    + apply IH; [assumption| |assumption].
      rewrite storeOpportunity_initialized. assumption.
Qed.

(** C8: in a table that respects its primary key, any number of calls of
    [storeOpportunity] with the same id leave at most one row with that
    id, and exactly one when a row with that id was there before or when
    the table accepts one of the calls; the primary key remains
    respected. *)
Theorem storeOpportunity_idempotent (db : DatabaseService.t)
  (calls : list (Z * Opportunity)) (i : string) :
  uniqueIds (opportunities db) ->
  Forall (fun c => id (snd c) = Some i) calls ->
  uniqueIds (opportunities (storeAll calls db)) /\
  (countId i (opportunities (storeAll calls db)) <= 1)%nat /\
  (countId i (opportunities db) = 1%nat ->
   countId i (opportunities (storeAll calls db)) = 1%nat) /\
  (isInitialized db = true ->
   Exists (fun c => storable (snd c) = true) calls ->
   countId i (opportunities (storeAll calls db)) = 1%nat).
Proof.
  intros Hu Hall.
  pose proof (storeAll_unique calls db Hu) as Hu'.
  split; [assumption|]. split; [apply Hu'|]. split.
  - apply storeAll_count; assumption.
  - apply storeAll_accepted; assumption.
Qed.

Lemma storeOpportunity_idempotent_witness :
  DatabaseService.countId "test-opp-1"
    (DatabaseService.opportunities
       (DatabaseService.storeAll
          [(1700000000000, DatabaseService.sampleOpportunity 12 1700000000000);
           (1700000005000, DatabaseService.sampleOpportunity 15 1700000005000);
           (1700000010000, DatabaseService.sampleOpportunity 9 1700000010000)]
          DatabaseService.empty)) = 1%nat.
Proof.
  destruct (storeOpportunity_idempotent DatabaseService.empty
    [(1700000000000, DatabaseService.sampleOpportunity 12 1700000000000);
     (1700000005000, DatabaseService.sampleOpportunity 15 1700000005000);
     (1700000010000, DatabaseService.sampleOpportunity 9 1700000010000)]
    "test-opp-1") as (_ & _ & _ & H).
  - intros i. cbn. lia.
  - repeat constructor.
  - apply H; [reflexivity|]. left. reflexivity.
Defined.

End DatabaseServiceFacts.

(** ** ComprehensiveArbitrageBot: what the triangular scan stores *)

Module ComprehensiveArbitrageBotFacts.

Import Decimal DecimalFacts ComprehensiveArbitrageBot.

(** The result of a rounding has the sign of the exact value. *)
Lemma round_sd_nonpos rm (q : Q) : (q <= 0)%Q -> (round_sd rm q <= 0)%Q.
Proof.
  intros Hq. unfold round_sd. destruct q as [n d]. cbn [Qnum Qden].
  assert (Hn : n <= 0) by (unfold Qle in Hq; cbn in Hq; lia).
  destruct (Z.eqb_spec n 0) as [->|Hne]; [apply Qle_refl|].
  rewrite Qred_correct.
  set (k := precision - 1 - exponent (Z.abs n) (Zpos d)).
  set (r := if 0 <=? k then round_div rm (Z.abs n * 10 ^ k) (Zpos d)
            else round_div rm (Z.abs n) (Zpos d * 10 ^ (- k))).
  assert (Hr : 0 <= r).
  { unfold r. destruct (Z.leb_spec 0 k) as [Hk|Hk].
    - pose proof (pow10_pos k Hk).
      apply (round_div_within rm (Z.abs n * 10 ^ k) (Zpos d)); nia.
    - pose proof (pow10_pos (- k) ltac:(lia)).
      apply (round_div_within rm (Z.abs n) (Zpos d * 10 ^ (- k))); nia. }
  rewrite (Z.sgn_neg n) by lia.
  unfold scale, Qle. destruct (0 <=? k) eqn:Ek; cbn [Qnum Qden].
  - lia.
  - apply Z.leb_gt in Ek. pose proof (pow10_pos (- k) ltac:(lia)). nia.
Qed.

(** A triangular opportunity computed from prices is returned only when
    its profit after the safety margin is not below the minimum; with a
    positive minimum and a safety margin of at most 1 its net profit is
    then strictly positive. *)
Lemma calculateTriangularArbitrage_profitable rm (config : Config)
  (triangularPair : TriangularPair) (dex1 dex2 : string)
  (prices1 prices2 : DexPrices) (gasPrice : Decimal.t) (nowId nowStamp : Z)
  (o : DatabaseService.Opportunity) :
  calculateTriangularArbitrage rm config triangularPair dex1 dex2 prices1 prices2
    gasPrice nowId nowStamp = Some o ->
  exists netProfit withMargin,
    DatabaseService.netProfitUSD o = Some netProfit /\
    DatabaseService.profitWithSafetyMargin o = Some withMargin /\
    withMargin = times rm netProfit (ofNumber (1 - safetyMargin config)) /\
    lessThan withMargin (ofNumber (minProfitUSD config)) = false /\
    ((0 < minProfitUSD config)%Q -> (safetyMargin config <= 1)%Q ->
     isNaN withMargin = false -> greaterThan netProfit (ofZ 0) = true).
Proof.
  unfold calculateTriangularArbitrage.
  destruct (tokens triangularPair) as [[tokenA tokenB] tokenC].
  destruct (AB prices1) as [pAB|]; [|discriminate].
  destruct (BC prices1) as [pBC|]; [|discriminate].
  destruct (AC prices2) as [pAC|]; [|discriminate].
  match goal with
  | |- context [lessThan (times rm ?np ?f) ?m] => set (netProfit := np)
  end.
  destruct (lessThan (times rm netProfit _) _) eqn:Hlt; [discriminate|].
  intros H. injection H as <-. cbn [DatabaseService.netProfitUSD
    DatabaseService.profitWithSafetyMargin].
  exists netProfit, (times rm netProfit (ofNumber (1 - safetyMargin config))).
  repeat split; try assumption.
  intros Hmin Hsafe Hnan. revert Hlt Hnan. unfold ofNumber.
  assert (Hf : (0 <= Qred (1 - safetyMargin config))%Q).
  { rewrite Qred_correct. unfold Qminus. rewrite <- Qle_minus_iff. assumption. }
  assert (Hm : (0 < Qred (minProfitUSD config))%Q) by (rewrite Qred_correct; assumption).
  generalize dependent (Qred (1 - safetyMargin config)).
  generalize dependent (Qred (minProfitUSD config)).
  intros m Hm f Hf. clearbody netProfit.
  destruct netProfit as [q|[]|]; cbn; try discriminate; try reflexivity.
  - intros Hlt _.
    destruct (Qlt_le_dec 0 q) as [Hq|Hq].
    + rewrite Qgt_alt in Hq. rewrite Hq. reflexivity.
    + exfalso.
      assert (Hp : (round_sd rm (q * f) <= 0)%Q).
      { apply round_sd_nonpos.
        rewrite <- (Qmult_0_l f). apply Qmult_le_compat_r; assumption. }
      assert (Hc : (round_sd rm (q * f) ?= m)%Q = Lt).
      { rewrite <- Qlt_alt. eapply Qle_lt_trans; eassumption. }
      rewrite Hc in Hlt. discriminate.
  - unfold isZero. destruct (Qnum f =? 0); [discriminate|].
    unfold isNeg. destruct (Z.ltb_spec (Qnum f) 0) as [Hneg|_].
    + exfalso. unfold Qle in Hf. cbn in Hf. lia.
    + cbn. discriminate.
Qed.

(** C6: with the configuration of the constructor (test mode on), the
    first scan during which no price can be fetched stores one triangular
    opportunity, the demonstration one, whose net profit is -56.50. *)
Theorem scanTriangularArbitrage_stores_a_loss :
  exists r,
    triangularRows
      (scanTriangularArbitrage ROUND_HALF_UP defaultConfig everyMillisecond
         noPrice (ofZ 20000000000) initialWorld) = [r] /\
    DatabaseService.id r = Some "test-triangular-1700000000006"%string /\
    DatabaseService.grossProfitUSD r = Some (lit 1250 2) /\
    DatabaseService.gasCostUSD r = Some (ofZ 60) /\
    DatabaseService.swapFeesUSD r = Some (ofZ 9) /\
    DatabaseService.netProfitUSD r = Some (lit (-5650) 2) /\
    lessThan (lit (-5650) 2) (ofZ 0) = true.
Proof.
  eexists. split; [vm_compute; reflexivity|].
  repeat split; vm_compute; reflexivity.
Qed.

End ComprehensiveArbitrageBotFacts.

(** ** Order and rounding of decimal.js numbers *)

Module DecimalOrder.
Import Decimal DecimalFacts.

Lemma pow10Q_pos (e : Z) : (0 < 10 ^ e)%Q.
Proof. apply Qpower_0_lt. reflexivity. Qed.

Lemma pow10Q_add (a b : Z) : (10 ^ (a + b) == 10 ^ a * 10 ^ b)%Q.
Proof. apply Qpower_plus. discriminate. Qed.

Lemma pow10Q_nonneg (k : Z) : 0 <= k -> (10 ^ k == inject_Z (10 ^ k))%Q.
Proof. intros Hk. rewrite Zpower_Qpower by assumption. reflexivity. Qed.

Lemma pow10Q_neg (k : Z) : k <= 0 -> (10 ^ k == 1 # Z.to_pos (10 ^ (- k)))%Q.
Proof.
  intros Hk. replace k with (- - k) at 1 by lia.
  rewrite Qpower_opp, pow10Q_nonneg by lia.
  pose proof (pow10_pos (- k) ltac:(lia)) as Hp.
  destruct (10 ^ (- k))%Z as [|p|p] eqn:E; try lia.
  reflexivity.
Qed.

Lemma roundQ_le rm (x y : Q) : (x <= y)%Q -> roundQ rm x <= roundQ rm y.
Proof.
  intros H. destruct rm; cbn [roundQ]; apply Qfloor_resp_le; [assumption|].
  apply Qplus_le_l. assumption.
Qed.

Lemma roundQ_Z rm (z : Z) : roundQ rm (inject_Z z) = z.
Proof.
  destruct rm; cbn [roundQ]; [apply Qfloor_Z|].
  unfold Qfloor, Qplus, inject_Z. cbn [Qnum Qden].
  change (Z.pos (1 * 2)) with 2.
  symmetry. apply (Z.div_unique_pos _ _ z 1); lia.
Qed.

Lemma roundQ_comp rm (x y : Q) : (x == y)%Q -> roundQ rm x = roundQ rm y.
Proof.
  intros H. destruct rm; cbn [roundQ]; apply Qfloor_comp; [assumption|].
  rewrite H. reflexivity.
Qed.

Lemma round_div_roundQ rm (a d : Z) :
  0 < d -> round_div rm a d = roundQ rm (a # Z.to_pos d).
Proof.
  intros Hd. destruct rm; cbn [round_div roundQ].
  - unfold Qfloor. rewrite Z2Pos.id by lia. reflexivity.
  - unfold Qfloor, Qplus. cbn [Qnum Qden].
    rewrite Pos2Z.inj_mul, Z2Pos.id by lia. f_equal; lia.
Qed.


Lemma Qmul_pow10_nonneg (n : Z) (d : positive) (k : Z) : 0 <= k ->
  ((n # d) * 10 ^ k == (n * 10 ^ k) # d)%Q.
Proof.
  intros Hk. rewrite pow10Q_nonneg by assumption.
  unfold Qeq, Qmult, inject_Z. cbn [Qnum Qden]. rewrite Pos.mul_1_r. reflexivity.
Qed.

Lemma Qmul_pow10_neg (n : Z) (d : positive) (k : Z) : k <= 0 ->
  ((n # d) * 10 ^ k == n # Z.to_pos (Zpos d * 10 ^ (- k)))%Q.
Proof.
  intros Hk. rewrite pow10Q_neg by assumption.
  pose proof (pow10_pos (- k) ltac:(lia)) as Hp.
  unfold Qeq, Qmult. cbn [Qnum Qden].
  rewrite Pos2Z.inj_mul, !Z2Pos.id by nia. lia.
Qed.

(** The rounding of a positive rational, in terms of its decimal exponent
    [e]: the scaled value [q * 10^(precision-1-e)] lies in
    [[10^(precision-1), 10^precision)] and is rounded to an integer. *)
Lemma round_sd_pos_spec rm (q : Q) : (0 < q)%Q ->
  exists e : Z,
    (10 ^ e <= q)%Q /\ (q < 10 ^ (e + 1))%Q /\
    (round_sd rm q
       == inject_Z (roundQ rm (q * 10 ^ (precision - 1 - e)))
          * 10 ^ (e - (precision - 1)))%Q.
Proof.
  intros Hq. destruct q as [n d].
  assert (Hn : 0 < n) by (unfold Qlt in Hq; cbn in Hq; lia).
  pose proof (exponent_spec n (Zpos d) Hn ltac:(lia)) as [Hpos Hneg].
  unfold round_sd. cbn [Qnum Qden].
  destruct (Z.eqb_spec n 0) as [|_]; [lia|].
  rewrite (Z.abs_eq n), (Z.sgn_pos n) by lia.
  set (e := exponent n (Zpos d)) in *.
  exists e. split; [|split].
  - destruct (Z.lt_ge_cases e 0) as [He|He].
    + destruct (Hneg He) as [H1 _]. rewrite pow10Q_neg by lia.
      pose proof (pow10_pos (- e) ltac:(lia)).
      unfold Qle. cbn [Qnum Qden]. rewrite Z2Pos.id by lia. lia.
    + destruct (Hpos He) as [H1 _]. rewrite pow10Q_nonneg by lia.
      unfold Qle, inject_Z. cbn [Qnum Qden]. lia.
  - destruct (Z.lt_ge_cases e 0) as [He|He].
    + destruct (Hneg He) as [_ H2]. rewrite pow10Q_neg by lia.
      replace (- (e + 1)) with (- e - 1) by lia.
      pose proof (pow10_pos (- e - 1) ltac:(lia)).
      unfold Qlt. cbn [Qnum Qden]. rewrite Z2Pos.id by lia. lia.
    + destruct (Hpos He) as [_ H2]. rewrite pow10Q_nonneg by lia.
      unfold Qlt, inject_Z. cbn [Qnum Qden]. lia.
  - rewrite Qred_correct. set (k := precision - 1 - e).
    replace (e - (precision - 1)) with (- k) by (unfold k; lia).
    unfold scale. destruct (Z.leb_spec 0 k) as [Hk|Hk].
    + rewrite (roundQ_comp rm _ _ (Qmul_pow10_nonneg n d k Hk)).
      rewrite round_div_roundQ by lia. cbn [Z.to_pos].
      rewrite Z.mul_1_l. rewrite pow10Q_neg by lia.
      replace (- - k) with k by lia.
      unfold Qeq, Qmult, inject_Z. cbn [Qnum Qden]. lia.
    + rewrite (roundQ_comp rm _ _ (Qmul_pow10_neg n d k ltac:(lia))).
      pose proof (pow10_pos (- k) ltac:(lia)).
      rewrite round_div_roundQ by nia.
      rewrite Z.mul_1_l. rewrite pow10Q_nonneg by lia.
      unfold Qeq, Qmult, inject_Z. cbn [Qnum Qden]. lia.
Qed.


Lemma scaled_bounds rm (q : Q) (e : Z) :
  (10 ^ e <= q)%Q -> (q < 10 ^ (e + 1))%Q ->
  10 ^ (precision - 1) <= roundQ rm (q * 10 ^ (precision - 1 - e))
    <= 10 ^ precision.
Proof.
  intros Hlo Hhi.
  pose proof (pow10Q_pos (precision - 1 - e)) as Hp.
  assert (L : (inject_Z (10 ^ (precision - 1)) <= q * 10 ^ (precision - 1 - e))%Q).
  { rewrite <- pow10Q_nonneg by (unfold precision; lia).
    replace (precision - 1) with (e + (precision - 1 - e)) at 1 by lia.
    rewrite pow10Q_add. apply Qmult_le_compat_r; [assumption|].
    apply Qlt_le_weak. assumption. }
  assert (U : (q * 10 ^ (precision - 1 - e) <= inject_Z (10 ^ precision))%Q).
  { rewrite <- pow10Q_nonneg by (unfold precision; lia).
    replace precision with ((e + 1) + (precision - 1 - e)) at 2 by lia.
    rewrite pow10Q_add. apply Qmult_le_compat_r; [|apply Qlt_le_weak; assumption].
    apply Qlt_le_weak. assumption. }
  split.
  - rewrite <- (roundQ_Z rm (10 ^ (precision - 1))). apply roundQ_le. assumption.
  - rewrite <- (roundQ_Z rm (10 ^ precision)). apply roundQ_le. assumption.
Qed.

Lemma round_sd_pos_le rm (q1 q2 : Q) :
  (0 < q1)%Q -> (q1 <= q2)%Q -> (round_sd rm q1 <= round_sd rm q2)%Q.
Proof.
  intros H1 H12.
  assert (H2 : (0 < q2)%Q) by (eapply Qlt_le_trans; eassumption).
  destruct (round_sd_pos_spec rm q1 H1) as (e1 & L1 & U1 & ->).
  destruct (round_sd_pos_spec rm q2 H2) as (e2 & L2 & U2 & ->).
  assert (He : e1 <= e2).
  { assert (Hlt : (10 ^ e1 < 10 ^ (e2 + 1))%Q).
    { eapply Qle_lt_trans; [exact L1|]. eapply Qle_lt_trans; eassumption. }
    apply Qpower_lt_compat_l_inv in Hlt; [lia|reflexivity]. }
  pose proof (scaled_bounds rm q1 e1 L1 U1) as [_ B1].
  pose proof (scaled_bounds rm q2 e2 L2 U2) as [B2 _].
  destruct (Z.eq_dec e1 e2) as [<-|Hne].
  - apply Qmult_le_compat_r; [|apply Qlt_le_weak, pow10Q_pos].
    rewrite <- Zle_Qle. apply roundQ_le.
    apply Qmult_le_compat_r; [assumption|apply Qlt_le_weak, pow10Q_pos].
  - apply Qle_trans with (10 ^ (e1 + 1))%Q.
    + replace (e1 + 1) with (precision + (e1 - (precision - 1))) by lia.
      rewrite pow10Q_add, (pow10Q_nonneg precision) by (unfold precision; lia).
      apply Qmult_le_compat_r; [|apply Qlt_le_weak, pow10Q_pos].
      rewrite <- Zle_Qle. assumption.
    + apply Qle_trans with (10 ^ e2)%Q.
      * apply Qpower_le_compat_l; [lia|discriminate].
      * replace e2 with ((precision - 1) + (e2 - (precision - 1))) at 1 by lia.
        rewrite pow10Q_add, (pow10Q_nonneg (precision - 1))
          by (unfold precision; lia).
        apply Qmult_le_compat_r; [|apply Qlt_le_weak, pow10Q_pos].
        rewrite <- Zle_Qle. assumption.
Qed.

Lemma round_sd_0 rm (q : Q) : (q == 0)%Q -> round_sd rm q = 0%Q.
Proof.
  intros H. unfold round_sd.
  assert (Qnum q = 0) by (unfold Qeq in H; cbn in H; lia).
  destruct (Z.eqb_spec (Qnum q) 0); [reflexivity|contradiction].
Qed.

Lemma round_sd_gt_0 rm (q : Q) : (0 < q)%Q -> (0 < round_sd rm q)%Q.
Proof.
  intros H. destruct (round_sd_pos_spec rm q H) as (e & L & U & ->).
  pose proof (scaled_bounds rm q e L U) as [B _].
  apply Qmult_lt_0_compat; [|apply pow10Q_pos].
  change 0%Q with (inject_Z 0). rewrite <- Zlt_Qlt.
  pose proof (pow10_pos (precision - 1) ltac:(unfold precision; lia)). lia.
Qed.

Lemma round_sd_opp rm (q : Q) : (round_sd rm (- q) == - round_sd rm q)%Q.
Proof.
  unfold round_sd. destruct q as [n d]. cbn [Qopp Qnum Qden].
  destruct (Z.eqb_spec n 0) as [->|Hn]; [reflexivity|].
  destruct (Z.eqb_spec (- n) 0) as [|_]; [lia|].
  rewrite Z.abs_opp, Z.sgn_opp, !Qred_correct.
  set (k := precision - 1 - exponent (Z.abs n) (Z.pos d)).
  set (r := if 0 <=? k then _ else _).
  unfold scale. destruct (0 <=? k); unfold Qeq, Qopp; cbn [Qnum Qden]; lia.
Qed.

Lemma round_sd_ge_0 rm (q : Q) : (0 <= q)%Q -> (0 <= round_sd rm q)%Q.
Proof.
  intros H. destruct (Qlt_le_dec 0 q) as [Hp|Hz].
  - apply Qlt_le_weak, round_sd_gt_0. assumption.
  - rewrite round_sd_0; [apply Qle_refl|]. apply Qle_antisym; assumption.
Qed.

Lemma round_sd_lt_0 rm (q : Q) : (q < 0)%Q -> (round_sd rm q < 0)%Q.
Proof.
  intros H. assert (Hp : (0 < - q)%Q).
  { apply Qopp_lt_compat in H. exact H. }
  pose proof (round_sd_gt_0 rm _ Hp) as H1. rewrite round_sd_opp in H1.
  apply Qopp_lt_compat in H1. rewrite Qopp_involutive in H1. exact H1.
Qed.

Lemma round_sd_le_0 rm (q : Q) : (q <= 0)%Q -> (round_sd rm q <= 0)%Q.
Proof.
  intros H. destruct (Qlt_le_dec q 0) as [Hp|Hz].
  - apply Qlt_le_weak, round_sd_lt_0. assumption.
  - rewrite round_sd_0; [apply Qle_refl|]. apply Qle_antisym; assumption.
Qed.

(** The rounding is monotone. *)
Lemma round_sd_le rm (q1 q2 : Q) :
  (q1 <= q2)%Q -> (round_sd rm q1 <= round_sd rm q2)%Q.
Proof.
  intros H. destruct (Qlt_le_dec 0 q1) as [H1|H1].
  - apply round_sd_pos_le; assumption.
  - destruct (Qlt_le_dec q2 0) as [H2|H2].
    + assert (Hp : (0 < - q2)%Q) by (apply Qopp_lt_compat in H2; exact H2).
      assert (Hle : (- q2 <= - q1)%Q) by (apply Qopp_le_compat; assumption).
      pose proof (round_sd_pos_le rm _ _ Hp Hle) as Hm.
      rewrite !round_sd_opp in Hm. apply Qopp_le_compat in Hm.
      rewrite !Qopp_involutive in Hm. exact Hm.
    + apply Qle_trans with 0%Q; [apply round_sd_le_0|apply round_sd_ge_0];
        assumption.
Qed.


Lemma exponent_unique (g : Q) (a b : Z) :
  (10 ^ a <= g)%Q -> (g < 10 ^ (a + 1))%Q ->
  (10 ^ b <= g)%Q -> (g < 10 ^ (b + 1))%Q -> a = b.
Proof.
  intros La Ua Lb Ub.
  assert (H1 : (10 ^ a < 10 ^ (b + 1))%Q) by (eapply Qle_lt_trans; eassumption).
  assert (H2 : (10 ^ b < 10 ^ (a + 1))%Q) by (eapply Qle_lt_trans; eassumption).
  apply Qpower_lt_compat_l_inv in H1; [|reflexivity].
  apply Qpower_lt_compat_l_inv in H2; [|reflexivity]. lia.
Qed.

(** A number [m * 10^j] with at most [precision] digits in [m] is left
    alone by the rounding, whatever its magnitude. *)
Lemma round_sd_representable_pos rm (g : Q) (m j : Z) :
  0 < m -> m < 10 ^ precision -> (g == inject_Z m * 10 ^ j)%Q ->
  (round_sd rm g == g)%Q.
Proof.
  intros Hm Hlt Hg.
  destruct (log10_spec m Hm) as (HL & Hlo & Hhi). set (L := log10 m) in *.
  assert (HL19 : L <= precision - 1).
  { assert (10 ^ L < 10 ^ precision) by lia.
    apply Z.pow_lt_mono_r_iff in H; unfold precision in *; lia. }
  assert (Hpos : (0 < g)%Q).
  { rewrite Hg. apply Qmult_lt_0_compat; [|apply pow10Q_pos].
    change 0%Q with (inject_Z 0). rewrite <- Zlt_Qlt. assumption. }
  assert (Lg : (10 ^ (L + j) <= g)%Q).
  { rewrite Hg, pow10Q_add, (pow10Q_nonneg L) by assumption.
    apply Qmult_le_compat_r; [|apply Qlt_le_weak, pow10Q_pos].
    rewrite <- Zle_Qle. assumption. }
  assert (Ug : (g < 10 ^ (L + j + 1))%Q).
  { rewrite Hg. replace (L + j + 1) with ((L + 1) + j) by lia.
    rewrite pow10Q_add, (pow10Q_nonneg (L + 1)) by lia.
    apply Qmult_lt_compat_r; [apply pow10Q_pos|].
    rewrite <- Zlt_Qlt. assumption. }
  destruct (round_sd_pos_spec rm g Hpos) as (e & Le & Ue & ->).
  assert (e = L + j) by (eapply exponent_unique; eassumption). subst e.
  assert (Hx : (g * 10 ^ (precision - 1 - (L + j))
                == inject_Z (m * 10 ^ (precision - 1 - L)))%Q).
  { rewrite Hg, inject_Z_mult, <- pow10Q_nonneg by lia.
    rewrite <- Qmult_assoc, <- pow10Q_add.
    replace (j + (precision - 1 - (L + j))) with (precision - 1 - L) by lia.
    reflexivity. }
  rewrite (roundQ_comp rm _ _ Hx), roundQ_Z, Hg, inject_Z_mult.
  rewrite <- pow10Q_nonneg by lia.
  rewrite <- Qmult_assoc, <- pow10Q_add.
  replace (precision - 1 - L + (L + j - (precision - 1))) with j by lia.
  reflexivity.
Qed.

(** Rounding twice is rounding once. *)
Lemma round_sd_idempotent_Qeq rm (q : Q) :
  (round_sd rm (round_sd rm q) == round_sd rm q)%Q.
Proof.
  assert (P : forall q, (0 < q)%Q ->
              (round_sd rm (round_sd rm q) == round_sd rm q)%Q).
  { intros p Hp. destruct (round_sd_pos_spec rm p Hp) as (e & L & U & E).
    pose proof (scaled_bounds rm p e L U) as [B1 B2].
    set (r := roundQ rm (p * 10 ^ (precision - 1 - e))) in *.
    pose proof (pow10_pos (precision - 1) ltac:(unfold precision; lia)).
    destruct (Z.eq_dec r (10 ^ precision)) as [Hr|Hr].
    - apply (round_sd_representable_pos rm _ 1 (e + 1)).
      + lia.
      + unfold precision. lia.
      + rewrite E, Hr, <- pow10Q_nonneg, <- pow10Q_add, Qmult_1_l
          by (unfold precision; lia).
        replace (precision + (e - (precision - 1))) with (e + 1) by lia.
        reflexivity.
    - apply (round_sd_representable_pos rm _ r (e - (precision - 1)));
        [lia|lia|exact E]. }
  destruct (Qlt_le_dec 0 q) as [H1|H1]; [apply P; assumption|].
  destruct (Qlt_le_dec q 0) as [H2|H2].
  - assert (Hp : (0 < - q)%Q) by (apply Qopp_lt_compat in H2; exact H2).
    pose proof (P _ Hp) as E.
    assert (E1 : (round_sd rm (round_sd rm (- q))
                  == - round_sd rm (round_sd rm q))%Q).
    { rewrite <- round_sd_opp.
      assert (Hle : forall a b, (a == b)%Q -> (round_sd rm a == round_sd rm b)%Q).
      { intros a b Hab. apply Qle_antisym; apply round_sd_le; rewrite Hab;
          apply Qle_refl. }
      apply Hle. apply round_sd_opp. }
    rewrite E1, round_sd_opp in E.
    rewrite <- (Qopp_involutive (round_sd rm (round_sd rm q))), E.
    apply Qopp_involutive.
  - rewrite (round_sd_0 rm q) by (apply Qle_antisym; assumption).
    rewrite round_sd_0 by reflexivity. reflexivity.
Qed.

Lemma round_sd_canonical rm (q : Q) : Qred (round_sd rm q) = round_sd rm q.
Proof.
  unfold round_sd. destruct (Qnum q =? 0); [reflexivity|].
  apply Qred_complete, Qred_correct.
Qed.

Lemma round_sd_comp rm (a b : Q) : (a == b)%Q -> round_sd rm a = round_sd rm b.
Proof.
  intros Hab. rewrite <- (round_sd_canonical rm a), <- (round_sd_canonical rm b).
  apply Qred_complete.
  apply Qle_antisym; apply round_sd_le; rewrite Hab; apply Qle_refl.
Qed.

Lemma round_sd_idempotent rm (q : Q) :
  round_sd rm (round_sd rm q) = round_sd rm q.
Proof.
  transitivity (Qred (round_sd rm (round_sd rm q)));
    [symmetry; apply round_sd_canonical|].
  transitivity (Qred (round_sd rm q)); [|apply round_sd_canonical].
  apply Qred_complete, round_sd_idempotent_Qeq.
Qed.

(** The comparisons of two finite numbers are those of the rationals. *)
Lemma lessThan_Fin (a b : Q) : lessThan (Fin a) (Fin b) = true <-> (a < b)%Q.
Proof.
  unfold lessThan, cmp. rewrite Qlt_alt.
  destruct (a ?= b)%Q; split; intros H; try discriminate; reflexivity.
Qed.

Lemma greaterThan_Fin (a b : Q) : greaterThan (Fin a) (Fin b) = true <-> (b < a)%Q.
Proof.
  unfold greaterThan, cmp. rewrite Qlt_alt, <- (Qcompare_antisym a b).
  destruct (a ?= b)%Q; cbn; split; intros H; try discriminate; reflexivity.
Qed.

Lemma lessThanOrEqualTo_Fin (a b : Q) :
  lessThanOrEqualTo (Fin a) (Fin b) = true <-> (a <= b)%Q.
Proof.
  unfold lessThanOrEqualTo, cmp. rewrite Qle_alt.
  destruct (a ?= b)%Q; split; intros H; try discriminate; try reflexivity;
    try congruence.
Qed.

Lemma greaterThanOrEqualTo_Fin (a b : Q) :
  greaterThanOrEqualTo (Fin a) (Fin b) = true <-> (b <= a)%Q.
Proof.
  unfold greaterThanOrEqualTo, cmp. rewrite Qle_alt, <- (Qcompare_antisym a b).
  destruct (a ?= b)%Q; cbn; split; intros H; try discriminate; try reflexivity;
    try congruence.
Qed.

Lemma greaterThan_false_Fin (a b : Q) :
  greaterThan (Fin a) (Fin b) = false <-> (a <= b)%Q.
Proof.
  rewrite <- not_true_iff_false, greaterThan_Fin. split.
  - apply Qnot_lt_le.
  - apply Qle_not_lt.
Qed.

Lemma lessThan_false_Fin (a b : Q) :
  lessThan (Fin a) (Fin b) = false <-> (b <= a)%Q.
Proof.
  rewrite <- not_true_iff_false, lessThan_Fin. split.
  - apply Qnot_lt_le.
  - apply Qle_not_lt.
Qed.

End DecimalOrder.

(** ** Multi-hop quotes and the single swap *)

Module UniswapV2MathPaths.

Import Decimal DecimalFacts UniswapV2Math UniswapV2MathFacts.

Lemma hopsOut_spec rm (reserves : list (Decimal.t * Decimal.t)) :
  forall current later,
  hopsOut rm current reserves = Ok later ->
  List.length later = List.length reserves /\
  forall i rIn rOut a b,
    nth_error reserves i = Some (rIn, rOut) ->
    nth_error (current :: later) i = Some a ->
    nth_error (current :: later) (S i) = Some b ->
    getAmountOut rm a rIn rOut = Ok b.
Proof.
  induction reserves as [|[rIn0 rOut0] rest IH]; intros current later H.
  - cbn in H. injection H as <-. split; [reflexivity|].
    intros i ? ? ? ? Hr. destruct i; discriminate.
  - cbn [hopsOut] in H.
    destruct (getAmountOut rm current rIn0 rOut0) as [next|] eqn:Hhop;
      [|discriminate].
    destruct (hopsOut rm next rest) as [l|] eqn:Hrest; [|discriminate].
    injection H as <-. destruct (IH _ _ Hrest) as [Hlen Hchain].
    split; [cbn; f_equal; assumption|].
    intros [|i] rIn rOut a b Hr Ha Hb.
    + cbn in Hr, Ha, Hb. congruence.
    + cbn in Hr. cbn [nth_error] in Ha, Hb. eapply Hchain; eassumption.
Qed.

(** X1: when [getAmountsOut] returns, there is one amount per token of the
    path, the first is the input as given, and every further amount is the
    [getAmountOut] of the amount before it on the reserves of its hop. *)
Theorem getAmountsOut_hop_by_hop rm (amountIn : Decimal.t) (path : list string)
  (reserves : list (Decimal.t * Decimal.t)) (amounts : list Decimal.t) :
  getAmountsOut rm amountIn path reserves = Amounts amounts ->
  List.length amounts = List.length path /\
  nth_error amounts 0 = Some amountIn /\
  forall i rIn rOut a b,
    nth_error reserves i = Some (rIn, rOut) ->
    nth_error amounts i = Some a ->
    nth_error amounts (S i) = Some b ->
    getAmountOut rm a rIn rOut = Ok b.
Proof.
  unfold getAmountsOut. intros H.
  destruct (Nat.ltb_spec (List.length path) 2) as [|Hp]; [discriminate|].
  destruct (Nat.eqb_spec (List.length reserves) (List.length path - 1)) as [Hr|];
    [|discriminate].
  cbn [negb] in H.
  destruct (hopsOut rm amountIn reserves) as [later|] eqn:Hh; [|discriminate].
  injection H as <-. destruct (hopsOut_spec rm _ _ _ Hh) as [Hlen Hchain].
  split; [cbn [List.length]; lia|]. split; [reflexivity|]. exact Hchain.
Qed.

Lemma getAmountsOut_hop_by_hop_witness :
  List.length [ofZ 1000; ofZ 1992; ofZ 496] = List.length ["A"; "B"; "C"]%string /\
  nth_error [ofZ 1000; ofZ 1992; ofZ 496] 0 = Some (ofZ 1000) /\
  forall i rIn rOut a b,
    nth_error [(ofZ 1000000, ofZ 2000000); (ofZ 2000000, ofZ 500000)] i
      = Some (rIn, rOut) ->
    nth_error [ofZ 1000; ofZ 1992; ofZ 496] i = Some a ->
    nth_error [ofZ 1000; ofZ 1992; ofZ 496] (S i) = Some b ->
    getAmountOut ROUND_HALF_UP a rIn rOut = Ok b.
Proof.
  apply (getAmountsOut_hop_by_hop ROUND_HALF_UP (ofZ 1000) ["A"; "B"; "C"]%string
           [(ofZ 1000000, ofZ 2000000); (ofZ 2000000, ofZ 500000)]).
  vm_compute. reflexivity.
Defined.


Lemma hopsOut_app rm (before after : list (Decimal.t * Decimal.t)) :
  forall current earlier,
  hopsOut rm current before = Ok earlier ->
  hopsOut rm current (before ++ after)
  = match hopsOut rm (last earlier current) after with
    | Ok later => Ok (earlier ++ later)
    | Throw e => Throw e
    end.
Proof.
  induction before as [|[rIn0 rOut0] rest IH]; intros current earlier H.
  - cbn in H. injection H as <-. cbn. destruct (hopsOut rm current after);
      reflexivity.
  - cbn [hopsOut app] in *.
    destruct (getAmountOut rm current rIn0 rOut0) as [next|]; [|discriminate].
    destruct (hopsOut rm next rest) as [l|] eqn:Hrest; [|discriminate].
    injection H as <-. rewrite (IH _ _ Hrest).
    replace (last (next :: l) current) with (last l next)
      by (clear; revert next; induction l as [|y l IHl]; intros next;
          [reflexivity|cbn; destruct l; [reflexivity|apply IHl]]).
    destruct (hopsOut rm (last l next) after); reflexivity.
Qed.

Lemma last_cons_default (l : list Decimal.t) (x : Decimal.t) :
  last (x :: l) x = last l x.
Proof. destruct l; reflexivity. Qed.

(** X2: quotes compose along a path: when a path is quoted and a second
    path, starting at the token where the first ends, is quoted for the
    last amount of the first, then the joined path on the joined reserves
    is quoted with the amounts of the first followed by those of the
    second. *)
Theorem getAmountsOut_compose rm (amountIn : Decimal.t) (path1 path2 : list string)
  (reserves1 reserves2 : list (Decimal.t * Decimal.t))
  (amounts1 amounts2 : list Decimal.t) :
  getAmountsOut rm amountIn path1 reserves1 = Amounts amounts1 ->
  getAmountsOut rm (last amounts1 amountIn) path2 reserves2 = Amounts amounts2 ->
  getAmountsOut rm amountIn (path1 ++ tl path2) (reserves1 ++ reserves2)
  = Amounts (amounts1 ++ tl amounts2).
Proof.
  unfold getAmountsOut. intros H1 H2.
  destruct (Nat.ltb_spec (List.length path1) 2) as [|Hp1]; [discriminate|].
  destruct (Nat.eqb_spec (List.length reserves1) (List.length path1 - 1)) as [Hr1|];
    [|discriminate].
  destruct (Nat.ltb_spec (List.length path2) 2) as [|Hp2]; [discriminate|].
  destruct (Nat.eqb_spec (List.length reserves2) (List.length path2 - 1)) as [Hr2|];
    [|discriminate].
  cbn [negb] in H1, H2.
  destruct (hopsOut rm amountIn reserves1) as [l1|] eqn:Hh1; [|discriminate].
  injection H1 as <-. rewrite last_cons_default in H2.
  destruct (hopsOut rm (last l1 amountIn) reserves2) as [l2|] eqn:Hh2;
    [|discriminate].
  injection H2 as <-. cbn [tl].
  assert (Hlen : List.length (path1 ++ tl path2)
                 = (List.length path1 + (List.length path2 - 1))%nat).
  { rewrite length_app. destruct path2; cbn; lia. }
  destruct (Nat.ltb_spec (List.length (path1 ++ tl path2)) 2) as [|_]; [lia|].
  destruct (Nat.eqb_spec (List.length (reserves1 ++ reserves2))
              (List.length (path1 ++ tl path2) - 1)) as [_|Hne].
  - cbn [negb]. rewrite (hopsOut_app rm _ _ _ _ Hh1), Hh2. reflexivity.
  - rewrite length_app in Hne. lia.
Qed.

Lemma getAmountsOut_compose_witness :
  getAmountsOut ROUND_HALF_UP (ofZ 1000) (["A"; "B"]%string ++ tl ["B"; "C"]%string)
    ([(ofZ 1000000, ofZ 2000000)] ++ [(ofZ 2000000, ofZ 500000)])
  = Amounts ([ofZ 1000; ofZ 1992] ++ tl [ofZ 1992; ofZ 496]).
Proof.
  apply (getAmountsOut_compose ROUND_HALF_UP (ofZ 1000) ["A"; "B"]%string
           ["B"; "C"]%string [(ofZ 1000000, ofZ 2000000)]
           [(ofZ 2000000, ofZ 500000)]).
  - vm_compute. reflexivity.
  - vm_compute. reflexivity.
Defined.

(** X3: a hop that pays out nothing stops a longer path: when a hop other
    than the last one returns an amount that is not positive, the whole
    quote throws "Invalid amountIn" instead of returning zeros. *)
Theorem getAmountsOut_zero_mid_path rm (amountIn : Decimal.t) (path : list string)
  (before after : list (Decimal.t * Decimal.t)) (rIn rOut : Decimal.t)
  (next : Decimal.t * Decimal.t) (earlier : list Decimal.t) (z : Decimal.t) :
  List.length (before ++ (rIn, rOut) :: next :: after) = (List.length path - 1)%nat ->
  hopsOut rm amountIn before = Ok earlier ->
  getAmountOut rm (last earlier amountIn) rIn rOut = Ok z ->
  lessThanOrEqualTo z (ofZ 0) = true ->
  getAmountsOut rm amountIn path (before ++ (rIn, rOut) :: next :: after)
  = PathThrow (HopFailed InvalidAmountIn).
Proof.
  intros Hlen Hbefore Hhop Hz. unfold getAmountsOut.
  rewrite length_app in Hlen. cbn [List.length] in Hlen.
  destruct (Nat.ltb_spec (List.length path) 2) as [|Hp]; [lia|].
  rewrite length_app. cbn [List.length].
  destruct (Nat.eqb_spec (List.length before + S (S (List.length after)))
              (List.length path - 1)) as [_|]; [|lia].
  cbn [negb]. rewrite (hopsOut_app rm _ _ _ _ Hbefore).
  cbn [hopsOut]. rewrite Hhop. destruct next as [rIn' rOut'].
  cbn [hopsOut]. unfold getAmountOut at 1. rewrite Hz. reflexivity.
Qed.

Lemma getAmountsOut_zero_mid_path_witness :
  getAmountsOut ROUND_HALF_UP (ofZ 1000) ["A"; "B"; "C"; "D"]%string
    ([(ofZ 1000000, ofZ 2000000)]
       ++ (ofZ 10000000, ofZ 1000) :: (ofZ 5000, ofZ 5000) :: [])
  = PathThrow (HopFailed InvalidAmountIn).
Proof.
  apply (getAmountsOut_zero_mid_path ROUND_HALF_UP (ofZ 1000)
           ["A"; "B"; "C"; "D"]%string [(ofZ 1000000, ofZ 2000000)] []
           (ofZ 10000000) (ofZ 1000) (ofZ 5000, ofZ 5000) [ofZ 1992] (ofZ 0)).
  - reflexivity.
  - vm_compute. reflexivity.
  - vm_compute. reflexivity.
  - vm_compute. reflexivity.
Defined.

Lemma hopsIn_spec rm (earlier : list (Decimal.t * Decimal.t)) :
  forall current later amounts,
  hopsIn rm earlier current later = Ok amounts ->
  exists pre,
    amounts = pre ++ current :: later /\
    List.length pre = List.length earlier /\
    forall i rIn rOut a b,
      nth_error (rev earlier) i = Some (rIn, rOut) ->
      nth_error (pre ++ [current]) i = Some a ->
      nth_error (pre ++ [current]) (S i) = Some b ->
      getAmountIn rm b rIn rOut = Ok a.
Proof.
  induction earlier as [|[rIn0 rOut0] rest IH]; intros current later amounts H.
  - cbn in H. injection H as <-. exists []. split; [reflexivity|].
    split; [reflexivity|]. intros i ? ? ? ? Hr. destruct i; discriminate.
  - cbn [hopsIn] in H.
    destruct (getAmountIn rm current rIn0 rOut0) as [previous|] eqn:Hhop;
      [|discriminate].
    destruct (IH _ _ _ H) as (pre & -> & Hlen & Hchain).
    exists (pre ++ [previous]). split; [rewrite <- app_assoc; reflexivity|].
    split; [rewrite length_app; cbn; lia|].
    intros i rIn rOut a b Hr Ha Hb. cbn [rev] in Hr.
    assert (Hrl : List.length (rev rest) = List.length pre)
      by (rewrite length_rev; lia).
    destruct (Nat.lt_ge_cases i (List.length pre)) as [Hi|Hi].
    + rewrite nth_error_app1 in Hr by lia.
      rewrite nth_error_app1 in Ha by (rewrite length_app; cbn; lia).
      rewrite nth_error_app1 in Hb by (rewrite length_app; cbn; lia).
      eapply Hchain; eassumption.
    + assert (Hl : (i < List.length (rev rest ++ [(rIn0, rOut0)]))%nat)
        by (apply nth_error_Some; congruence).
      rewrite length_app in Hl. cbn in Hl.
      assert (i = List.length pre) by lia. subst i.
      rewrite nth_error_app2, Hrl, Nat.sub_diag in Hr by lia.
      cbn in Hr. injection Hr as <- <-.
      rewrite nth_error_app1 in Ha by (rewrite length_app; cbn; lia).
      rewrite nth_error_app2, Nat.sub_diag in Ha by lia. cbn in Ha.
      rewrite nth_error_app2 in Hb by (rewrite length_app; cbn; lia).
      rewrite length_app in Hb. cbn [List.length] in Hb.
      replace (S (List.length pre) - (List.length pre + 1))%nat with 0%nat in Hb
        by lia.
      cbn in Hb. congruence.
Qed.

(** X4: when [getAmountsIn] returns, there is one amount per token of the
    path, the last is the wanted output as given, and every earlier amount
    is the [getAmountIn] of the amount after it on the reserves of its
    hop. *)
Theorem getAmountsIn_hop_by_hop rm (amountOut : Decimal.t) (path : list string)
  (reserves : list (Decimal.t * Decimal.t)) (amounts : list Decimal.t) :
  getAmountsIn rm amountOut path reserves = Amounts amounts ->
  List.length amounts = List.length path /\
  nth_error amounts (List.length path - 1) = Some amountOut /\
  forall i rIn rOut a b,
    nth_error reserves i = Some (rIn, rOut) ->
    nth_error amounts i = Some a ->
    nth_error amounts (S i) = Some b ->
    getAmountIn rm b rIn rOut = Ok a.
Proof.
  unfold getAmountsIn. intros H.
  destruct (Nat.ltb_spec (List.length path) 2) as [|Hp]; [discriminate|].
  destruct (Nat.eqb_spec (List.length reserves) (List.length path - 1)) as [Hr|];
    [|discriminate].
  cbn [negb] in H.
  destruct (hopsIn rm (rev reserves) amountOut []) as [l|] eqn:Hh; [|discriminate].
  injection H as <-. destruct (hopsIn_spec rm _ _ _ _ Hh) as (pre & -> & Hlen & Hchain).
  rewrite length_rev in Hlen. rewrite rev_involutive in Hchain.
  split; [rewrite length_app; cbn; lia|].
  split; [rewrite nth_error_app2 by lia;
          replace (List.length path - 1 - List.length pre)%nat with 0%nat by lia;
          reflexivity|].
  exact Hchain.
Qed.

Lemma getAmountsIn_hop_by_hop_witness :
  List.length [ofZ 1011; ofZ 2010; ofZ 500] = List.length ["A"; "B"; "C"]%string /\
  nth_error [ofZ 1011; ofZ 2010; ofZ 500] (List.length ["A"; "B"; "C"]%string - 1)
    = Some (ofZ 500) /\
  forall i rIn rOut a b,
    nth_error [(ofZ 1000000, ofZ 2000000); (ofZ 2000000, ofZ 500000)] i
      = Some (rIn, rOut) ->
    nth_error [ofZ 1011; ofZ 2010; ofZ 500] i = Some a ->
    nth_error [ofZ 1011; ofZ 2010; ofZ 500] (S i) = Some b ->
    getAmountIn ROUND_HALF_UP b rIn rOut = Ok a.
Proof.
  apply (getAmountsIn_hop_by_hop ROUND_HALF_UP (ofZ 500) ["A"; "B"; "C"]%string
           [(ofZ 1000000, ofZ 2000000); (ofZ 2000000, ofZ 500000)]).
  vm_compute. reflexivity.
Defined.


(** *** The exact formula within the working precision *)

Lemma formula_reaches (a aOut rIn rOut : Z) :
  0 < a -> 0 < rIn -> 0 < aOut < rOut ->
  (aOut <= AmmMath.getAmountOut a rIn rOut
   <-> rIn * aOut * 1000 <= a * ((rOut - aOut) * 997)).
Proof.
  intros Ha Hi Ho. unfold AmmMath.getAmountOut.
  assert (Hd : 0 < rIn * 1000 + a * 997) by lia.
  split; intros H.
  - pose proof (Z.mul_div_le (a * 997 * rOut) _ Hd). nia.
  - apply Z.div_le_lower_bound; [assumption|]. nia.
Qed.

Lemma formula_monotone (a1 a2 rIn rOut : Z) :
  0 < a1 <= a2 -> 0 < rIn -> 0 < rOut ->
  AmmMath.getAmountOut a1 rIn rOut <= AmmMath.getAmountOut a2 rIn rOut.
Proof.
  intros Ha Hi Ho. unfold AmmMath.getAmountOut.
  set (d1 := rIn * 1000 + a1 * 997). set (d2 := rIn * 1000 + a2 * 997).
  set (n1 := a1 * 997 * rOut). set (n2 := a2 * 997 * rOut).
  assert (Hd1 : 0 < d1) by (unfold d1; lia).
  assert (Hd2 : 0 < d2) by (unfold d2; lia).
  apply Z.div_le_lower_bound; [assumption|].
  pose proof (Z.mul_div_le n1 d1 Hd1) as Hq. set (q := n1 / d1) in *.
  assert (Hx : d2 * n1 <= d1 * n2).
  { assert (E : d1 * n2 - d2 * n1 = rIn * 1000 * 997 * rOut * (a2 - a1))
      by (unfold d1, d2, n1, n2; ring).
    assert (0 <= rIn * 1000 * 997 * rOut * (a2 - a1))
      by (apply Z.mul_nonneg_nonneg; lia).
    lia. }
  assert (Hy : d2 * (d1 * q) <= d2 * n1)
    by (apply Z.mul_le_mono_nonneg_l; lia).
  apply (Z.mul_le_mono_pos_l _ _ d1); [assumption|].
  replace (d1 * (d2 * q)) with (d2 * (d1 * q)) by ring. lia.
Qed.

(** X5: within the working precision a larger input never buys less:
    [getAmountOut] is monotone in [amountIn]. *)
Theorem getAmountOut_monotone rm (a1 a2 rIn rOut : Z) :
  0 < a1 <= a2 -> 0 < rIn -> 0 < rOut ->
  a2 * 997 * rOut < 2 * 10 ^ 19 -> rIn * 1000 + a2 * 997 < 10 ^ 20 ->
  exists o1 o2,
    getAmountOut rm (ofZ a1) (ofZ rIn) (ofZ rOut) = Ok (ofZ o1) /\
    getAmountOut rm (ofZ a2) (ofZ rIn) (ofZ rOut) = Ok (ofZ o2) /\
    o1 <= o2.
Proof.
  intros Ha Hi Ho Hn Hd.
  exists (AmmMath.getAmountOut a1 rIn rOut), (AmmMath.getAmountOut a2 rIn rOut).
  split; [|split].
  - apply getAmountOut_exact; try lia; nia.
  - apply getAmountOut_exact; lia.
  - apply formula_monotone; lia.
Qed.

Lemma getAmountOut_monotone_witness :
  exists o1 o2,
    getAmountOut ROUND_DOWN (ofZ 1000) (ofZ 1000000) (ofZ 2000000) = Ok (ofZ o1) /\
    getAmountOut ROUND_DOWN (ofZ 1001) (ofZ 1000000) (ofZ 2000000) = Ok (ofZ o2) /\
    o1 <= o2.
Proof.
  apply (getAmountOut_monotone ROUND_DOWN 1000 1001 1000000 2000000);
    [lia | lia | lia | vm_compute; reflexivity | vm_compute; reflexivity].
Defined.

(** X6: within the working precision a swap never lowers the product of
    the reserves: with the fee left in the pool,
    [(rIn + aIn) * (rOut - out) >= rIn * rOut], and the pool is never
    emptied. *)
Theorem getAmountOut_constant_product rm (aIn rIn rOut : Z) :
  0 < aIn -> 0 < rIn -> 0 < rOut ->
  aIn * 997 * rOut < 2 * 10 ^ 19 -> rIn * 1000 + aIn * 997 < 10 ^ 20 ->
  exists out,
    getAmountOut rm (ofZ aIn) (ofZ rIn) (ofZ rOut) = Ok (ofZ out) /\
    0 <= out < rOut /\
    rIn * rOut * 1000 <= (rIn * 1000 + aIn * 997) * (rOut - out) /\
    rIn * rOut <= (rIn + aIn) * (rOut - out).
Proof.
  intros Ha Hi Ho Hn Hd. exists (AmmMath.getAmountOut aIn rIn rOut).
  split; [apply getAmountOut_exact; assumption|].
  pose proof (getAmountOut_formula_bounds aIn rIn rOut Ha Hi Ho) as Hb.
  split; [assumption|].
  unfold AmmMath.getAmountOut in *.
  assert (Hd0 : 0 < rIn * 1000 + aIn * 997) by lia.
  pose proof (Z.mul_div_le (aIn * 997 * rOut) _ Hd0) as Hq.
  set (out := aIn * 997 * rOut / (rIn * 1000 + aIn * 997)) in *.
  split; nia.
Qed.

Lemma getAmountOut_constant_product_witness :
  exists out,
    getAmountOut ROUND_HALF_UP (ofZ 500) (ofZ 1000) (ofZ 1000) = Ok (ofZ out) /\
    0 <= out < 1000 /\
    1000 * 1000 * 1000 <= (1000 * 1000 + 500 * 997) * (1000 - out) /\
    1000 * 1000 <= (1000 + 500) * (1000 - out).
Proof.
  apply (getAmountOut_constant_product ROUND_HALF_UP 500 1000 1000);
    [lia | lia | lia | vm_compute; reflexivity | vm_compute; reflexivity].
Defined.

(** X7: within the working precision [getAmountIn] returns exactly one
    unit more than the least input that buys [amountOut]: one unit less
    still reaches [amountOut], and nothing below that does. *)
Theorem getAmountIn_one_above_least rm (aOut rIn rOut : Z) :
  0 < aOut < rOut -> 0 < rIn ->
  (rIn * aOut * 1000 + 2) * 997 * rOut < 2 * 10 ^ 19 ->
  exists aIn,
    getAmountIn rm (ofZ aOut) (ofZ rIn) (ofZ rOut) = Ok (ofZ aIn) /\
    1 < aIn /\
    (exists out,
       getAmountOut rm (ofZ (aIn - 1)) (ofZ rIn) (ofZ rOut) = Ok (ofZ out) /\
       aOut <= out) /\
    forall a, 0 < a < aIn - 1 ->
      exists out,
        getAmountOut rm (ofZ a) (ofZ rIn) (ofZ rOut) = Ok (ofZ out) /\
        out < aOut.
Proof.
  intros Ho Hi Hp.
  change (10 ^ 19) with 10000000000000000000 in Hp.
  set (n := rIn * aOut * 1000) in *. set (d := (rOut - aOut) * 997).
  assert (Hn : 0 < n) by (unfold n; nia). assert (Hd : 0 < d) by (unfold d; lia).
  set (c := AmmMath.ceilDiv n d).
  assert (Hc : n <= c * d /\ (c - 1) * d < n).
  { unfold c, AmmMath.ceilDiv.
    pose proof (Z.div_mod (- n) d ltac:(lia)) as Hdm.
    pose proof (Z.mod_pos_bound (- n) d Hd) as Hm. nia. }
  assert (Hc1 : 1 <= c /\ c <= n) by nia.
  exists (c + 1). split; [|split; [lia|split]].
  - apply getAmountIn_exact; try assumption; fold n; fold d.
    + change (10 ^ 19) with 10000000000000000000. nia.
    + change (10 ^ 20) with 100000000000000000000. unfold d. nia.
  - replace (c + 1 - 1) with c by lia.
    exists (AmmMath.getAmountOut c rIn rOut). split.
    + apply getAmountOut_exact; try lia.
      * change (10 ^ 19) with 10000000000000000000. nia.
      * change (10 ^ 20) with 100000000000000000000. nia.
    + apply formula_reaches; lia.
  - intros a Ha. exists (AmmMath.getAmountOut a rIn rOut). split.
    + apply getAmountOut_exact; try lia.
      * change (10 ^ 19) with 10000000000000000000. nia.
      * change (10 ^ 20) with 100000000000000000000. nia.
    + destruct (Z.lt_ge_cases (AmmMath.getAmountOut a rIn rOut) aOut) as [|Hge];
        [assumption|exfalso].
      apply formula_reaches in Hge; try lia. fold n in Hge. fold d in Hge. nia.
Qed.

Lemma getAmountIn_one_above_least_witness :
  exists aIn,
    getAmountIn ROUND_HALF_UP (ofZ 1) (ofZ 1000) (ofZ 1000) = Ok (ofZ aIn) /\
    1 < aIn /\
    (exists out,
       getAmountOut ROUND_HALF_UP (ofZ (aIn - 1)) (ofZ 1000) (ofZ 1000)
         = Ok (ofZ out) /\
       1 <= out) /\
    forall a, 0 < a < aIn - 1 ->
      exists out,
        getAmountOut ROUND_HALF_UP (ofZ a) (ofZ 1000) (ofZ 1000) = Ok (ofZ out) /\
        out < 1.
Proof.
  apply (getAmountIn_one_above_least ROUND_HALF_UP 1 1000 1000);
    [lia | lia | vm_compute; reflexivity].
Defined.

End UniswapV2MathPaths.

(** ** Price impact *)

Module UniswapV2MathPriceImpact.

Import Decimal DecimalFacts DecimalOrder UniswapV2Math.

Lemma roundQ_near rm (s : Q) :
  (s - 1 <= inject_Z (roundQ rm s) <= s + 1)%Q.
Proof.
  destruct rm; cbn [roundQ].
  - pose proof (Qfloor_le s). pose proof (Qlt_floor s) as Hl.
    rewrite inject_Z_plus in Hl. change (inject_Z 1) with 1%Q in Hl. split; lra.
  - pose proof (Qfloor_le (s + (1 # 2))).
    pose proof (Qlt_floor (s + (1 # 2))) as Hl.
    rewrite inject_Z_plus in Hl. change (inject_Z 1) with 1%Q in Hl. split; lra.
Qed.

Lemma round_sd_near rm (q : Q) : (0 < q)%Q ->
  (q * (1 - ulp) <= round_sd rm q <= q * (1 + ulp))%Q.
Proof.
  intros Hq. destruct (round_sd_pos_spec rm q Hq) as (e & L & U & ->).
  pose proof (roundQ_near rm (q * 10 ^ (precision - 1 - e))) as [Hlo Hhi].
  set (z := inject_Z (roundQ rm (q * 10 ^ (precision - 1 - e)))) in *.
  pose proof (pow10Q_pos (e - (precision - 1))) as HP.
  pose proof (pow10Q_pos (precision - 1 - e)) as HS.
  assert (Hone : (10 ^ (precision - 1 - e) * 10 ^ (e - (precision - 1)) == 1)%Q).
  { rewrite <- pow10Q_add. replace (precision - 1 - e + (e - (precision - 1))) with 0 by lia.
    reflexivity. }
  assert (Hs : (1 <= q * 10 ^ (precision - 1 - e) * ulp)%Q).
  { assert (H19 : (inject_Z (10 ^ (precision - 1)) <= q * 10 ^ (precision - 1 - e))%Q).
    { rewrite <- pow10Q_nonneg by (unfold precision; lia).
      replace (precision - 1) with (e + (precision - 1 - e)) at 1 by lia.
      rewrite pow10Q_add. apply Qmult_le_compat_r; [assumption|].
      apply Qlt_le_weak. assumption. }
    change (inject_Z (10 ^ (precision - 1))) with (10000000000000000000 # 1)%Q in H19.
    unfold ulp. lra. }
  set (s := (10 ^ (precision - 1 - e))%Q) in *.
  set (p := (10 ^ (e - (precision - 1)))%Q) in *.
  assert (Hq' : (q == q * s * p)%Q).
  { rewrite <- Qmult_assoc, Hone. ring. }
  split.
  - assert (H1 : (0 <= (z - (q * s - 1)) * p)%Q) by (apply Qmult_le_0_compat; lra).
    assert (H2 : (0 <= (q * s * ulp - 1) * p)%Q) by (apply Qmult_le_0_compat; lra).
    rewrite Hq' at 1. lra.
  - assert (H1 : (0 <= (q * s + 1 - z) * p)%Q) by (apply Qmult_le_0_compat; lra).
    assert (H2 : (0 <= (q * s * ulp - 1) * p)%Q) by (apply Qmult_le_0_compat; lra).
    rewrite Hq' at 1. lra.
Qed.

Lemma lessThanOrEqualTo_pos_0 (q : Q) :
  (0 < q)%Q -> lessThanOrEqualTo (Fin q) (ofZ 0) = false.
Proof.
  intros H. apply not_true_iff_false. unfold ofZ.
  rewrite lessThanOrEqualTo_Fin. apply Qlt_not_le. exact H.
Qed.

Lemma isZero_pos (q : Q) : (0 < q)%Q -> isZero q = false.
Proof.
  intros H. unfold isZero. destruct q as [n d]. unfold Qlt in H.
  cbn in *. destruct (Z.eqb_spec n 0); [lia|reflexivity].
Qed.

Lemma dividedBy_Fin rm (a b : Q) :
  (0 < b)%Q -> dividedBy rm (Fin a) (Fin b) = Fin (round_sd rm (a / b)).
Proof. intros H. unfold dividedBy. rewrite (isZero_pos b H). reflexivity. Qed.

Lemma round_sd_1 rm : round_sd rm 1 = 1%Q.
Proof. destruct rm; vm_compute; reflexivity. Qed.

(** What [getAmountOut] pays for [a] is, per unit paid in, at most the
    spot price as the code computes it, all roundings included. *)
Lemma quote_below_spot rm (a ri ro : Q) :
  (0 < a)%Q -> (0 < ri)%Q -> (0 < ro)%Q ->
  let x1 := round_sd rm (a * (997 # 1)) in
  let n := round_sd rm (x1 * ro) in
  let y1 := round_sd rm (ri * (1000 # 1)) in
  let d := round_sd rm (y1 + x1) in
  (0 < d)%Q /\ (0 <= round_sd rm (n / d))%Q /\
  (round_sd rm (n / d) <= round_sd rm (ro / ri) * a)%Q.
Proof.
  intros Ha Hri Hro x1 n y1 d.
  assert (Hx1 : (0 < x1)%Q) by (apply round_sd_gt_0; lra).
  assert (Hy1 : (0 < y1)%Q) by (apply round_sd_gt_0; lra).
  assert (Hn : (0 < n)%Q).
  { apply round_sd_gt_0. apply Qmult_lt_0_compat; assumption. }
  assert (Hd : (0 < d)%Q) by (apply round_sd_gt_0; lra).
  assert (Hnd : (0 < n / d)%Q).
  { apply Qlt_shift_div_l; [assumption|]. lra. }
  assert (Hrr : (0 < ro / ri)%Q).
  { apply Qlt_shift_div_l; [assumption|]. lra. }
  pose proof (round_sd_gt_0 rm _ Hnd) as Hq.
  pose proof (round_sd_gt_0 rm _ Hrr) as Hspot.
  split; [assumption|]. split; [lra|].
  destruct (round_sd_near rm (a * (997 # 1)) ltac:(lra)) as [_ Bx1].
  destruct (round_sd_near rm (x1 * ro) ltac:(apply Qmult_lt_0_compat; assumption))
    as [_ Bn].
  destruct (round_sd_near rm (ri * (1000 # 1)) ltac:(lra)) as [By1 _].
  destruct (round_sd_near rm (y1 + x1) ltac:(lra)) as [Bd _].
  destruct (round_sd_near rm (n / d) Hnd) as [_ Bq].
  destruct (round_sd_near rm (ro / ri) Hrr) as [Bs _].
  fold x1 in Bx1. fold n in Bn. fold y1 in By1. fold d in Bd.
  set (q := round_sd rm (n / d)) in *.
  set (spot := round_sd rm (ro / ri)) in *.
  assert (End : (n / d * d == n)%Q).
  { rewrite Qmult_comm. apply Qmult_div_r. lra. }
  assert (Err : (ro / ri * ri == ro)%Q).
  { rewrite Qmult_comm. apply Qmult_div_r. lra. }
  set (nd := (n / d)%Q) in *. set (rr := (ro / ri)%Q) in *.
  assert (Hu1 : (0 < 1 + ulp)%Q) by (unfold ulp; lra).
  assert (Hu2 : (0 < 1 - ulp)%Q) by (unfold ulp; lra).
  set (up := (1 + ulp)%Q) in *. set (dn := (1 - ulp)%Q) in *.
  assert (Hc : (997 * (up * up * up) <= 1000 * (dn * dn * dn))%Q).
  { subst up dn. unfold ulp. vm_compute. discriminate. }
  apply (Qmult_le_r _ _ (d * ri)); [apply Qmult_lt_0_compat; assumption|].
  assert (P1 : (0 <= (a * (997 # 1) * up - x1) * (ro * up * up * ri))%Q).
  { apply Qmult_le_0_compat; [lra|].
    repeat apply Qmult_le_0_compat; lra. }
  assert (P2 : (0 <= (x1 * ro * up - n) * (up * ri))%Q).
  { apply Qmult_le_0_compat; [lra|]. apply Qmult_le_0_compat; lra. }
  assert (P3 : (0 <= (nd * up - q) * (d * ri))%Q).
  { apply Qmult_le_0_compat; [lra|]. apply Qmult_le_0_compat; lra. }
  assert (E3 : (nd * d * (up * ri) == n * (up * ri))%Q) by (rewrite End; reflexivity).
  assert (Q1 : (0 <= (spot - rr * dn) * (ri * (a * d)))%Q).
  { apply Qmult_le_0_compat; [lra|]. repeat apply Qmult_le_0_compat; lra. }
  assert (E1 : (rr * ri * (dn * (a * d)) == ro * (dn * (a * d)))%Q)
    by (rewrite Err; reflexivity).
  assert (Q2 : (0 <= (d - (y1 + x1) * dn) * (ro * dn * a))%Q).
  { apply Qmult_le_0_compat; [lra|]. repeat apply Qmult_le_0_compat; lra. }
  assert (Q3 : (0 <= x1 * (dn * (ro * dn * a)))%Q).
  { repeat apply Qmult_le_0_compat; lra. }
  assert (Q4 : (0 <= (y1 - ri * (1000 # 1) * dn) * (dn * (ro * dn * a)))%Q).
  { apply Qmult_le_0_compat; [lra|]. repeat apply Qmult_le_0_compat; lra. }
  assert (N : (0 <= (1000 * (dn * dn * dn) - 997 * (up * up * up)) * (a * ro * ri))%Q).
  { apply Qmult_le_0_compat; [lra|]. repeat apply Qmult_le_0_compat; lra. }
  clearbody up dn q spot nd rr n d x1 y1.
  lra.
Qed.

(** X8: the price impact of a valid trade is a share between 0 and 1: for
    a positive amount and positive reserves, finite, [calculatePriceImpact]
    does not throw, and the Decimal it converts on return is neither
    negative nor above one, whatever the roundings on the way did. *)
Theorem calculatePriceImpact_between_0_and_1 rm (amountIn reserveIn reserveOut : Q) :
  (0 < amountIn)%Q -> (0 < reserveIn)%Q -> (0 < reserveOut)%Q ->
  exists priceImpact : Q,
    calculatePriceImpact rm (Fin amountIn) (Fin reserveIn) (Fin reserveOut)
    = Ok (Fin priceImpact) /\
    (0 <= priceImpact <= 1)%Q.
Proof.
  intros Ha Hri Hro.
  destruct (quote_below_spot rm _ _ _ Ha Hri Hro) as (Hd & Hq0 & Hq).
  unfold calculatePriceImpact, getAmountOut.
  rewrite !lessThanOrEqualTo_pos_0 by assumption.
  unfold ofZ, FEE_NUMERATOR, FEE_DENOMINATOR.
  unfold times, plus, finalise.
  set (x1 := round_sd rm (amountIn * (997 # 1))) in *.
  set (n := round_sd rm (x1 * reserveOut)) in *.
  set (y1 := round_sd rm (reserveIn * (1000 # 1))) in *.
  set (d := round_sd rm (y1 + x1)) in *.
  rewrite (dividedBy_Fin rm n d Hd). cbn [floor].
  set (q := round_sd rm (n / d)) in *.
  rewrite (dividedBy_Fin rm _ amountIn Ha).
  rewrite !(dividedBy_Fin rm reserveOut reserveIn Hri).
  assert (Hrr : (0 < reserveOut / reserveIn)%Q).
  { apply Qlt_shift_div_l; [assumption|]. lra. }
  pose proof (round_sd_gt_0 rm _ Hrr) as Hspot.
  pose proof (round_sd_idempotent rm (reserveOut / reserveIn)) as Hidem.
  set (spot := round_sd rm (reserveOut / reserveIn)) in *.
  assert (Hout0 : (0 <= inject_Z (Qfloor q))%Q).
  { change 0%Q with (inject_Z 0). rewrite <- Zle_Qle.
    rewrite <- (Qfloor_Z 0). apply Qfloor_resp_le. exact Hq0. }
  assert (Hout : (inject_Z (Qfloor q) <= spot * amountIn)%Q).
  { eapply Qle_trans; [apply Qfloor_le|exact Hq]. }
  change (Qfloor q # 1) with (inject_Z (Qfloor q)).
  set (out := inject_Z (Qfloor q)) in *.
  assert (Hexec0 : (0 <= round_sd rm (out / amountIn))%Q).
  { apply round_sd_ge_0. apply Qle_shift_div_l; [assumption|]. lra. }
  assert (Hexec : (round_sd rm (out / amountIn) <= spot)%Q).
  { rewrite <- Hidem. apply round_sd_le.
    apply Qle_shift_div_r; [assumption|exact Hout]. }
  set (exec := round_sd rm (out / amountIn)) in *.
  unfold minus, neg. cbn [plus]; unfold finalise.
  assert (Hdiff0 : (0 <= round_sd rm (spot + Qred (- exec)))%Q).
  { apply round_sd_ge_0. rewrite Qred_correct. lra. }
  assert (Hdiff : (round_sd rm (spot + Qred (- exec)) <= spot)%Q).
  { rewrite <- Hidem at 2. apply round_sd_le. rewrite Qred_correct. lra. }
  set (diff := round_sd rm (spot + Qred (- exec))) in *.
  rewrite (dividedBy_Fin rm diff spot Hspot).
  eexists. split; [reflexivity|]. split.
  - apply round_sd_ge_0. apply Qle_shift_div_l; [assumption|]. lra.
  - apply Qle_trans with (round_sd rm 1);
      [|rewrite round_sd_1; apply Qle_refl].
    apply round_sd_le. apply Qle_shift_div_r; [assumption|]. lra.
Qed.

Lemma calculatePriceImpact_between_0_and_1_witness :
  exists priceImpact : Q,
    calculatePriceImpact ROUND_HALF_UP (Fin (1000 # 1)) (Fin (1000000 # 1))
      (Fin (2000000 # 1))
    = Ok (Fin priceImpact) /\
    (0 <= priceImpact <= 1)%Q.
Proof.
  apply (calculatePriceImpact_between_0_and_1 ROUND_HALF_UP (1000 # 1)
           (1000000 # 1) (2000000 # 1)); reflexivity.
Defined.

End UniswapV2MathPriceImpact.

(** ** Trade sizing and gas cost of the strategy engine *)

Module TradingStrategyEngineSizing.

Import Decimal DecimalFacts TradingStrategyEngine.

Lemma lessThanOrEqualTo_0_0 : lessThanOrEqualTo (ofZ 0) (ofZ 0) = true.
Proof. reflexivity. Qed.

(** X9: without usable reserves there is no opportunity: when either
    side's [reserves] is missing or holds fewer than two entries, the trade
    size is 0 and [calculateArbitrageOpportunity] returns [null], whatever
    the prices. *)
Theorem calculateArbitrageOpportunity_needs_reserves rm (options : Options)
  (fuel : nat) (pair : Pair) (buyDex sellDex : DexData) (gasPrice : Decimal.t)
  (blockNumber : string) (nowId nowStamp nowExpiry : Z) :
  (forall rb rs, reserves buyDex = Some rb -> reserves sellDex = Some rs ->
     (List.length rb < 2)%nat \/ (List.length rs < 2)%nat) ->
  calculateOptimalTradeSize rm options fuel buyDex sellDex = Some (ofZ 0) /\
  calculateArbitrageOpportunity rm options fuel pair buyDex sellDex gasPrice
    blockNumber nowId nowStamp nowExpiry = Some None.
Proof.
  intros H.
  assert (E : calculateOptimalTradeSize rm options fuel buyDex sellDex
              = Some (ofZ 0)).
  { unfold calculateOptimalTradeSize.
    destruct (reserves buyDex) as [rb|]; [|reflexivity].
    destruct (reserves sellDex) as [rs|]; [|reflexivity].
    destruct (H rb rs eq_refl eq_refl) as [Hb|Hs].
    - destruct (Nat.ltb_spec (List.length rb) 2); [reflexivity|lia].
    - destruct (Nat.ltb_spec (List.length rs) 2); [|lia].
      rewrite orb_true_r. reflexivity. }
  split; [exact E|]. unfold calculateArbitrageOpportunity. rewrite E.
  rewrite lessThanOrEqualTo_0_0.
  destruct (lessThan _ _); reflexivity.
Qed.

Lemma calculateArbitrageOpportunity_needs_reserves_witness :
  calculateOptimalTradeSize ROUND_HALF_UP defaultOptions 64 sampleBuyDex
    {| dex := "sushiswap"; price0 := lit 21 1; price1 := lit 5 1;
       liquidityUSD := ofZ 1000000; reserves := None;
       pairAddress := "0xPAIR2" |} = Some (ofZ 0) /\
  calculateArbitrageOpportunity ROUND_HALF_UP defaultOptions 64 samplePair
    sampleBuyDex
    {| dex := "sushiswap"; price0 := lit 21 1; price1 := lit 5 1;
       liquidityUSD := ofZ 1000000; reserves := None;
       pairAddress := "0xPAIR2" |}
    (ofZ 20000000000) "latest" 1700000000000 1700000000000 1700000000000
  = Some None.
Proof.
  apply calculateArbitrageOpportunity_needs_reserves.
  intros rb rs _ Hs. discriminate Hs.
Defined.

(** X10: with numeric reserves and a whole [maxPositionSizeUSD] between 1
    and 10^19, [calculateOptimalTradeSize] finishes (64 iterations are
    enough) and returns either 0 or a whole amount strictly between 1 and
    [maxPositionSizeUSD]: the trade size never reaches the limit. *)
Theorem calculateOptimalTradeSize_below_limit rm (options : Options) (fuel : nat)
  (buyDex sellDex : DexData) (rb rs : list (option Decimal.t))
  (b0 b1 s0 s1 : Decimal.t) (bs ss : list Decimal.t) (limit : Z) :
  reserves buyDex = Some rb -> reserves sellDex = Some rs ->
  parseReserves rb = Some (b0 :: b1 :: bs) ->
  parseReserves rs = Some (s0 :: s1 :: ss) ->
  maxPositionSizeUSD options = inject_Z limit -> 1 <= limit <= 10 ^ 19 ->
  (64 <= fuel)%nat ->
  exists size,
    calculateOptimalTradeSize rm options fuel buyDex sellDex = Some size /\
    (size = ofZ 0 \/ exists a, size = ofZ a /\ 1 < a < limit).
Proof.
  intros Hrb Hrs Hpb Hps Hmax [H1 Hlim] Hfuel.
  assert (Hlen : forall l x y t, parseReserves l = Some (x :: y :: t) ->
                 (2 <= List.length l)%nat).
  { intros l x y t. destruct l as [|[u|] l1]; cbn; try discriminate.
    destruct l1 as [|[v|] l2]; cbn; try discriminate. intros _. lia. }
  unfold calculateOptimalTradeSize. rewrite Hrb, Hrs.
  pose proof (Hlen _ _ _ _ Hpb). pose proof (Hlen _ _ _ _ Hps).
  destruct (Nat.ltb_spec (List.length rb) 2); [lia|].
  destruct (Nat.ltb_spec (List.length rs) 2); [lia|].
  cbn [orb]. rewrite Hpb, Hps.
  destruct (lessThanOrEqualTo b0 (ofZ 0) || lessThanOrEqualTo b1 (ofZ 0)
            || lessThanOrEqualTo s0 (ofZ 0) || lessThanOrEqualTo s1 (ofZ 0));
    [exists (ofZ 0); split; [reflexivity|left; reflexivity]|].
  assert (Hof : ofNumber (maxPositionSizeUSD options) = ofZ limit).
  { unfold ofNumber, ofZ. rewrite Hmax. unfold inject_Z. rewrite Qred_int.
    reflexivity. }
  rewrite Hof.
  set (poolA := {| UniswapV2Math.reserveIn := b0; UniswapV2Math.reserveOut := b1 |}).
  set (poolB := {| UniswapV2Math.reserveIn := s1; UniswapV2Math.reserveOut := s0 |}).
  assert (Hpow : limit - 1 <= 2 ^ Z.of_nat fuel).
  { assert (2 ^ 64 <= 2 ^ Z.of_nat fuel) by (apply Z.pow_le_mono_r; lia).
    change (10 ^ 19) with 10000000000000000000 in Hlim.
    change (2 ^ 64) with 18446744073709551616 in *. lia. }
  destruct (UniswapV2MathFacts.search_interval rm poolA poolB (ofZ 60) fuel
              (UniswapV2Math.initial (ofZ limit)) 1 limit eq_refl eq_refl
              ltac:(lia) H1 Hlim Hpow) as [[s' Hs] Hrange].
  assert (Hres : UniswapV2Math.findOptimalTradeSize rm fuel poolA poolB
                   (ofZ limit) (ofZ 60)
                 = Some (UniswapV2Math.optimalAmount s', UniswapV2Math.maxProfit s'))
    by (unfold UniswapV2Math.findOptimalTradeSize; rewrite Hs; reflexivity).
  rewrite Hres.
  pose proof (UniswapV2MathFacts.findOptimalTradeSize_bestProbed rm poolA poolB
                (ofZ 60) fuel _ _ _ Hres) as Hbest.
  destruct Hbest as [(Ho & _)|(_ & _ & b & a & Hv & _)].
  - rewrite Ho. exists (ofZ 0). split; [reflexivity|left; reflexivity].
  - rewrite Forall_forall in Hrange.
    destruct (Hrange (UniswapV2Math.optimalAmount s')) as (m & Hm & Hr).
    { rewrite Hv. apply in_or_app. right. left. reflexivity. }
    rewrite Hm. rewrite lessThanOrEqualTo_ofZ.
    destruct (Z.leb_spec m 0); [lia|]. cbn [isNaN ofZ orb].
    exists (ofZ m). split; [reflexivity|]. right. exists m. split; [reflexivity|lia].
Qed.

Lemma calculateOptimalTradeSize_below_limit_witness :
  exists size,
    calculateOptimalTradeSize ROUND_HALF_UP defaultOptions 64 sampleBuyDex
      sampleSellDex = Some size /\
    (size = ofZ 0 \/ exists a, size = ofZ a /\ 1 < a < 10000).
Proof.
  apply (calculateOptimalTradeSize_below_limit ROUND_HALF_UP defaultOptions 64
           sampleBuyDex sampleSellDex _ _ _ _ _ _ [] [] 10000
           eq_refl eq_refl eq_refl eq_refl eq_refl).
  - split; [lia | vm_compute; discriminate].
  - lia.
Defined.


Lemma usd_of_wei rm (w : Z) (c : Z) :
  0 <= w -> w < 10 ^ precision -> w * 2000 = c * 10 ^ 7 ->
  times rm (dividedBy rm (ofZ w) (ofZ (10 ^ 18))) (ofZ 2000) = lit c 11.
Proof.
  intros Hw Hlt Hc.
  rewrite dividedBy_ofZ by reflexivity.
  assert (E1 : round_sd rm (w # Z.to_pos (10 ^ 18)) = Qred (w # Z.to_pos (10 ^ 18))).
  { apply (round_sd_exact rm _ 18 w); cbn [Qnum Qden]; [lia| |lia].
    rewrite Z.abs_eq by lia. reflexivity. }
  rewrite E1. unfold times, ofZ, finalise, lit.
  assert (E2 : (Qred (w # Z.to_pos (10 ^ 18)) * (2000 # 1) == scale c 11)%Q).
  { rewrite Qred_correct. rewrite scale_nonneg by lia.
    unfold Qeq, Qmult. cbn [Qnum Qden].
    change (Z.pos (Z.to_pos (10 ^ 18) * 1)) with (10 ^ 11 * 10 ^ 7).
    change (Z.pos (Z.to_pos (10 ^ 11))) with (10 ^ 11).
    rewrite Hc. ring. }
  f_equal. rewrite (DecimalOrder.round_sd_comp rm _ _ E2).
  apply (round_sd_exact rm _ 11 (Z.abs c)).
  - lia.
  - rewrite scale_nonneg by lia. cbn [Qnum Qden]. reflexivity.
  - change (10 ^ 7) with 10000000 in Hc. unfold precision in *. lia.
Qed.

(** X11: with the constructors' settings both gas-cost functions are
    linear in the gas price: for a gas price of [g] wei below 10^13 the
    engine returns exactly [g * 72 / 10^11] USD (300000 gas, the 20% buffer,
    ETH at 2000 USD) and the bot [g * 6 / 10^10] USD (no buffer). *)
Theorem calculateGasCost_linear rm (g : Z) :
  0 <= g < 10 ^ 13 ->
  TradingStrategyEngine.calculateGasCost rm TradingStrategyEngine.defaultOptions
    (ofZ g) = lit (72 * g) 11 /\
  ComprehensiveArbitrageBot.calculateGasCost rm
    ComprehensiveArbitrageBot.defaultConfig (ofZ g) = lit (60 * g) 11.
Proof.
  intros [H0 Hg]. change (10 ^ 13) with 10000000000000 in Hg. split.
  - unfold TradingStrategyEngine.calculateGasCost.
    assert (E : times rm (ofZ 300000) (ofNumber (gasBuffer defaultOptions))
                = ofZ 360000) by (destruct rm; vm_compute; reflexivity).
    rewrite E, times_ofZ by (unfold precision; lia).
    apply usd_of_wei;
      change (10 ^ precision) with 100000000000000000000;
      change (10 ^ 7) with 10000000; lia.
  - unfold ComprehensiveArbitrageBot.calculateGasCost.
    cbn [ComprehensiveArbitrageBot.gasEstimate ComprehensiveArbitrageBot.ethPriceUSD
         ComprehensiveArbitrageBot.defaultConfig].
    rewrite times_ofZ by (unfold precision; lia).
    apply usd_of_wei;
      change (10 ^ precision) with 100000000000000000000;
      change (10 ^ 7) with 10000000; lia.
Qed.

Lemma calculateGasCost_linear_witness :
  TradingStrategyEngine.calculateGasCost ROUND_HALF_UP
    TradingStrategyEngine.defaultOptions (ofZ 20000000000)
    = lit (72 * 20000000000) 11 /\
  ComprehensiveArbitrageBot.calculateGasCost ROUND_HALF_UP
    ComprehensiveArbitrageBot.defaultConfig (ofZ 20000000000)
    = lit (60 * 20000000000) 11.
Proof.
  apply (calculateGasCost_linear ROUND_HALF_UP 20000000000).
  split; [lia | vm_compute; reflexivity].
Defined.

End TradingStrategyEngineSizing.

(** ** The active opportunities of the strategy engine *)

Module TradingStrategyEngineActive.

Import Decimal TradingStrategyEngine.

Lemma JsMap_delete_middle {V} (k : string) (v : V) (before after : list (string * V)) :
  ~ In k (JsMap.keys before) ->
  JsMap.delete k (before ++ (k, v) :: after) = before ++ after.
Proof.
  induction before as [|[k' v'] before IH]; intros Hk; cbn.
  - rewrite String.eqb_refl. reflexivity.
  - destruct (String.eqb_spec k' k) as [->|_].
    + exfalso. apply Hk. left. reflexivity.
    + f_equal. apply IH. intros Hin. apply Hk. right. exact Hin.
Qed.

Lemma clear_loop (now : Z) (todo : list (string * Opportunity)) :
  forall (kept : list (string * Opportunity)) (missed : Z),
  NoDup (JsMap.keys (kept ++ todo)) ->
  let unexpired := filter (fun entry => negb (now >? expiresAt (snd entry))) todo in
  fold_left
    (fun state entry =>
       if now >? expiresAt (snd entry)
       then (JsMap.delete (fst entry) (fst state), snd state + 1)
       else state)
    todo (kept ++ todo, missed)
  = (kept ++ unexpired,
     missed + Z.of_nat (List.length todo) - Z.of_nat (List.length unexpired)).
Proof.
  induction todo as [|[id o] todo IH]; intros kept missed Hnd; cbn zeta.
  - cbn. f_equal. lia.
  - cbn [fold_left filter fst snd].
    destruct (now >? expiresAt o) eqn:Hexp; cbn [negb fst snd].
    + rewrite JsMap_delete_middle.
      * rewrite IH.
        -- f_equal. cbn [List.length]. lia.
        -- unfold JsMap.keys in *. rewrite map_app in *. cbn [map fst] in Hnd.
           apply NoDup_remove_1 in Hnd. exact Hnd.
      * unfold JsMap.keys in *. rewrite map_app in Hnd. cbn [map fst] in Hnd.
        apply NoDup_remove_2 in Hnd. intros Hin. apply Hnd.
        apply in_or_app. left. exact Hin.
    + replace (kept ++ (id, o) :: todo) with ((kept ++ [(id, o)]) ++ todo)
        by (rewrite <- app_assoc; reflexivity).
      rewrite IH.
      * rewrite <- app_assoc. f_equal. cbn [List.length]. lia.
      * rewrite <- app_assoc. exact Hnd.
Qed.

(** X12: [clearExpiredOpportunities] removes exactly the entries whose
    [expiresAt] lies before the clock reading: what is left are the other
    entries, unchanged and in their order (an opportunity that expires at
    this very millisecond stays), and [missedOpportunities] grows by the
    number of entries removed. *)
Theorem clearExpiredOpportunities_exact (now : Z)
  (activeOpportunities : list (string * Opportunity)) (missedOpportunities : Z) :
  NoDup (JsMap.keys activeOpportunities) ->
  let after := clearExpiredOpportunities now activeOpportunities missedOpportunities in
  fst after = filter (fun entry => expiresAt (snd entry) >=? now) activeOpportunities /\
  snd after = missedOpportunities
              + (JsMap.size activeOpportunities - JsMap.size (fst after)).
Proof.
  intros Hnd. cbn zeta. unfold clearExpiredOpportunities.
  pose proof (clear_loop now activeOpportunities [] missedOpportunities Hnd) as H.
  cbn zeta in H. cbn [app] in H. rewrite H.
  cbn [fst snd]. unfold JsMap.size.
  replace (filter (fun entry => negb (now >? expiresAt (snd entry))) activeOpportunities)
    with (filter (fun entry => expiresAt (snd entry) >=? now) activeOpportunities).
  - split; [reflexivity|lia].
  - apply filter_ext. intros [id o]. cbn [snd].
    destruct (Z.gtb_spec now (expiresAt o)), (Z.geb_spec (expiresAt o) now);
      try reflexivity; lia.
Qed.

Lemma clearExpiredOpportunities_exact_witness :
  let m := [("a"%string, sampleOpportunity 100); ("b"%string, sampleOpportunity 200);
            ("c"%string, sampleOpportunity 50)] in
  let after := clearExpiredOpportunities 100 m 7 in
  fst after = filter (fun entry => expiresAt (snd entry) >=? 100) m /\
  snd after = 7 + (JsMap.size m - JsMap.size (fst after)).
Proof.
  apply (clearExpiredOpportunities_exact 100
           [("a"%string, sampleOpportunity 100); ("b"%string, sampleOpportunity 200);
            ("c"%string, sampleOpportunity 50)] 7).
  repeat constructor; cbn; intuition discriminate.
Defined.

End TradingStrategyEngineActive.

(** ** RiskManager *)

Module RiskManagerFacts.

Import Decimal DecimalFacts DecimalOrder RiskManager.

(** *** Position sizing *)

(** X13: the position size is never below 100 USD and, apart from that
    minimum, never above [maxPositionSizeUSD]: whenever
    [calculatePositionSize] returns a number, it is at least 100, and it is
    either exactly 100 or at most [maxPositionSizeUSD]. *)
Theorem calculatePositionSize_bounds rm (m : t)
  (o : TradingStrategyEngine.Opportunity) (portfolioState : PortfolioState) :
  isNaN (calculatePositionSize rm m o portfolioState) = false ->
  greaterThanOrEqualTo (calculatePositionSize rm m o portfolioState) (ofZ 100)
    = true /\
  (calculatePositionSize rm m o portfolioState = ofZ 100 \/
   lessThanOrEqualTo (calculatePositionSize rm m o portfolioState)
     (ofNumber (Options.maxPositionSizeUSD (options m))) = true).
Proof.
  unfold calculatePositionSize.
  set (kelly := times rm _ (times rm _ _)).
  unfold ofNumber. set (L := Qred _). unfold max, min, ofZ. cbn [isNaN].
  destruct kelly as [k|s|]; cbn [isNaN].
  - destruct (greaterThan (Fin k) (Fin L)) eqn:E1.
    + destruct (lessThan (Fin L) (Fin (100 # 1))) eqn:E2; intros _.
      * split; [reflexivity|left; reflexivity].
      * apply lessThan_false_Fin in E2. split.
        -- apply greaterThanOrEqualTo_Fin. assumption.
        -- right. apply lessThanOrEqualTo_Fin. apply Qle_refl.
    + destruct (lessThan (Fin k) (Fin (100 # 1))) eqn:E2; intros _.
      * split; [reflexivity|left; reflexivity].
      * apply lessThan_false_Fin in E2. apply greaterThan_false_Fin in E1. split.
        -- apply greaterThanOrEqualTo_Fin. assumption.
        -- right. apply lessThanOrEqualTo_Fin. assumption.
  - destruct s.
    + intros _. cbn. split; [reflexivity|left; reflexivity].
    + change (greaterThan (Infinity false) (Fin L)) with true. cbn iota.
      intros _. destruct (lessThan (Fin L) (Fin (100 # 1))) eqn:E2.
      * split; [reflexivity|left; reflexivity].
      * apply lessThan_false_Fin in E2. split.
        -- apply greaterThanOrEqualTo_Fin. assumption.
        -- right. apply lessThanOrEqualTo_Fin. apply Qle_refl.
  - cbn. discriminate.
Qed.


Lemma calculatePositionSize_bounds_witness :
  let m := new ROUND_HALF_UP defaultOptions 1700000000000 in
  let o := TradingStrategyEngine.sampleOpportunity 1700000030000 in
  let p := {| availableCapital := None; totalValue := None |} in
  greaterThanOrEqualTo (calculatePositionSize ROUND_HALF_UP m o p) (ofZ 100)
    = true /\
  (calculatePositionSize ROUND_HALF_UP m o p = ofZ 100 \/
   lessThanOrEqualTo (calculatePositionSize ROUND_HALF_UP m o p)
     (ofNumber (Options.maxPositionSizeUSD (options m))) = true).
Proof.
  apply (calculatePositionSize_bounds ROUND_HALF_UP
           (new ROUND_HALF_UP defaultOptions 1700000000000)
           (TradingStrategyEngine.sampleOpportunity 1700000030000)
           {| availableCapital := None; totalValue := None |}).
  vm_compute. reflexivity.
Defined.

Lemma Qmult_nonneg_nonpos (a b : Q) : (0 <= a)%Q -> (b <= 0)%Q -> (a * b <= 0)%Q.
Proof.
  intros Ha Hb. rewrite <- (Qmult_0_r a).
  rewrite (Qmult_comm a b), (Qmult_comm a 0).
  apply Qmult_le_compat_r; assumption.
Qed.

(** X14: an opportunity whose profit margin is positive but not above 1
    (net profit up to the gas cost) is always sized at the 100 USD
    minimum: its Kelly fraction [(margin - 1) / margin] is not positive,
    whatever the capital (not negative) and the limit. *)
Theorem calculatePositionSize_minimum rm (m : t)
  (o : TradingStrategyEngine.Opportunity) (portfolioState : PortfolioState)
  (margin capital : Q) :
  TradingStrategyEngine.profitMargin o = Fin margin ->
  (0 < margin)%Q -> (margin <= 1)%Q ->
  match availableCapital portfolioState with
  | Some c => c
  | None => ofNumber (Options.maxPositionSizeUSD (options m))
  end = Fin capital ->
  (0 <= capital)%Q ->
  calculatePositionSize rm m o portfolioState = ofZ 100.
Proof.
  intros Hm Hpos Hle Hc Hcap. unfold calculatePositionSize. rewrite Hm, Hc.
  unfold minus, plus, neg, ofZ, finalise.
  set (x := round_sd rm (margin + Qred (- (1 # 1)))).
  assert (Hx : (x <= 0)%Q).
  { apply round_sd_le_0. rewrite Qred_correct.
    apply Qplus_le_l with (z := 1%Q). ring_simplify. assumption. }
  unfold dividedBy, isZero.
  assert (Hn : (Qnum margin =? 0) = false).
  { apply Z.eqb_neq. unfold Qlt in Hpos. cbn in Hpos. lia. }
  rewrite Hn. unfold finalise.
  set (y := round_sd rm (x / margin)).
  assert (Hy : (y <= 0)%Q).
  { apply round_sd_le_0. unfold Qdiv. rewrite Qmult_comm.
    apply Qmult_nonneg_nonpos; [|assumption].
    apply Qlt_le_weak, Qinv_lt_0_compat. assumption. }
  unfold times, lit, finalise.
  set (z := round_sd rm (y * Qred (scale 25 2))).
  assert (Hz : (z <= 0)%Q).
  { apply round_sd_le_0. rewrite Qmult_comm.
    apply Qmult_nonneg_nonpos; [|assumption]. rewrite Qred_correct. discriminate. }
  set (k := round_sd rm (capital * z)).
  assert (Hk : (k <= 0)%Q)
    by (apply round_sd_le_0, Qmult_nonneg_nonpos; assumption).
  unfold ofNumber. set (L := Qred _). unfold min, max. cbn [isNaN].
  assert (Hv : exists v, (if greaterThan (Fin k) (Fin L) then Fin L else Fin k)
                         = Fin v /\ (v <= 0)%Q).
  { destruct (greaterThan (Fin k) (Fin L)) eqn:E.
    - exists L. split; [reflexivity|]. apply greaterThan_Fin in E.
      apply Qlt_le_weak. eapply Qlt_le_trans; eassumption.
    - exists k. split; [reflexivity|assumption]. }
  destruct Hv as (v & -> & Hv).
  assert (Hlt : lessThan (Fin v) (Fin (100 # 1)) = true).
  { apply lessThan_Fin. eapply Qle_lt_trans; [eassumption|reflexivity]. }
  rewrite Hlt. reflexivity.
Qed.

Lemma calculatePositionSize_minimum_witness :
  calculatePositionSize ROUND_HALF_UP
    (new ROUND_HALF_UP defaultOptions 1700000000000)
    (TradingStrategyEngine.sampleOpportunity 1700000030000)
    {| availableCapital := None; totalValue := None |} = ofZ 100.
Proof.
  apply (calculatePositionSize_minimum ROUND_HALF_UP
           (new ROUND_HALF_UP defaultOptions 1700000000000)
           (TradingStrategyEngine.sampleOpportunity 1700000030000)
           {| availableCapital := None; totalValue := None |} (1 # 10) 10000).
  - reflexivity.
  - reflexivity.
  - discriminate.
  - reflexivity.
  - discriminate.
Defined.


(** *** Positions *)

Lemma JsMap_get_set_same {V} (k : string) (v : V) (m : list (string * V)) :
  JsMap.get k (JsMap.set k v m) = Some v.
Proof.
  induction m as [|[k' v'] m IH]; cbn [JsMap.set JsMap.get].
  - rewrite String.eqb_refl. reflexivity.
  - destruct (String.eqb k' k) eqn:E; cbn [JsMap.get]; rewrite E;
      [reflexivity|assumption].
Qed.

Lemma JsMap_delete_set_fresh {V} (k : string) (v : V) (m : list (string * V)) :
  JsMap.get k m = None -> JsMap.delete k (JsMap.set k v m) = m.
Proof.
  induction m as [|[k' v'] m IH]; cbn [JsMap.set JsMap.get JsMap.delete]; intros H.
  - rewrite String.eqb_refl. reflexivity.
  - destruct (String.eqb k' k) eqn:E; [discriminate|].
    cbn [JsMap.delete]. rewrite E, IH by assumption. reflexivity.
Qed.

Lemma plus_minus_ofZ rm (e s : Z) :
  Z.abs e < 10 ^ precision -> Z.abs (e + s) < 10 ^ precision ->
  minus rm (plus rm (ofZ e) (ofZ s)) (ofZ s) = ofZ e.
Proof.
  intros He Hs. rewrite plus_ofZ by assumption.
  rewrite minus_ofZ by (replace (e + s - s) with e by lia; assumption).
  f_equal. lia.
Qed.

(** X15: a position that is opened under a fresh id and then closed ends
    in the history, marked 'closed', and the active positions are what
    they were; one trade is counted; the exposure added at the opening is
    taken back (exactly, for whole amounts below 10^20).  A close without
    [actualProfit] books the expected profit of the opportunity.  Closing
    an id that is not active changes nothing. *)
Theorem recordPosition_open_then_close rm (now1 now2 : Z)
  (o : TradingStrategyEngine.Opportunity) (size : Decimal.t)
  (transactionId : string) (result : CloseResult) (m : t) :
  JsMap.get transactionId (activePositions m) = None ->
  let m' := recordPositionClose rm now2 transactionId result
              (recordPositionOpen rm now1 o size transactionId m) in
  recordPositionClose rm now2 transactionId result m = m /\
  activePositions m' = activePositions m /\
  (exists p,
     positionHistory m' = positionHistory m ++ [p] /\
     id p = transactionId /\ status p = "closed"%string /\
     positionSize p = size /\ closeTime p = Some now2 /\
     actualProfit p
       = Some match resultActualProfit result with
              | Some profit => profit
              | None => TradingStrategyEngine.netProfitUSD o
              end) /\
  tradesCount (dailyStats m') = tradesCount (dailyStats m) + 1 /\
  forall e s,
    currentExposure (riskMetrics m) = ofZ e -> size = ofZ s ->
    Z.abs e < 10 ^ precision -> Z.abs (e + s) < 10 ^ precision ->
    currentExposure (riskMetrics m') = ofZ e.
Proof.
  intros Hfresh. cbn zeta. split.
  { unfold recordPositionClose. rewrite Hfresh. reflexivity. }
  unfold recordPositionClose.
  cbn [recordPositionOpen activePositions].
  rewrite JsMap_get_set_same.
  cbn [activePositions positionHistory dailyStats riskMetrics tradesCount
       currentExposure positionSize expectedProfit id].
  rewrite JsMap_delete_set_fresh by assumption.
  split; [reflexivity|]. split.
  - eexists. split; [reflexivity|]. cbn. repeat split.
  - split; [reflexivity|].
    intros e s He Hs B1 B2. unfold recordPositionOpen.
    cbn [riskMetrics currentExposure]. rewrite He, Hs.
    apply plus_minus_ofZ; assumption.
Qed.

Lemma recordPosition_open_then_close_witness :
  let m := new ROUND_HALF_UP defaultOptions 1700000000000 in
  let o := TradingStrategyEngine.sampleOpportunity 1700000030000 in
  let result := {| resultActualProfit := None; resultGasCost := None |} in
  let m' := recordPositionClose ROUND_HALF_UP 1700000002000 "tx-1" result
              (recordPositionOpen ROUND_HALF_UP 1700000001000 o (ofZ 100) "tx-1" m) in
  recordPositionClose ROUND_HALF_UP 1700000002000 "tx-1" result m = m /\
  activePositions m' = activePositions m /\
  (exists p,
     positionHistory m' = positionHistory m ++ [p] /\
     id p = "tx-1"%string /\ status p = "closed"%string /\
     positionSize p = ofZ 100 /\ closeTime p = Some 1700000002000 /\
     actualProfit p
       = Some match resultActualProfit result with
              | Some profit => profit
              | None => TradingStrategyEngine.netProfitUSD o
              end) /\
  tradesCount (dailyStats m') = tradesCount (dailyStats m) + 1 /\
  forall e s,
    currentExposure (riskMetrics m) = ofZ e -> ofZ 100 = ofZ s ->
    Z.abs e < 10 ^ precision -> Z.abs (e + s) < 10 ^ precision ->
    currentExposure (riskMetrics m') = ofZ e.
Proof.
  apply (recordPosition_open_then_close ROUND_HALF_UP 1700000001000 1700000002000
           (TradingStrategyEngine.sampleOpportunity 1700000030000) (ofZ 100)
           "tx-1" {| resultActualProfit := None; resultGasCost := None |}
           (new ROUND_HALF_UP defaultOptions 1700000000000)).
  reflexivity.
Defined.


(** *** The books *)

Lemma JsMap_get_Forall {V} (P : string * V -> Prop) (k : string) (v : V)
  (m : list (string * V)) :
  Forall P m -> JsMap.get k m = Some v -> exists k', P (k', v).
Proof.
  induction m as [|[k' v'] m IH]; cbn [JsMap.get]; intros Hf H; [discriminate|].
  apply Forall_cons_iff in Hf. destruct Hf as [H1 H2].
  destruct (String.eqb k' k); [injection H as <-; exists k'; assumption|].
  apply IH; assumption.
Qed.

Lemma JsMap_set_Forall {V} (P : string * V -> Prop) (k : string) (v : V)
  (m : list (string * V)) :
  (forall k', P (k', v)) -> Forall P m -> Forall P (JsMap.set k v m).
Proof.
  intros Hv. induction m as [|[k' v'] m IH]; cbn [JsMap.set]; intros Hf.
  - constructor; [apply Hv|constructor].
  - apply Forall_cons_iff in Hf. destruct Hf as [H1 H2].
    destruct (String.eqb k' k); constructor; auto.
Qed.

Lemma JsMap_delete_Forall {V} (P : string * V -> Prop) (k : string)
  (m : list (string * V)) :
  Forall P m -> Forall P (JsMap.delete k m).
Proof.
  induction m as [|[k' v'] m IH]; cbn [JsMap.delete]; intros Hf; [constructor|].
  apply Forall_cons_iff in Hf. destruct Hf as [H1 H2].
  destruct (String.eqb k' k); [assumption|]. constructor; auto.
Qed.

Lemma isFinite_Fin (x : Decimal.t) : isFinite x = true -> exists q, x = Fin q.
Proof. destruct x; cbn; try discriminate. intros _. eexists. reflexivity. Qed.

Lemma call_keeps_books rm (c : Call) (m : t) :
  numeric c = true -> booksInOrder m -> positionsNumeric m ->
  booksInOrder (call rm c m) /\ positionsNumeric (call rm c m).
Proof.
  intros Hc Hb Hp. destruct c as [now o size tid|now tid result|now];
    cbn [call numeric] in *.
  - split; [exact Hb|]. unfold positionsNumeric, recordPositionOpen.
    cbn [activePositions]. apply andb_true_iff in Hc. destruct Hc as [H1 H2].
    apply JsMap_set_Forall; [|exact Hp]. intros k'. cbn. split; assumption.
  - unfold recordPositionClose.
    destruct (JsMap.get tid (activePositions m)) as [position|] eqn:Hget;
      [|split; assumption].
    destruct (JsMap_get_Forall _ _ _ _ Hp Hget) as (k' & Hs & He). cbn [snd] in *.
    apply andb_true_iff in Hc. destruct Hc as [Ha Hg].
    assert (HA : exists a, match resultActualProfit result with
                           | Some p => p | None => expectedProfit position end
                           = Fin a).
    { destruct (resultActualProfit result); apply isFinite_Fin; assumption. }
    assert (HG : exists g, match resultGasCost result with
                           | Some g => g | None => ofZ 0 end = Fin g).
    { destruct (resultGasCost result); [apply isFinite_Fin; assumption|].
      eexists; reflexivity. }
    destruct HA as [a HA], HG as [g HG].
    destruct Hb as (tp & tl & np & pk & md & E1 & E2 & E3 & E4 & E5
                    & B1 & B2 & B3 & B4 & B5).
    split.
    + unfold booksInOrder.
      cbn [dailyStats riskMetrics totalProfit totalLoss netProfit peakValue
           maxDrawdown].
      rewrite HA, HG, E1, E2, E3, E4, E5.
      unfold minus, plus, neg, abs, finalise, ofZ.
      set (tn := round_sd rm (a + Qred (- g))).
      set (dn := round_sd rm (np + tn)).
      assert (Hpk : exists pk', (if greaterThan (Fin dn) (Fin pk) then Fin dn
                                 else Fin pk) = Fin pk'
                                /\ (dn <= pk')%Q /\ (0 <= pk')%Q).
      { destruct (greaterThan (Fin dn) (Fin pk)) eqn:E.
        - exists dn. split; [reflexivity|]. split; [apply Qle_refl|].
          apply greaterThan_Fin in E. apply Qlt_le_weak.
          apply Qle_lt_trans with pk; assumption.
        - exists pk. split; [reflexivity|]. apply greaterThan_false_Fin in E.
          split; assumption. }
      destruct Hpk as (pk' & -> & P1 & P2).
      set (dd := round_sd rm (pk' + Qred (- dn))).
      assert (Hmd : exists md', (if greaterThan (Fin dd) (Fin md) then Fin dd
                                 else Fin md) = Fin md' /\ (0 <= md')%Q).
      { destruct (greaterThan (Fin dd) (Fin md)) eqn:E.
        - exists dd. split; [reflexivity|]. apply greaterThan_Fin in E.
          apply Qlt_le_weak. apply Qle_lt_trans with md; assumption.
        - exists md. split; [reflexivity|assumption]. }
      destruct Hmd as (md' & -> & M1).
      destruct (greaterThan (Fin tn) (Fin (0 # 1))) eqn:Egain.
      * apply greaterThan_Fin in Egain.
        exists (round_sd rm (tp + tn)), tl, dn, pk', md'.
        do 5 (split; [reflexivity|]).
        split; [|split; [assumption|split; [assumption|split; assumption]]].
        apply round_sd_ge_0. rewrite <- (Qplus_0_r 0).
        apply Qplus_le_compat; [assumption|apply Qlt_le_weak; assumption].
      * exists tp, (round_sd rm (tl + Qred (Qabs tn))), dn, pk', md'.
        do 5 (split; [reflexivity|]).
        split; [assumption|split; [|split; [assumption|split; assumption]]].
        apply round_sd_ge_0. rewrite <- (Qplus_0_r 0).
        apply Qplus_le_compat; [assumption|]. rewrite Qred_correct.
        apply Qabs_nonneg.
    + unfold positionsNumeric. cbn [activePositions].
      apply JsMap_delete_Forall. exact Hp.
  - split; [|exact Hp].
    destruct Hb as (tp & tl & np & pk & md & E1 & E2 & E3 & E4 & E5
                    & B1 & B2 & B3 & B4 & B5).
    exists 0%Q, 0%Q, 0%Q, pk, md. cbn [resetDailyStats dailyStats riskMetrics
      freshDailyStats totalProfit totalLoss netProfit].
    do 3 (split; [reflexivity|]). split; [assumption|]. split; [assumption|].
    split; [apply Qle_refl|]. split; [apply Qle_refl|].
    split; [assumption|]. split; assumption.
Qed.

Lemma calls_keep_books rm (cs : list Call) :
  forall m, Forall (fun c => numeric c = true) cs ->
  booksInOrder m -> positionsNumeric m ->
  booksInOrder (calls rm cs m) /\ positionsNumeric (calls rm cs m).
Proof.
  induction cs as [|c cs IH]; intros m Hn Hb Hp; [split; assumption|].
  apply Forall_cons_iff in Hn. destruct Hn as [Hc Hn].
  destruct (call_keeps_books rm c m Hc Hb Hp) as [Hb' Hp'].
  unfold calls in *. cbn [fold_left]. apply IH; assumption.
Qed.

(** X16: the books stay in order.  After any sequence of openings,
    closings and daily resets on a new manager, all with numeric amounts,
    the daily totals, the peak and the largest drawdown are numbers, the
    total profit and the total loss are not negative, and the peak is
    neither negative nor below the day's net profit. *)
Theorem calls_books_in_order rm (options : Options.t) (now : Z) (cs : list Call) :
  Forall (fun c => numeric c = true) cs ->
  let m := calls rm cs (new rm options now) in
  exists totalProfit' totalLoss' netProfit' peakValue' maxDrawdown',
    totalProfit (dailyStats m) = Fin totalProfit' /\
    totalLoss (dailyStats m) = Fin totalLoss' /\
    netProfit (dailyStats m) = Fin netProfit' /\
    peakValue (riskMetrics m) = Fin peakValue' /\
    maxDrawdown (riskMetrics m) = Fin maxDrawdown' /\
    (0 <= totalProfit')%Q /\ (0 <= totalLoss')%Q /\
    (netProfit' <= peakValue')%Q /\ (0 <= peakValue')%Q /\
    (0 <= maxDrawdown')%Q.
Proof.
  intros Hn. apply (calls_keep_books rm cs (new rm options now) Hn).
  - exists 0%Q, 0%Q, 0%Q, 0%Q, 0%Q. cbn.
    do 5 (split; [reflexivity|]). repeat (split; [apply Qle_refl|]).
    apply Qle_refl.
  - constructor.
Qed.

Lemma calls_books_in_order_witness :
  let cs := [PositionOpen 1700000001000
               (TradingStrategyEngine.sampleOpportunity 1700000030000)
               (ofZ 100) "tx-1";
             PositionClose 1700000002000 "tx-1"
               {| resultActualProfit := Some (ofZ 5);
                  resultGasCost := Some (ofZ 12) |};
             DailyReset 1700000003000] in
  let m := calls ROUND_HALF_UP cs (new ROUND_HALF_UP defaultOptions 1700000000000) in
  exists totalProfit' totalLoss' netProfit' peakValue' maxDrawdown',
    totalProfit (dailyStats m) = Fin totalProfit' /\
    totalLoss (dailyStats m) = Fin totalLoss' /\
    netProfit (dailyStats m) = Fin netProfit' /\
    peakValue (riskMetrics m) = Fin peakValue' /\
    maxDrawdown (riskMetrics m) = Fin maxDrawdown' /\
    (0 <= totalProfit')%Q /\ (0 <= totalLoss')%Q /\
    (netProfit' <= peakValue')%Q /\ (0 <= peakValue')%Q /\
    (0 <= maxDrawdown')%Q.
Proof.
  apply (calls_books_in_order ROUND_HALF_UP defaultOptions 1700000000000).
  repeat constructor.
Defined.

(** X17: four metrics are never updated.  After any sequence of openings,
    closings and daily resets, the metrics [currentDrawdown], [sharpeRatio]
    and [volatility] are still 0 and [maxExposure] is still
    [maxPositionSizeUSD * maxPortfolioExposure]: the drawdown computed at a
    closing is only used to update [maxDrawdown]. *)
Theorem calls_leave_metrics_alone rm (options : Options.t) (now : Z)
  (cs : list Call) :
  let m := calls rm cs (new rm options now) in
  currentDrawdown (riskMetrics m) = ofZ 0 /\
  sharpeRatio (riskMetrics m) = ofZ 0 /\
  volatility (riskMetrics m) = ofZ 0 /\
  maxExposure (riskMetrics m)
    = times rm (ofNumber (Options.maxPositionSizeUSD options))
        (ofNumber (Options.maxPortfolioExposure options)) /\
  RiskManager.options m = options.
Proof.
  cbn zeta.
  assert (P : forall cs m,
            currentDrawdown (riskMetrics (calls rm cs m))
              = currentDrawdown (riskMetrics m) /\
            sharpeRatio (riskMetrics (calls rm cs m)) = sharpeRatio (riskMetrics m) /\
            volatility (riskMetrics (calls rm cs m)) = volatility (riskMetrics m) /\
            maxExposure (riskMetrics (calls rm cs m)) = maxExposure (riskMetrics m) /\
            RiskManager.options (calls rm cs m) = RiskManager.options m).
  { clear cs. induction cs as [|c cs IH]; intros m; [repeat split|].
    unfold calls in *. cbn [fold_left].
    destruct (IH (call rm c m)) as (-> & -> & -> & -> & ->).
    destruct c as [n o size tid|n tid result|n]; cbn [call].
    - repeat split.
    - unfold recordPositionClose.
      destruct (JsMap.get tid (activePositions m)); repeat split.
    - repeat split. }
  destruct (P cs (new rm options now)) as (-> & -> & -> & -> & ->).
  repeat split.
Qed.

(** *** The trading pause *)

(** X18: when the first trade closed by a new manager loses money (its
    actual profit, or the expected one when none is given, is below the
    gas cost), [checkTradingPause] reports a pause: the peak is still 0,
    the drawdown divided by it is infinite and exceeds any limit.
    [resetDailyStats] does not lift that pause. *)
Theorem checkTradingPause_after_first_loss rm (options : Options.t)
  (now0 now1 now2 : Z) (o : TradingStrategyEngine.Opportunity)
  (size : Decimal.t) (transactionId : string) (result : CloseResult)
  (profit gas : Q) :
  match resultActualProfit result with
  | Some p => p
  | None => TradingStrategyEngine.netProfitUSD o
  end = Fin profit ->
  match resultGasCost result with Some g => g | None => ofZ 0 end = Fin gas ->
  (profit < gas)%Q ->
  let m := recordPositionClose rm now2 transactionId result
             (recordPositionOpen rm now1 o size transactionId
                (new rm options now0)) in
  paused (checkTradingPause rm m) = true /\
  forall now3, paused (checkTradingPause rm (resetDailyStats now3 m)) = true.
Proof.
  intros Hp Hg Hlt. cbn zeta.
  assert (D : exists dd,
            (0 < dd)%Q /\
            peakValue (riskMetrics
              (recordPositionClose rm now2 transactionId result
                 (recordPositionOpen rm now1 o size transactionId
                    (new rm options now0)))) = Fin 0 /\
            maxDrawdown (riskMetrics
              (recordPositionClose rm now2 transactionId result
                 (recordPositionOpen rm now1 o size transactionId
                    (new rm options now0)))) = Fin dd).
  { unfold recordPositionClose.
    cbn [recordPositionOpen activePositions new JsMap.set JsMap.get].
    rewrite String.eqb_refl.
    cbn [recordPositionOpen new riskMetrics dailyStats peakValue maxDrawdown
         netProfit expectedProfit freshDailyStats].
    rewrite Hp, Hg. unfold minus, plus, neg, ofZ, finalise.
    set (tn := round_sd rm (profit + Qred (- gas))).
    assert (Htn : (tn < 0)%Q).
    { apply round_sd_lt_0. rewrite Qred_correct.
      apply Qplus_lt_l with (z := gas). ring_simplify. assumption. }
    set (dn := round_sd rm ((0 # 1) + tn)).
    assert (Hdn : (dn < 0)%Q) by (apply round_sd_lt_0; rewrite Qplus_0_l; assumption).
    assert (E : greaterThan (Fin dn) (Fin (0 # 1)) = false)
      by (apply greaterThan_false_Fin, Qlt_le_weak; assumption).
    rewrite E.
    set (dd := round_sd rm ((0 # 1) + Qred (- dn))).
    assert (Hdd : (0 < dd)%Q).
    { apply round_sd_gt_0. rewrite Qplus_0_l, Qred_correct.
      apply Qopp_lt_compat in Hdn. exact Hdn. }
    assert (E2 : greaterThan (Fin dd) (Fin (0 # 1)) = true)
      by (apply greaterThan_Fin; assumption).
    rewrite E2. exists dd. repeat split. assumption. }
  destruct D as (dd & Hdd & Hpk & Hmd).
  assert (F : forall m', peakValue (riskMetrics m') = Fin 0 ->
                         maxDrawdown (riskMetrics m') = Fin dd ->
                         paused (checkTradingPause rm m') = true).
  { intros m' H1 H2. unfold checkTradingPause. cbn [paused].
    rewrite H1, H2. unfold dividedBy, isZero. cbn [Qnum].
    assert (Hn : (Qnum dd =? 0) = false).
    { apply Z.eqb_neq. unfold Qlt in Hdd. cbn in Hdd. lia. }
    rewrite Hn. unfold isNeg.
    assert (Hs : (Qnum dd <? 0) = false).
    { apply Z.ltb_ge. unfold Qlt in Hdd. cbn in Hdd. lia. }
    cbn [Z.eqb]. rewrite Hs.
    change (greaterThan (Infinity false) (ofNumber (Options.maxDrawdown
              (RiskManager.options m')))) with true.
    rewrite orb_true_r. reflexivity. }
  split; [apply F; assumption|].
  intros now3. apply F; assumption.
Qed.

Lemma checkTradingPause_after_first_loss_witness :
  let m := recordPositionClose ROUND_HALF_UP 1700000002000 "tx-1"
             {| resultActualProfit := Some (ofZ 5); resultGasCost := Some (ofZ 12) |}
             (recordPositionOpen ROUND_HALF_UP 1700000001000
                (TradingStrategyEngine.sampleOpportunity 1700000030000)
                (ofZ 100) "tx-1"
                (new ROUND_HALF_UP defaultOptions 1700000000000)) in
  paused (checkTradingPause ROUND_HALF_UP m) = true /\
  forall now3,
    paused (checkTradingPause ROUND_HALF_UP (resetDailyStats now3 m)) = true.
Proof.
  apply (checkTradingPause_after_first_loss ROUND_HALF_UP defaultOptions
           1700000000000 1700000001000 1700000002000
           (TradingStrategyEngine.sampleOpportunity 1700000030000) (ofZ 100)
           "tx-1"
           {| resultActualProfit := Some (ofZ 5); resultGasCost := Some (ofZ 12) |}
           5 12).
  - reflexivity.
  - reflexivity.
  - reflexivity.
Defined.

End RiskManagerFacts.

(** ** Rotation and status of the RPC pool *)

Module Web3ManagerRotation.

Import Web3Manager.

Lemma rotateProvider_iter (m : t) (k : nat) :
  providers (Nat.iter k rotateProvider m) = providers m /\
  failoverThreshold (Nat.iter k rotateProvider m) = failoverThreshold m /\
  cooldownPeriod (Nat.iter k rotateProvider m) = cooldownPeriod m /\
  lastFailureTime (Nat.iter k rotateProvider m) = lastFailureTime m.
Proof.
  induction k as [|k IH]; [repeat split|].
  change (Nat.iter (S k) rotateProvider m)
    with (rotateProvider (Nat.iter k rotateProvider m)).
  destruct IH as (H1 & H2 & H3 & H4).
  repeat split; cbn; assumption.
Qed.

(** X19: [rotateProvider] is a round robin: from an index inside the
    array, [k] rotations lead to the provider [k] places further,
    wrapping around, so that as many rotations as there are providers
    come back to the starting one; the array itself is never changed. *)
Theorem rotateProvider_round_robin (m : t) (k : nat) :
  (currentProviderIndex m < List.length (providers m))%nat ->
  currentProviderIndex (Nat.iter k rotateProvider m)
    = ((currentProviderIndex m + k) mod List.length (providers m))%nat /\
  currentProviderIndex (Nat.iter (List.length (providers m)) rotateProvider m)
    = currentProviderIndex m /\
  providers (Nat.iter k rotateProvider m) = providers m.
Proof.
  intros Hi.
  assert (P : forall j, currentProviderIndex (Nat.iter j rotateProvider m)
              = ((currentProviderIndex m + j) mod List.length (providers m))%nat).
  { induction j as [|j IH].
    - cbn. rewrite Nat.add_0_r, Nat.mod_small by assumption. reflexivity.
    - change (Nat.iter (S j) rotateProvider m)
        with (rotateProvider (Nat.iter j rotateProvider m)).
      unfold rotateProvider at 1. cbn [currentProviderIndex].
      destruct (rotateProvider_iter m j) as (-> & _). rewrite IH.
      replace (S ((currentProviderIndex m + j) mod List.length (providers m)))
        with (((currentProviderIndex m + j) mod List.length (providers m)) + 1)%nat
        by lia.
      rewrite Nat.Div0.add_mod_idemp_l. f_equal. lia. }
  split; [apply P|]. split; [|apply rotateProvider_iter].
  rewrite P.
  replace (currentProviderIndex m + List.length (providers m))%nat
    with (currentProviderIndex m + 1 * List.length (providers m))%nat by lia.
  rewrite Nat.Div0.mod_add. apply Nat.mod_small. assumption.
Qed.

Lemma rotateProvider_round_robin_witness :
  currentProviderIndex (Nat.iter 3 rotateProvider twoProviders)
    = ((currentProviderIndex twoProviders + 3)
         mod List.length (providers twoProviders))%nat /\
  currentProviderIndex
    (Nat.iter (List.length (providers twoProviders)) rotateProvider twoProviders)
    = currentProviderIndex twoProviders /\
  providers (Nat.iter 3 rotateProvider twoProviders) = providers twoProviders.
Proof.
  apply (rotateProvider_round_robin twoProviders 3). cbn. lia.
Defined.

Lemma statusFrom_active (ps : list Provider) :
  forall index current,
  List.length (filter isActive (statusFrom index current ps))
  = if ((index <=? current) && (current <? index + List.length ps))%nat
    then 1%nat else 0%nat.
Proof.
  induction ps as [|p ps IH]; intros index current; cbn [statusFrom filter].
  - cbn [List.length]. rewrite Nat.add_0_r.
    destruct (Nat.leb_spec index current), (Nat.ltb_spec current index);
      try reflexivity; lia.
  - cbn [isActive List.length]. destruct (Nat.eqb_spec index current) as [->|Hne].
    + cbn [List.length]. rewrite IH.
      destruct (Nat.leb_spec (S current) current); [lia|].
      destruct (Nat.leb_spec current current); [|lia].
      destruct (Nat.ltb_spec current (current + S (List.length ps))); [|lia].
      reflexivity.
    + rewrite IH.
      destruct (Nat.leb_spec (S index) current),
               (Nat.ltb_spec current (S index + List.length ps)),
               (Nat.leb_spec index current),
               (Nat.ltb_spec current (index + S (List.length ps)));
        cbn; try reflexivity; lia.
Qed.

Lemma statusFrom_length (ps : list Provider) :
  forall index current,
  List.length (statusFrom index current ps) = List.length ps.
Proof.
  induction ps as [|p ps IH]; intros; cbn; [reflexivity|]. rewrite IH. reflexivity.
Qed.

Section Failover.

Context {R : Type}.
Variable operation : nat -> nat -> option R.
Variable clock : nat -> Z.

Lemma attempts_in_range (remaining : nat) :
  forall (attempt : nat) (m : t) (reads : nat),
  (currentProviderIndex m < List.length (providers m))%nat ->
  let m' := snd (fst (attempts operation clock remaining attempt m reads)) in
  providers m' = providers m /\
  (currentProviderIndex m' < List.length (providers m'))%nat.
Proof.
  induction remaining as [|remaining IH]; intros attempt m reads Hi;
    cbn [attempts].
  - split; [reflexivity|assumption].
  - destruct (operation attempt (currentProviderIndex m)).
    + split; [reflexivity|assumption].
    + set (m1 := recordFailure (clock reads) m).
      set (m2 := if shouldRotateProvider (clock (S reads)) m1
                 then rotateProvider m1 else m1).
      assert (H2 : providers m2 = providers m /\
                   (currentProviderIndex m2 < List.length (providers m2))%nat).
      { unfold m2. destruct (shouldRotateProvider _ m1); cbn.
        - split; [reflexivity|]. apply Nat.mod_upper_bound. lia.
        - split; [reflexivity|assumption]. }
      destruct H2 as [Hp Hlt].
      destruct (IH (S attempt) m2 (S (S reads)) Hlt) as [Hp' Hlt'].
      cbn zeta in *. split; [congruence|assumption].
Qed.

(** X20: exactly one provider is reported active: for a manager whose
    index is inside the array, [executeWithFailover] keeps the array, leaves
    the index inside it, and [getProviderStatus] then lists every provider
    with exactly one marked [isActive]. *)
Theorem getProviderStatus_one_active (optMaxAttempts : option nat) (m : t)
  (reads : nat) :
  (currentProviderIndex m < List.length (providers m))%nat ->
  let m' := snd (fst (executeWithFailover operation clock optMaxAttempts m reads)) in
  providers m' = providers m /\
  List.length (getProviderStatus m') = List.length (providers m) /\
  List.length (filter isActive (getProviderStatus m')) = 1%nat.
Proof.
  intros Hi. unfold executeWithFailover.
  set (n := match optMaxAttempts with Some (S k) => S k | _ => _ end).
  destruct (attempts_in_range n 0%nat m reads Hi) as [Hp Hlt].
  cbn zeta in *. split; [assumption|]. unfold getProviderStatus.
  rewrite statusFrom_length, statusFrom_active, Hp. split; [reflexivity|].
  rewrite Hp in Hlt. cbn [Nat.leb andb Nat.add].
  destruct (Nat.ltb_spec
              (currentProviderIndex
                 (snd (fst (attempts operation clock n 0%nat m reads))))
              (List.length (providers m))); [reflexivity|lia].
Qed.

Lemma attempts_outcome (remaining : nat) :
  forall (attempt : nat) (m : t) (reads : nat),
  let out := attempts operation clock remaining attempt m reads in
  match fst (fst out) with
  | Some r =>
      failureCount (snd (fst out)) = 0 /\ lastFailureTime (snd (fst out)) = 0 /\
      exists a, (attempt <= a < attempt + remaining)%nat /\
                operation a (currentProviderIndex (snd (fst out))) = Some r
  | None => snd out = (reads + 2 * remaining)%nat
  end.
Proof.
  induction remaining as [|remaining IH]; intros attempt m reads;
    cbn [attempts].
  - cbn. lia.
  - destruct (operation attempt (currentProviderIndex m)) as [r|] eqn:Hop.
    + cbn [fst snd recordSuccess failureCount lastFailureTime currentProviderIndex].
      split; [reflexivity|]. split; [reflexivity|].
      exists attempt. split; [lia|assumption].
    + set (m1 := recordFailure (clock reads) m).
      set (m2 := if shouldRotateProvider (clock (S reads)) m1
                 then rotateProvider m1 else m1).
      specialize (IH (S attempt) m2 (S (S reads))). cbn zeta in *.
      destruct (fst (fst (attempts operation clock remaining (S attempt) m2
                            (S (S reads))))) as [r|].
      * destruct IH as (H1 & H2 & a & Ha & Hr).
        split; [assumption|]. split; [assumption|].
        exists a. split; [lia|assumption].
      * lia.
Qed.

(** X21: what a call of [executeWithFailover] leaves behind.  A returned
    result was produced by the operation, at one of the attempts allowed,
    on the provider that is current afterwards, and both failure counters
    are reset to 0.  A throw means that every attempt allowed was made and
    failed: the clock was read twice per attempt. *)
Theorem executeWithFailover_outcome (optMaxAttempts : option nat) (m : t)
  (reads : nat) (maxAttempts : nat) :
  maxAttempts = match optMaxAttempts with
                | Some (S n) => S n
                | _ => List.length (providers m)
                end ->
  let out := executeWithFailover operation clock optMaxAttempts m reads in
  match fst (fst out) with
  | Some r =>
      failureCount (snd (fst out)) = 0 /\ lastFailureTime (snd (fst out)) = 0 /\
      exists a, (a < maxAttempts)%nat /\
                operation a (currentProviderIndex (snd (fst out))) = Some r
  | None => snd out = (reads + 2 * maxAttempts)%nat
  end.
Proof.
  intros ->. unfold executeWithFailover.
  set (n := match optMaxAttempts with Some (S k) => S k | _ => _ end).
  pose proof (attempts_outcome n 0%nat m reads) as H. cbn zeta in *.
  destruct (fst (fst (attempts operation clock n 0%nat m reads))) as [r|];
    [|assumption].
  destruct H as (H1 & H2 & a & Ha & Hr). split; [assumption|].
  split; [assumption|]. exists a. split; [lia|assumption].
Qed.

End Failover.

Lemma getProviderStatus_one_active_witness :
  let m' := snd (fst (executeWithFailover firstProviderDown everySecond
                        (Some 10%nat) twoProviders 0%nat)) in
  providers m' = providers twoProviders /\
  List.length (getProviderStatus m') = List.length (providers twoProviders) /\
  List.length (filter isActive (getProviderStatus m')) = 1%nat.
Proof.
  apply (getProviderStatus_one_active firstProviderDown everySecond
           (Some 10%nat) twoProviders 0%nat).
  cbn. lia.
Defined.

Lemma executeWithFailover_outcome_witness :
  let out := executeWithFailover firstProviderDown everySecond (Some 10%nat)
               twoProviders 0%nat in
  match fst (fst out) with
  | Some r =>
      failureCount (snd (fst out)) = 0 /\ lastFailureTime (snd (fst out)) = 0 /\
      exists a, (a < 10)%nat /\
                firstProviderDown a (currentProviderIndex (snd (fst out))) = Some r
  | None => snd out = (0 + 2 * 10)%nat
  end.
Proof.
  apply (executeWithFailover_outcome firstProviderDown everySecond
           (Some 10%nat) twoProviders 0%nat 10%nat).
  reflexivity.
Defined.

Lemma subscriptionErrors_below (nows : list Z) :
  forall m,
  failureCount m + Z.of_nat (List.length nows) < failoverThreshold m ->
  subscriptionErrors nows m
  = {| providers := providers m;
       currentProviderIndex := currentProviderIndex m;
       failoverThreshold := failoverThreshold m;
       failureCount := failureCount m + Z.of_nat (List.length nows);
       lastFailureTime := lastFailureTime m;
       cooldownPeriod := cooldownPeriod m |}.
Proof.
  induction nows as [|now nows IH]; intros m H.
  - cbn. rewrite Z.add_0_r. destruct m; reflexivity.
  - cbn [List.length] in H. rewrite Nat2Z.inj_succ in H.
    unfold subscriptionErrors in *. cbn [fold_left].
    assert (E : onSubscriptionError now m
                = {| providers := providers m;
                     currentProviderIndex := currentProviderIndex m;
                     failoverThreshold := failoverThreshold m;
                     failureCount := failureCount m + 1;
                     lastFailureTime := lastFailureTime m;
                     cooldownPeriod := cooldownPeriod m |}).
    { unfold onSubscriptionError, shouldRotateProvider.
      cbn [failureCount failoverThreshold lastFailureTime cooldownPeriod].
      destruct (Z.geb_spec (failureCount m + 1) (failoverThreshold m)); [lia|].
      reflexivity. }
    rewrite E, IH by (cbn [failureCount failoverThreshold]; lia).
    cbn [providers currentProviderIndex failoverThreshold failureCount
         lastFailureTime cooldownPeriod List.length].
    f_equal. lia.
Qed.

(** X22: errors of the block subscription do rotate the pool.  The errors
    that come before the threshold leave the provider alone; the error
    with which [failureCount] reaches [failoverThreshold] moves the pool
    to the next provider and resets the count, provided more than
    [cooldownPeriod] has passed since [lastFailureTime], which this path
    never sets. *)
Theorem subscriptionErrors_rotate_at_threshold (m : t) (before : list Z)
  (now : Z) :
  failureCount m + Z.of_nat (List.length before) + 1 = failoverThreshold m ->
  now - lastFailureTime m > cooldownPeriod m ->
  currentProviderIndex (subscriptionErrors before m) = currentProviderIndex m /\
  currentProviderIndex (subscriptionErrors (before ++ [now]) m)
    = (S (currentProviderIndex m) mod List.length (providers m))%nat /\
  failureCount (subscriptionErrors (before ++ [now]) m) = 0.
Proof.
  intros Hth Hnow.
  assert (E := subscriptionErrors_below before m ltac:(lia)).
  split; [rewrite E; reflexivity|].
  unfold subscriptionErrors in *. rewrite fold_left_app, E. cbn [fold_left].
  unfold onSubscriptionError, shouldRotateProvider.
  cbn [failureCount failoverThreshold lastFailureTime cooldownPeriod].
  destruct (Z.geb_spec (failureCount m + Z.of_nat (List.length before) + 1)
              (failoverThreshold m)); [|lia].
  destruct (Z.gtb_spec (now - lastFailureTime m) (cooldownPeriod m)); [|lia].
  cbn. split; reflexivity.
Qed.

Lemma subscriptionErrors_rotate_at_threshold_witness :
  currentProviderIndex
    (subscriptionErrors [1700000000000; 1700000001000] twoProviders)
    = currentProviderIndex twoProviders /\
  currentProviderIndex
    (subscriptionErrors ([1700000000000; 1700000001000] ++ [1700000002000])
       twoProviders)
    = (S (currentProviderIndex twoProviders)
         mod List.length (providers twoProviders))%nat /\
  failureCount
    (subscriptionErrors ([1700000000000; 1700000001000] ++ [1700000002000])
       twoProviders) = 0.
Proof.
  apply (subscriptionErrors_rotate_at_threshold twoProviders
           [1700000000000; 1700000001000] 1700000002000).
  - reflexivity.
  - change (lastFailureTime twoProviders) with 0.
    change (cooldownPeriod twoProviders) with 60000. lia.
Defined.

End Web3ManagerRotation.

(** ** Queries of the opportunity store *)

Module DatabaseServiceQueries.

Import DatabaseService DatabaseServiceFacts.

Lemma find_filter_out (i : string) (table : list Row) :
  find (sameId (Some i)) (filter (fun old => negb (sameId (Some i) old)) table)
  = None.
Proof.
  induction table as [|r table IH]; [reflexivity|]. cbn [filter].
  destruct (sameId (Some i) r) eqn:E; cbn [negb]; [assumption|].
  cbn [find]. rewrite E. assumption.
Qed.

Lemma find_filter_keep (j : string) (P : Row -> bool) (table : list Row) :
  (forall r, sameId (Some j) r = true -> P r = true) ->
  find (sameId (Some j)) (filter P table) = find (sameId (Some j)) table.
Proof.
  intros H. induction table as [|r table IH]; [reflexivity|]. cbn [filter find].
  destruct (sameId (Some j) r) eqn:E.
  - rewrite (H r E). cbn [find]. rewrite E. reflexivity.
  - destruct (P r); [cbn [find]; rewrite E|]; assumption.
Qed.

Lemma find_app_None {A} (f : A -> bool) (l1 l2 : list A) :
  find f l1 = None -> find f (l1 ++ l2) = find f l2.
Proof.
  induction l1 as [|x l1 IH]; [reflexivity|]. cbn [find app].
  destruct (f x); [discriminate|assumption].
Qed.

Lemma find_app_tail_false {A} (f : A -> bool) (l : list A) (x : A) :
  f x = false -> find f (l ++ [x]) = find f l.
Proof.
  intros Hx. induction l as [|y l IH]; cbn [find app].
  - rewrite Hx. reflexivity.
  - destruct (f y); [reflexivity|assumption].
Qed.

Lemma sameId_diff (i j : string) (r : Row) :
  i <> j -> sameId (Some j) r = true -> sameId (Some i) r = false.
Proof.
  unfold sameId. destruct (id (row r)) as [k|]; [|discriminate].
  intros Hne Hj. apply String.eqb_eq in Hj. subst k.
  apply String.eqb_neq. assumption.
Qed.

(** X23: insert then look up.  After a store that the table accepts,
    [getOpportunityById] of the stored id returns the stored values, with
    the defaults of [storeOpportunity] applied (a missing type is
    'direct', missing swap fees are '0'), and the look-up of every other id
    gives what it gave before. *)
Theorem getOpportunityById_after_store (now : Z) (o : Opportunity)
  (db : DatabaseService.t) (i : string) :
  isInitialized db = true -> id o = Some i -> storable o = true ->
  getOpportunityById i (storeOpportunity now o db)
    = Some {| row := params o; created_at := now |} /\
  forall j, j <> i ->
    getOpportunityById j (storeOpportunity now o db) = getOpportunityById j db.
Proof.
  intros Hinit Hid Hst. unfold getOpportunityById, storeOpportunity, insertOrReplace.
  unfold storable in Hst. rewrite Hinit, Hst. cbn [isInitialized opportunities].
  rewrite params_id, Hid. split.
  - rewrite find_app_None by apply find_filter_out.
    cbn [find]. unfold sameId at 1. cbn [row]. rewrite params_id, Hid.
    rewrite String.eqb_refl. reflexivity.
  - intros j Hne. rewrite find_app_tail_false.
    + apply find_filter_keep. intros r Hr.
      rewrite (sameId_diff i j r) by auto. reflexivity.
    + unfold sameId. cbn [row]. rewrite params_id, Hid.
      apply String.eqb_neq. assumption.
Qed.

Lemma getOpportunityById_after_store_witness :
  getOpportunityById "test-opp-1"
    (storeOpportunity 1700000000500 (sampleOpportunity 25 1700000000000) empty)
    = Some {| row := params (sampleOpportunity 25 1700000000000);
              created_at := 1700000000500 |} /\
  forall j, j <> "test-opp-1"%string ->
    getOpportunityById j
      (storeOpportunity 1700000000500 (sampleOpportunity 25 1700000000000) empty)
    = getOpportunityById j empty.
Proof.
  apply (getOpportunityById_after_store 1700000000500
           (sampleOpportunity 25 1700000000000) empty "test-opp-1");
    reflexivity.
Defined.


(** *** Sorting by timestamp *)

Lemma notAfter_total (a b : option Z) : notAfter a b = false -> notAfter b a = true.
Proof.
  destruct a as [x|], b as [y|]; cbn; try discriminate; try reflexivity.
  intros H. apply Z.leb_gt in H. apply Z.leb_le. lia.
Qed.

Lemma notAfter_trans (a b c : option Z) :
  notAfter a b = true -> notAfter b c = true -> notAfter a c = true.
Proof.
  destruct a as [x|], b as [y|], c as [z|]; cbn; try discriminate;
    try reflexivity.
  intros H1 H2. apply Z.leb_le in H1, H2. apply Z.leb_le. lia.
Qed.

Lemma insertDesc_perm (r : Row) (l : list Row) :
  Permutation (insertDesc r l) (r :: l).
Proof.
  induction l as [|s l IH]; cbn [insertDesc]; [reflexivity|].
  destruct (notAfter (timestampOf s) (timestampOf r)); [reflexivity|].
  rewrite IH. apply perm_swap.
Qed.

Lemma orderByTimestampDesc_perm (rows : list Row) :
  Permutation (orderByTimestampDesc rows) rows.
Proof.
  induction rows as [|r rows IH]; [reflexivity|].
  unfold orderByTimestampDesc in *. cbn [fold_right].
  rewrite insertDesc_perm. constructor. assumption.
Qed.

Lemma insertDesc_sorted (r : Row) (l : list Row) :
  StronglySorted (fun a b => notAfter (timestampOf b) (timestampOf a) = true) l ->
  StronglySorted (fun a b => notAfter (timestampOf b) (timestampOf a) = true)
    (insertDesc r l).
Proof.
  induction l as [|s l IH]; intros Hs; cbn [insertDesc].
  - repeat constructor.
  - apply StronglySorted_inv in Hs. destruct Hs as [Hl Hf].
    destruct (notAfter (timestampOf s) (timestampOf r)) eqn:E.
    + constructor; [constructor; assumption|].
      constructor; [assumption|].
      eapply Forall_impl; [|exact Hf]. intros x Hx. cbn beta in *.
      eapply notAfter_trans; eassumption.
    + constructor; [apply IH; assumption|].
      eapply Permutation_Forall; [symmetry; apply insertDesc_perm|].
      constructor; [apply notAfter_total; assumption|assumption].
Qed.

Lemma orderByTimestampDesc_sorted (rows : list Row) :
  StronglySorted (fun a b => notAfter (timestampOf b) (timestampOf a) = true)
    (orderByTimestampDesc rows).
Proof.
  induction rows as [|r rows IH]; [constructor|].
  unfold orderByTimestampDesc in *. cbn [fold_right].
  apply insertDesc_sorted. assumption.
Qed.

Lemma StronglySorted_firstn {A} (R : A -> A -> Prop) (n : nat) (l : list A) :
  StronglySorted R l ->
  StronglySorted R (firstn n l) /\
  forall a b, In a (firstn n l) -> In b (skipn n l) -> R a b.
Proof.
  revert l. induction n as [|n IH]; intros l Hs.
  - cbn. split; [constructor|]. intros a b [].
  - destruct l as [|x l]; [cbn; split; [constructor|intros a b []]|].
    apply StronglySorted_inv in Hs. destruct Hs as [Hl Hf].
    destruct (IH l Hl) as [H1 H2]. cbn [firstn skipn]. split.
    + constructor; [assumption|].
      rewrite Forall_forall in *. intros y Hy. apply Hf.
      rewrite <- (firstn_skipn n l). apply in_or_app. left. assumption.
    + intros a b [<-|Ha] Hb.
      * rewrite Forall_forall in Hf. apply Hf.
        rewrite <- (firstn_skipn n l). apply in_or_app. right. assumption.
      * apply H2; assumption.
Qed.

Lemma ofType_In (kind : string) (rows : list Row) (r : Row) :
  In r (ofType kind rows)
  <-> In r rows /\ (kind = "all"%string \/ hasType kind r = true).
Proof.
  unfold ofType. destruct (String.eqb_spec kind "all") as [->|Hne].
  - split; [intros H; split; [assumption|left; reflexivity]|intros [H _]; exact H].
  - rewrite filter_In. split; intros [H1 H2]; (split; [assumption|]).
    + right. assumption.
    + destruct H2 as [H2|H2]; [contradiction|assumption].
Qed.

(** X24: [getRecentOpportunities] returns the newest rows, newest first.
    On an initialised database the result is ordered by descending
    timestamp, holds at most [limit] rows when the limit is not negative,
    consists of rows of the table that have the requested type, and no row
    of that type that is left out is newer than a row that is returned; a
    negative limit leaves nothing out. *)
Theorem getRecentOpportunities_newest_first (limit : option Z)
  (kind : option string) (db : DatabaseService.t) :
  isInitialized db = true ->
  let result := getRecentOpportunities limit kind db in
  StronglySorted (fun a b => notAfter (timestampOf b) (timestampOf a) = true)
    result /\
  (0 <= argOr limit 50 -> (List.length result <= Z.to_nat (argOr limit 50%Z))%nat) /\
  (forall r, In r result ->
     In r (opportunities db) /\
     (argOr kind "all"%string = "all"%string
      \/ hasType (argOr kind "all"%string) r = true)) /\
  exists rest,
    Permutation (result ++ rest)
      (ofType (argOr kind "all"%string) (opportunities db)) /\
    (forall a b, In a result -> In b rest ->
       notAfter (timestampOf b) (timestampOf a) = true) /\
    (argOr limit 50 < 0 -> rest = []).
Proof.
  intros Hinit. unfold getRecentOpportunities. rewrite Hinit. cbn zeta.
  set (rows := ofType (argOr kind "all"%string) (opportunities db)).
  pose proof (orderByTimestampDesc_sorted rows) as Hs.
  pose proof (orderByTimestampDesc_perm rows) as Hp.
  set (sorted := orderByTimestampDesc rows) in *.
  unfold limitRows. destruct (Z.ltb_spec (argOr limit 50) 0) as [Hneg|Hpos].
  - split; [assumption|]. split; [lia|]. split.
    + intros r Hr. apply ofType_In. eapply Permutation_in; eassumption.
    + exists []. rewrite app_nil_r. split; [assumption|].
      split; [intros a b _ []|reflexivity].
  - destruct (StronglySorted_firstn _ (Z.to_nat (argOr limit 50)) sorted Hs)
      as [H1 H2].
    split; [assumption|]. split; [intros _; apply firstn_le_length|]. split.
    + intros r Hr. apply ofType_In. eapply Permutation_in; [eassumption|].
      rewrite <- (firstn_skipn (Z.to_nat (argOr limit 50)) sorted).
      apply in_or_app. left. assumption.
    + exists (skipn (Z.to_nat (argOr limit 50)) sorted).
      rewrite firstn_skipn. split; [assumption|]. split; [|lia].
      intros a b Ha Hb. apply (H2 a b Ha Hb).
Qed.

Lemma getRecentOpportunities_newest_first_witness :
  let db := storeAll [(1, sampleOpportunity 25 1700000000000)] empty in
  let result := getRecentOpportunities (Some 10) (Some "direct"%string) db in
  StronglySorted (fun a b => notAfter (timestampOf b) (timestampOf a) = true)
    result /\
  (0 <= argOr (Some 10) 50 ->
   (List.length result <= Z.to_nat (argOr (Some 10%Z) 50%Z))%nat) /\
  (forall r, In r result ->
     In r (opportunities db) /\
     (argOr (Some "direct"%string) "all"%string = "all"%string
      \/ hasType (argOr (Some "direct"%string) "all"%string) r = true)) /\
  exists rest,
    Permutation (result ++ rest)
      (ofType (argOr (Some "direct"%string) "all"%string) (opportunities db)) /\
    (forall a b, In a result -> In b rest ->
       notAfter (timestampOf b) (timestampOf a) = true) /\
    (argOr (Some 10) 50 < 0 -> rest = []).
Proof.
  apply (getRecentOpportunities_newest_first (Some 10) (Some "direct"%string)
           (storeAll [(1, sampleOpportunity 25 1700000000000)] empty)).
  reflexivity.
Defined.

(** X25: [getOpportunitiesByTimeRange] returns exactly the rows of the
    requested type whose timestamp lies between [startTime] and [endTime],
    both ends included, ordered by descending timestamp; an interval whose
    end is before its start gives nothing. *)
Theorem getOpportunitiesByTimeRange_exact (startTime endTime : Z)
  (kind : option string) (db : DatabaseService.t) :
  isInitialized db = true ->
  let result := getOpportunitiesByTimeRange startTime endTime kind db in
  StronglySorted (fun a b => notAfter (timestampOf b) (timestampOf a) = true)
    result /\
  (forall r, In r result <->
     In r (opportunities db) /\
     (argOr kind "all"%string = "all"%string
      \/ hasType (argOr kind "all"%string) r = true) /\
     exists ts, timestamp (row r) = Some ts /\ startTime <= ts <= endTime) /\
  (endTime < startTime -> result = []).
Proof.
  intros Hinit. unfold getOpportunitiesByTimeRange. rewrite Hinit. cbn zeta.
  set (rows := filter (inTimeRange startTime endTime)
                 (ofType (argOr kind "all"%string) (opportunities db))).
  assert (Hin : forall r, In r rows <->
            In r (opportunities db) /\
            (argOr kind "all"%string = "all"%string
             \/ hasType (argOr kind "all"%string) r = true) /\
            exists ts, timestamp (row r) = Some ts /\ startTime <= ts <= endTime).
  { intros r. unfold rows. rewrite filter_In, ofType_In.
    unfold inTimeRange, timestampOf. split.
    - intros [[H1 H2] H3]. split; [assumption|]. split; [assumption|].
      destruct (timestamp (row r)) as [ts|]; [|discriminate].
      exists ts. split; [reflexivity|].
      apply andb_true_iff in H3. destruct H3 as [A B].
      apply Z.leb_le in A, B. lia.
    - intros (H1 & H2 & ts & Hts & Hr). split; [split; assumption|].
      rewrite Hts. apply andb_true_iff. split; apply Z.leb_le; lia. }
  split; [apply orderByTimestampDesc_sorted|]. split.
  - intros r. rewrite <- Hin. split; apply Permutation_in;
      [apply orderByTimestampDesc_perm|symmetry; apply orderByTimestampDesc_perm].
  - intros Hempty.
    destruct (orderByTimestampDesc rows) as [|r l] eqn:E; [reflexivity|exfalso].
    assert (Hr : In r rows).
    { eapply Permutation_in; [apply orderByTimestampDesc_perm|].
      rewrite E. left. reflexivity. }
    apply Hin in Hr. destruct Hr as (_ & _ & ts & _ & Hts). lia.
Qed.

Lemma getOpportunitiesByTimeRange_exact_witness :
  let db := storeAll [(1, sampleOpportunity 25 1700000000000)] empty in
  let result := getOpportunitiesByTimeRange 1700000000000 1700000000000 None db in
  StronglySorted (fun a b => notAfter (timestampOf b) (timestampOf a) = true)
    result /\
  (forall r, In r result <->
     In r (opportunities db) /\
     (argOr None "all"%string = "all"%string
      \/ hasType (argOr None "all"%string) r = true) /\
     exists ts, timestamp (row r) = Some ts
                /\ 1700000000000 <= ts <= 1700000000000) /\
  (1700000000000 < 1700000000000 -> result = []).
Proof.
  apply (getOpportunitiesByTimeRange_exact 1700000000000 1700000000000 None
           (storeAll [(1, sampleOpportunity 25 1700000000000)] empty)).
  reflexivity.
Defined.

Lemma find_unique_filter (i : string) (P : Row -> bool) (table : list Row) :
  uniqueIds table ->
  find (sameId (Some i)) (filter P table)
  = match find (sameId (Some i)) table with
    | Some r => if P r then Some r else None
    | None => None
    end.
Proof.
  intros Hu. specialize (Hu i). unfold countId in Hu.
  induction table as [|r table IH]; [reflexivity|].
  cbn [filter find] in *. destruct (sameId (Some i) r) eqn:E.
  - cbn [List.length] in Hu.
    assert (Hnone : filter (sameId (Some i)) table = [])
      by (destruct (filter (sameId (Some i)) table); [reflexivity|cbn in Hu; lia]).
    assert (Hf : forall Q, find (sameId (Some i)) (filter Q table) = None).
    { intros Q. clear - Hnone. induction table as [|x table IH]; [reflexivity|].
      cbn [filter] in *. destruct (sameId (Some i) x) eqn:Ex; [discriminate|].
      destruct (Q x); [cbn [find]; rewrite Ex|]; apply IH; assumption. }
    destruct (P r); [cbn [find]; rewrite E; reflexivity|apply Hf].
  - destruct (P r); [cbn [find]; rewrite E|]; apply IH; assumption.
Qed.

(** X26: [cleanOldData] deletes exactly the rows whose timestamp is before
    the cut-off, [daysToKeep] days (30 by default) before now.  The other
    rows stay, in their order, the primary key stays unique, and a look-up
    by id finds the row it found before unless that row was deleted. *)
Theorem cleanOldData_keeps_recent (now : Z) (daysToKeep : option Z)
  (db : DatabaseService.t) :
  isInitialized db = true -> uniqueIds (opportunities db) ->
  let cutoff := now - argOr daysToKeep 30 * 86400000 in
  let db' := cleanOldData now daysToKeep db in
  (forall r, In r (opportunities db') <->
     In r (opportunities db) /\
     forall ts, timestamp (row r) = Some ts -> cutoff <= ts) /\
  uniqueIds (opportunities db') /\
  forall i, getOpportunityById i db'
    = match getOpportunityById i db with
      | Some r => if isOld cutoff r then None else Some r
      | None => None
      end.
Proof.
  intros Hinit Hu. cbn zeta. unfold cleanOldData, getOpportunityById.
  rewrite Hinit. cbn [opportunities isInitialized].
  assert (Hc : cutoffTime now daysToKeep = now - argOr daysToKeep 30 * 86400000)
    by (unfold cutoffTime; lia).
  rewrite Hc. set (cutoff := now - argOr daysToKeep 30 * 86400000).
  split; [|split].
  - intros r. rewrite filter_In. unfold isOld, timestampOf. split.
    + intros [H1 H2]. split; [assumption|]. intros ts Hts. rewrite Hts in H2.
      apply negb_true_iff, Z.ltb_ge in H2. assumption.
    + intros [H1 H2]. split; [assumption|].
      destruct (timestamp (row r)) as [ts|]; [|reflexivity].
      apply negb_true_iff, Z.ltb_ge. apply H2. reflexivity.
  - intros i. eapply Nat.le_trans; [apply countId_filter_le|apply Hu].
  - intros i. rewrite (find_unique_filter i _ _ Hu).
    destruct (find (sameId (Some i)) (opportunities db)) as [r|]; [|reflexivity].
    destruct (isOld cutoff r); reflexivity.
Qed.

Lemma cleanOldData_keeps_recent_witness :
  let db := storeAll [(1, sampleOpportunity 25 1700000000000)] empty in
  let cutoff := 1702592000001 - argOr None 30 * 86400000 in
  let db' := cleanOldData 1702592000001 None db in
  (forall r, In r (opportunities db') <->
     In r (opportunities db) /\
     forall ts, timestamp (row r) = Some ts -> cutoff <= ts) /\
  uniqueIds (opportunities db') /\
  forall i, getOpportunityById i db'
    = match getOpportunityById i db with
      | Some r => if isOld cutoff r then None else Some r
      | None => None
      end.
Proof.
  apply (cleanOldData_keeps_recent 1702592000001 None
           (storeAll [(1, sampleOpportunity 25 1700000000000)] empty)).
  - reflexivity.
  - apply storeAll_from_empty_unique.
Defined.

End DatabaseServiceQueries.

(** ** Detection of triangular arbitrage *)

Module ComprehensiveArbitrageBotDetection.

Import Decimal DecimalFacts ComprehensiveArbitrageBot ComprehensiveArbitrageBotFacts.

Lemma setPrices_keys (dexName : string) (found : DexPrices)
  (prices : list (string * DexPrices)) :
  map fst (setPrices dexName found prices)
  = if existsb (String.eqb dexName) (map fst prices)
    then map fst prices else map fst prices ++ [dexName].
Proof.
  induction prices as [|[d p] rest IH]; [reflexivity|].
  cbn [setPrices map fst existsb].
  rewrite (String.eqb_sym dexName d).
  destruct (String.eqb d dexName) eqn:E; [reflexivity|].
  cbn [orb map fst]. rewrite IH.
  destruct (existsb (String.eqb dexName) (map fst rest)); reflexivity.
Qed.

Lemma existsb_eqb_In (x : string) (l : list string) :
  existsb (String.eqb x) l = true <-> In x l.
Proof.
  rewrite existsb_exists. split.
  - intros (y & Hy & E). apply String.eqb_eq in E. subst. assumption.
  - intros H. exists x. split; [assumption|apply String.eqb_refl].
Qed.

Lemma setPrices_NoDup (dexName : string) (found : DexPrices)
  (prices : list (string * DexPrices)) (allowed : list string) :
  NoDup (map fst prices) -> incl (map fst prices) allowed -> In dexName allowed ->
  NoDup (map fst (setPrices dexName found prices)) /\
  incl (map fst (setPrices dexName found prices)) allowed.
Proof.
  intros Hn Hi Hd. rewrite setPrices_keys.
  destruct (existsb (String.eqb dexName) (map fst prices)) eqn:E;
    [split; assumption|].
  split.
  - apply NoDup_app; [assumption|repeat constructor; intros []|].
    intros x Hx [<-|[]]. apply existsb_eqb_In in Hx. congruence.
  - apply incl_app; [assumption|]. intros x [<-|[]]. assumption.
Qed.

Section Detection.

Variable rm : Rounding.
Variable config : Config.
Variable clock : nat -> Z.
Variable getPrice : string -> string -> string -> option PriceData.

Lemma fetchPrices_keys (tokenA tokenB tokenC : string) (dexes : list string) :
  forall prices allowed,
  NoDup (map fst prices) -> incl (map fst prices) allowed -> incl dexes allowed ->
  NoDup (map fst (fetchPrices getPrice tokenA tokenB tokenC dexes prices)) /\
  incl (map fst (fetchPrices getPrice tokenA tokenB tokenC dexes prices)) allowed.
Proof.
  induction dexes as [|d dexes IH]; intros prices allowed Hn Hi Hd;
    cbn [fetchPrices].
  - split; assumption.
  - assert (Hd' : incl dexes allowed) by (intros x Hx; apply Hd; right; assumption).
    assert (Hin : In d allowed) by (apply Hd; left; reflexivity).
    destruct (setPrices_NoDup d
                {| AB := getPrice tokenA tokenB d; BC := getPrice tokenB tokenC d;
                   AC := getPrice tokenA tokenC d |} prices allowed Hn Hi Hin)
      as [Hn' Hi'].
    cbn [AB BC AC].
    destruct (getPrice tokenA tokenB d), (getPrice tokenB tokenC d),
             (getPrice tokenA tokenC d); apply IH; assumption.
Qed.

Lemma calculateTriangularArbitrage_fields (triangularPair : TriangularPair)
  (dex1 dex2 : string) (prices1 prices2 : DexPrices) (gasPrice : Decimal.t)
  (nowId nowStamp : Z) (o : DatabaseService.Opportunity) :
  calculateTriangularArbitrage rm config triangularPair dex1 dex2 prices1 prices2
    gasPrice nowId nowStamp = Some o ->
  DatabaseService.buyDex o = Some dex1 /\
  DatabaseService.sellDex o = Some dex2 /\
  DatabaseService.type o = Some "triangular"%string.
Proof.
  unfold calculateTriangularArbitrage.
  destruct (tokens triangularPair) as [[tokenA tokenB] tokenC].
  destruct (AB prices1); [|discriminate].
  destruct (BC prices1); [|discriminate].
  destruct (AC prices2); [|discriminate].
  destruct (lessThan _ _); [discriminate|].
  intros H. injection H as <-. repeat split.
Qed.

Lemma pairWithLater_sound (triangularPair : TriangularPair) (gasPrice : Decimal.t)
  (first : string * DexPrices) (later : list (string * DexPrices)) :
  forall reads,
  ~ In (fst first) (map fst later) ->
  In (fst first) (supportedDEXs config) ->
  incl (map fst later) (supportedDEXs config) ->
  let out := pairWithLater rm config clock triangularPair gasPrice first later reads in
  Forall (profitableAcrossDexes config) (fst out) /\ snd out = (reads + 2 * List.length (fst out))%nat.
Proof.
  induction later as [|second rest IH]; intros reads Hnot Hin Hincl;
    cbn [pairWithLater].
  - cbn. split; [constructor|lia].
  - assert (Hnot' : ~ In (fst first) (map fst rest))
      by (intros H; apply Hnot; right; assumption).
    assert (Hincl' : incl (map fst rest) (supportedDEXs config))
      by (intros x Hx; apply Hincl; right; assumption).
    destruct (calculateTriangularArbitrage rm config triangularPair (fst first)
                (fst second) (snd first) (snd second) gasPrice (clock reads)
                (clock (S reads))) as [o|] eqn:E.
    + specialize (IH (S (S reads)) Hnot' Hin Hincl'). cbn zeta in IH.
      destruct (pairWithLater rm config clock triangularPair gasPrice first rest
                  (S (S reads))) as [more reads'].
      cbn [fst snd] in *. destruct IH as [IH1 IH2]. split.
      * constructor; [|assumption].
        destruct (calculateTriangularArbitrage_fields _ _ _ _ _ _ _ _ _ E)
          as (Hb & Hs & Ht).
        destruct (calculateTriangularArbitrage_profitable _ _ _ _ _ _ _ _ _ _ _ E)
          as (np & wm & _ & Hwm & _ & Hlt & _).
        exists (fst first), (fst second), wm.
        repeat split; try assumption.
        -- intros Heq. apply Hnot. left. symmetry. assumption.
        -- apply Hincl. left. reflexivity.
      * cbn [List.length]. lia.
    + apply IH; assumption.
Qed.

Lemma allPairs_sound (triangularPair : TriangularPair) (gasPrice : Decimal.t)
  (prices : list (string * DexPrices)) :
  forall reads,
  NoDup (map fst prices) -> incl (map fst prices) (supportedDEXs config) ->
  let out := allPairs rm config clock triangularPair gasPrice prices reads in
  Forall (profitableAcrossDexes config) (fst out) /\ snd out = (reads + 2 * List.length (fst out))%nat.
Proof.
  induction prices as [|first later IH]; intros reads Hn Hi; cbn [allPairs].
  - cbn. split; [constructor|lia].
  - cbn [map] in Hn, Hi. apply NoDup_cons_iff in Hn. destruct Hn as [Hnot Hn].
    assert (Hin : In (fst first) (supportedDEXs config))
      by (apply Hi; left; reflexivity).
    assert (Hi' : incl (map fst later) (supportedDEXs config))
      by (intros x Hx; apply Hi; right; assumption).
    pose proof (pairWithLater_sound triangularPair gasPrice first later reads
                  Hnot Hin Hi') as H1. cbn zeta in H1.
    destruct (pairWithLater rm config clock triangularPair gasPrice first later
                reads) as [here reads1].
    specialize (IH reads1 Hn Hi'). cbn zeta in IH.
    destruct (allPairs rm config clock triangularPair gasPrice later reads1)
      as [there reads2].
    cbn [fst snd] in *. destruct H1 as [A1 A2]. destruct IH as [B1 B2]. split.
    + apply Forall_app. split; assumption.
    + rewrite length_app. lia.
Qed.

Lemma detectTriangularArbitrage_profitable (triangularPair : TriangularPair)
  (gasPrice : Decimal.t) (reads : nat) :
  let out := detectTriangularArbitrage rm config clock getPrice triangularPair
               gasPrice reads in
  Forall (profitableAcrossDexes config) (fst out) /\
  snd out = (reads + 2 * List.length (fst out))%nat.
Proof.
  cbn zeta. unfold detectTriangularArbitrage.
  destruct (tokens triangularPair) as [[tokenA tokenB] tokenC].
  destruct (fetchPrices_keys tokenA tokenB tokenC (supportedDEXs config) []
              (supportedDEXs config)) as [Hn Hi].
  { constructor. } { intros x []. } { apply incl_refl. }
  destruct (2 <=? _)%nat.
  - apply allPairs_sound; assumption.
  - cbn. split; [constructor|lia].
Qed.

(** X27: [detectTriangularArbitrage] returns only opportunities that pass
    the profit filter and span two different exchanges: each one is of
    type 'triangular', names two distinct DEXs of [supportedDEXs], and its
    profit after the safety margin is not below [minProfitUSD]; the
    clock is read twice per opportunity returned. *)
Theorem detectTriangularArbitrage_sound (triangularPair : TriangularPair)
  (gasPrice : Decimal.t) (reads : nat) :
  let out := detectTriangularArbitrage rm config clock getPrice triangularPair
               gasPrice reads in
  Forall (fun o =>
    exists dex1 dex2 withMargin,
      DatabaseService.buyDex o = Some dex1 /\
      DatabaseService.sellDex o = Some dex2 /\
      dex1 <> dex2 /\
      In dex1 (supportedDEXs config) /\ In dex2 (supportedDEXs config) /\
      DatabaseService.type o = Some "triangular"%string /\
      DatabaseService.profitWithSafetyMargin o = Some withMargin /\
      lessThan withMargin (ofNumber (minProfitUSD config)) = false) (fst out) /\
  snd out = (reads + 2 * List.length (fst out))%nat.
Proof.
  exact (detectTriangularArbitrage_profitable triangularPair gasPrice reads).
Qed.

Lemma record_adds (o : DatabaseService.Opportunity) (w : World) (r : DatabaseService.Row) :
  profitableAcrossDexes config o ->
  In r (DatabaseService.opportunities
          (database (record rm clock (Some "triangular"%string) o w))) ->
  In r (DatabaseService.opportunities (database w)) \/
  (isTriangular (DatabaseService.row r) = true /\
   passedProfitFilter config (DatabaseService.row r)).
Proof.
  intros (d1 & d2 & wm & _ & _ & _ & _ & _ & _ & Hw & Hlt).
  unfold record. cbn [database].
  unfold DatabaseService.storeOpportunity.
  destruct (DatabaseService.isInitialized (database w)); [|left; assumption].
  unfold DatabaseService.insertOrReplace.
  destruct (DatabaseService.notNullOk _); [|left; assumption].
  cbn [DatabaseService.opportunities]. intros Hin.
  apply in_app_or in Hin. destruct Hin as [Hin|[<-|[]]].
  - left. apply filter_In in Hin. apply Hin.
  - right. cbn [DatabaseService.row]. split.
    + reflexivity.
    + exists wm. split; [exact Hw|assumption].
Qed.

Lemma records_add (os : list DatabaseService.Opportunity) :
  forall (w : World) (r : DatabaseService.Row),
  Forall (profitableAcrossDexes config) os ->
  In r (DatabaseService.opportunities
          (database (fold_left
                       (fun acc o => record rm clock (Some "triangular"%string) o acc)
                       os w))) ->
  In r (DatabaseService.opportunities (database w)) \/
  (isTriangular (DatabaseService.row r) = true /\
   passedProfitFilter config (DatabaseService.row r)).
Proof.
  induction os as [|o os IH]; intros w r Hf Hin; [left; assumption|].
  apply Forall_cons_iff in Hf. destruct Hf as [Ho Hf]. cbn [fold_left] in Hin.
  destruct (IH _ _ Hf Hin) as [H|H]; [|right; assumption].
  eapply record_adds; eassumption.
Qed.

Lemma scanPairs_adds (pairs : list TriangularPair) (gasPrice : Decimal.t) :
  forall (found : nat) (w : World) (r : DatabaseService.Row),
  In r (DatabaseService.opportunities
          (database (snd (scanPairs rm config clock getPrice pairs gasPrice found w)))) ->
  In r (DatabaseService.opportunities (database w)) \/
  (isTriangular (DatabaseService.row r) = true /\
   passedProfitFilter config (DatabaseService.row r)).
Proof.
  induction pairs as [|p pairs IH]; intros found w r Hin; [left; assumption|].
  cbn [scanPairs] in Hin.
  pose proof (detectTriangularArbitrage_profitable p gasPrice (reads w)) as [Hs _].
  destruct (detectTriangularArbitrage rm config clock getPrice p gasPrice (reads w))
    as [os reads'].
  cbn [fst] in Hs. destruct (IH _ _ _ Hin) as [H|H]; [|right; assumption].
  apply (records_add os _ r Hs) in H. exact H.
Qed.

(** X28: with the test mode off, a triangular scan adds to the table only
    opportunities that went through the profit filter: every row of the
    table after [scanTriangularArbitrage] was there before, or is a
    triangular opportunity whose profit after the safety margin is not
    below [minProfitUSD]. *)
Theorem scanTriangularArbitrage_adds_filtered (gasPrice : Decimal.t) (w : World) :
  testMode config = false ->
  Forall (fun r =>
    In r (DatabaseService.opportunities (database w)) \/
    (isTriangular (DatabaseService.row r) = true /\
     exists withMargin,
       DatabaseService.profitWithSafetyMargin (DatabaseService.row r)
         = Some withMargin /\
       lessThan withMargin (ofNumber (minProfitUSD config)) = false))
    (DatabaseService.opportunities
       (database (scanTriangularArbitrage rm config clock getPrice gasPrice w))).
Proof.
  intros Htest. apply Forall_forall. intros r. unfold scanTriangularArbitrage.
  pose proof (scanPairs_adds (triangularPairs config) gasPrice 0%nat w r) as H.
  destruct (scanPairs rm config clock getPrice (triangularPairs config) gasPrice
              0%nat w) as [found w1].
  rewrite Htest, andb_false_r. cbn [andb snd] in *. exact H.
Qed.

End Detection.

Lemma scanTriangularArbitrage_adds_filtered_witness :
  Forall (fun r =>
    In r (DatabaseService.opportunities (database initialWorld)) \/
    (isTriangular (DatabaseService.row r) = true /\
     exists withMargin,
       DatabaseService.profitWithSafetyMargin (DatabaseService.row r)
         = Some withMargin /\
       lessThan withMargin (ofNumber (minProfitUSD liveConfig)) = false))
    (DatabaseService.opportunities
       (database (scanTriangularArbitrage ROUND_HALF_UP liveConfig everyMillisecond
                    dearerOnSushiswap (ofZ 20000000000) initialWorld))).
Proof.
  apply (scanTriangularArbitrage_adds_filtered ROUND_HALF_UP liveConfig
           everyMillisecond dearerOnSushiswap (ofZ 20000000000) initialWorld).
  reflexivity.
Defined.

End ComprehensiveArbitrageBotDetection.
